(** * BindnSeq: enrichment ranking, density weighting and BED projection

    A shallow embedding of [rnaseqlib/bindnseq/BindnSeq.py] and the
    properties of its scoring pipeline.

    Modelling conventions.
    - A finite Python float is the rational it stands for ([Q]).  Where
      the result of float arithmetic is truncated to an integer or
      compared with the values it was computed from (the rescaled scores
      and the percentile cutoff), the definitions take the rounding of
      the arithmetic as an argument: [binary64] is the rounding of the
      doubles of Python and numpy, [unrounded] is arithmetic on the real
      numbers.  The densities are computed on the rationals without
      rounding.  The one place where the code can leave the finite
      numbers, the division of the count vector by the effective length,
      is modelled with the non-finite values of numpy ([npfloat]).
    - Python exceptions are the [Raise] outcome of [result].
    - The collaborators that are not part of this file (the sequence
      scanner, the DataFrame sort of pandas) are parameters; for the
      sort, [df_sort_stable] is the one the spec describes. *)

From Stdlib Require Import ZArith QArith Qround Qminmax Qabs List String Ascii.
From Stdlib Require Import Permutation Sorted Lia Lqa Reals Lra DecimalString.
From Stdlib Require Import DecimalPos DecimalZ.
From stdpp Require Import gmap strings list.
Import ListNotations.

Local Open Scope Z_scope.
Local Open Scope string_scope.

(** ** Python outcomes *)

(** The exceptions the code can raise.  [NotANumber] is not one of them:
    it marks the places where pandas or numpy would go on with a NaN
    score, which this development does not follow. *)
Inductive pyerr : Type :=
| IndexError
| KeyError
| ValueError
| ZeroDivisionError
| AttributeError
| NotANumber.

Inductive result (A : Type) : Type :=
| Ok (a : A)
| Raise (e : pyerr).
Arguments Ok {A} a.
Arguments Raise {A} e.

#[global] Instance result_ret : MRet result := fun _ a => Ok a.
#[global] Instance result_bind : MBind result := fun _ _ f m =>
  match m with
  | Ok a => f a
  | Raise e => Raise e
  end.

Definition is_ok {A} (r : result A) : bool :=
  match r with Ok _ => true | Raise _ => false end.

(** ** Python and numpy primitives *)

Definition Qlt_bool (a b : Q) : bool := negb (Qle_bool b a).

(** [int(x)] on a float: truncation towards zero. *)
Definition py_int (x : Q) : Z := Z.quot (Qnum x) (Zpos (Qden x)).

(** [min(a, b)] and [max(a, b)] of the builtins: the first argument is
    kept unless the second is strictly smaller (resp. greater). *)
Definition py_min (a b : Q) : Q := if Qlt_bool b a then b else a.
Definition py_max (a b : Q) : Q := if Qlt_bool a b then b else a.

(** [max(xs)] over a sequence; [ValueError] on the empty one. *)
Definition py_max_seq (xs : list Q) : result Q :=
  match xs with
  | [] => Raise ValueError
  | x :: rest => Ok (fold_left py_max rest x)
  end.

(** [str(n)] for an integer. *)
Definition py_str (n : Z) : string := NilZero.string_of_int (Z.to_int n).

Definition tab : string := String (ascii_of_nat 9) EmptyString.
Definition newline : string := String (ascii_of_nat 10) EmptyString.
Definition dquote : string := String (ascii_of_nat 34) EmptyString.

(** [s.split(sep)] for a one-character separator. *)
Fixpoint py_split (sep : ascii) (s : string) : list string :=
  match s with
  | EmptyString => [EmptyString]
  | String c s' =>
      if Ascii.eqb c sep then EmptyString :: py_split sep s'
      else match py_split sep s' with
           | [] => [String c EmptyString]
           | w :: ws => String c w :: ws
           end
  end.

Definition is_space (c : ascii) : bool :=
  let n := nat_of_ascii c in
  (Nat.eqb n 32 || (Nat.leb 9 n && Nat.leb n 13))%bool.

Definition digit_of (c : ascii) : option Z :=
  let n := nat_of_ascii c in
  if (Nat.leb 48 n && Nat.leb n 57)%bool then Some (Z.of_nat (n - 48)) else None.

Fixpoint lstrip (s : list ascii) : list ascii :=
  match s with
  | c :: s' => if is_space c then lstrip s' else s
  | [] => []
  end.

Definition strip (s : list ascii) : list ascii := rev (lstrip (rev (lstrip s))).

Fixpoint digits_value (acc : Z) (s : list ascii) : option Z :=
  match s with
  | [] => Some acc
  | c :: s' =>
      match digit_of c with
      | Some d => digits_value (10 * acc + d) s'
      | None => None
      end
  end.

Definition unsigned_value (s : list ascii) : option Z :=
  match s with
  | [] => None
  | _ => digits_value 0 s
  end.

(** [int(s)] on a string: surrounding blanks, an optional sign, decimal
    digits; anything else is a [ValueError]. *)
Definition py_int_of_string (s : string) : result Z :=
  let body := strip (list_ascii_of_string s) in
  let signed :=
    match body with
    | c :: rest =>
        if Ascii.eqb c "-"%char then Z.opp <$> unsigned_value rest
        else if Ascii.eqb c "+"%char then unsigned_value rest
        else unsigned_value body
    | [] => None
    end in
  match signed with
  | Some n => Ok n
  | None => Raise ValueError
  end.

(** [np.where(cond)[0]]: the indices at which the condition holds. *)
Definition np_where {A} (cond : A -> bool) (a : list A) : list nat :=
  map fst (List.filter (fun ix => cond (snd ix)) (combine (seq 0 (length a)) a)).

(** [a[inds] = v]: every index must be in range. *)
Definition np_setitem {A} (a : list A) (inds : list nat) (v : A) : result (list A) :=
  if forallb (fun i => Nat.ltb i (length a)) inds
  then Ok (fold_left (fun acc i => <[i := v]> acc) inds a)
  else Raise IndexError.

(** [a[inds]]: every index must be in range. *)
Fixpoint np_take {A} (a : list A) (inds : list nat) : result (list A) :=
  match inds with
  | [] => Ok []
  | i :: rest =>
      match a !! i with
      | Some x => xs ← np_take a rest; Ok (x :: xs)
      | None => Raise IndexError
      end
  end.

(** ** Float arithmetic *)

(** An operation on floats gives the exact result of the operation on
    the numbers, rounded to a float.  The definitions below that do
    float arithmetic take the rounding [fl] as their first argument and
    apply it after every operation. *)

(** No rounding: arithmetic on the real numbers. *)
Definition unrounded (x : Q) : Q := x.

(** The nearest integer, the even one of the two when [x] lies halfway. *)
Definition round_half_even (x : Q) : Z :=
  let f := Qfloor x in
  match Qcompare (x - inject_Z f) (1 # 2) with
  | Lt => f
  | Gt => f + 1
  | Eq => if Z.even f then f else f + 1
  end.

(** 2 to the power [e], for an integer [e] of either sign. *)
Definition Qpow2 (e : Z) : Q :=
  match e with
  | Z0 => 1
  | Zpos p => inject_Z (2 ^ Zpos p)
  | Zneg p => 1 # (2 ^ p)
  end.

(** The integer [e] with 2^e <= x < 2^(e+1), for a positive [x]. *)
Definition Qlog2_floor (x : Q) : Z :=
  let e := Z.log2 (Qnum x) - Z.log2 (Zpos (Qden x)) in
  if Qle_bool (Qpow2 e) x then e else e - 1.

(** The rounding of IEEE 754 double precision, which is the float of
    Python and the float64 of numpy: the nearest number with a
    significand of 53 bits, ties to the even significand, with gradual
    underflow below 2^(-1022).  Overflow to infinity (beyond about
    1.8e308) is not modelled. *)
Definition binary64 (x : Q) : Q :=
  if Qeq_bool x 0 then 0%Q
  else
    let e := Z.max (Qlog2_floor (Qabs x) - 52) (-1074) in
    Qred (inject_Z (round_half_even (x / Qpow2 e)) * Qpow2 e).

(** ** Score rescaling *)

(** [rescale_score].  At its call sites the value is a float and the
    ends of the two scales are small integers, which are floats as they
    are. *)
Definition rescale_score (fl : Q -> Q) (OldValue OldMin OldMax NewMin NewMax : Q)
    : result Q :=
  if Qeq_bool (fl (OldMax - OldMin)%Q) 0 then Raise ZeroDivisionError
  else Ok (fl (fl (fl (fl (OldValue - OldMin) * fl (NewMax - NewMin))
                   / fl (OldMax - OldMin))
               + NewMin))%Q.

Definition fc_ceiling : Q := 4.

Definition kmer_score_of (fl : Q -> Q) (fc : Q) : result Z :=
  kmer_score ← rescale_score fl fc 1 fc_ceiling 1 1000;
  Ok (py_int (py_min kmer_score 1000)).

Definition kmer_color_of (fl : Q -> Q) (fc : Q) : result Z :=
  kmer_color ← rescale_score fl fc 1 fc_ceiling 1 255;
  Ok (py_int (py_min kmer_color 255)).

(** ** BED output of the enriched kmers *)

Record BedEntry : Type := {
  chrom : string;
  chromStart : Z;
  chromEnd : Z;
  name : string;
  score : Z;
  strand : string;
  thickStart : Z;
  thickEnd : Z
}.

(** The entry as the line that is written: the numeric fields go through
    [str], the fields are joined by tabs. *)
Definition bed_line (e : BedEntry) : string :=
  chrom e ++ tab ++ py_str (chromStart e) ++ tab ++ py_str (chromEnd e) ++ tab ++
  name e ++ tab ++ py_str (score e) ++ tab ++ strand e ++ tab ++
  py_str (thickStart e) ++ tab ++ py_str (thickEnd e) ++ newline.

Definition bed_header (track_desc db : string) : string :=
  "track name=" ++ dquote ++ track_desc ++ dquote ++
  " description=" ++ dquote ++ track_desc ++ dquote ++
  " useScore=1 db=" ++ db ++ " visibility=3" ++ newline.

(** Computations that write BED entries: the entries written so far are
    threaded through, and stay written when an exception escapes. *)
Definition bedM (A : Type) : Type := list BedEntry -> result A * list BedEntry.

#[global] Instance bedM_ret : MRet bedM := fun _ a buf => (Ok a, buf).
#[global] Instance bedM_bind : MBind bedM := fun _ _ f m buf =>
  match m buf with
  | (Ok a, buf') => f a buf'
  | (Raise e, buf') => (Raise e, buf')
  end.

Definition lift {A} (r : result A) : bedM A := fun buf => (r, buf).
Definition bed_write (e : BedEntry) : bedM unit := fun buf => (Ok tt, (buf ++ [e])%list).

Fixpoint for_each {X} (xs : list X) (body : X -> bedM unit) : bedM unit :=
  match xs with
  | [] => mret tt
  | x :: xs' => _ ← body x; for_each xs' body
  end.

Definition dict_get (d : gmap string Q) (k : string) : result Q :=
  match d !! k with
  | Some v => Ok v
  | None => Raise KeyError
  end.

(** [dict(pairs)]: a later pair overrides an earlier one. *)
Definition py_dict (pairs : list (string * Q)) : gmap string Q :=
  fold_left (fun d kv => <[fst kv := snd kv]> d) pairs ∅.

(** Unpacking a list into exactly three, resp. two, names. *)
Definition unpack3 (l : list string) : result (string * string * string) :=
  match l with
  | [a; b; c] => Ok (a, b, c)
  | _ => Raise ValueError
  end.

Definition unpack2 (l : list string) : result (string * string) :=
  match l with
  | [a; b] => Ok (a, b)
  | _ => Raise ValueError
  end.

(** [s[1:]] *)
Definition drop_first (s : string) : string :=
  match s with
  | EmptyString => EmptyString
  | String _ s' => s'
  end.

Section BedOutput.

(** [fasta_counter.count_subseqs_with_starts]: for a sequence and the
    query kmers, the pairs of a kmer and its 0-based start offsets. *)
Variable count_subseqs_with_starts : string -> list string -> list (string * list Z).

Variable enriched_kmer_to_fc : gmap string Q.

(** The body of the innermost loop, for one occurrence of [kmer_seq]. *)
Definition bed_occurrence (seq_chrom seq_end seq_strand kmer_seq : string)
    (kmer_start : Z) : bedM unit :=
  let kmer_len := Z.of_nat (String.length kmer_seq) in
  let kmer_start := kmer_start + 1 in
  fc ← lift (dict_get enriched_kmer_to_fc kmer_seq);
  kmer_score ← lift (kmer_score_of binary64 fc);
  kmer_color ← lift (kmer_color_of binary64 fc);
  if String.eqb seq_strand "-" then
    seq_end_int ← lift (py_int_of_string seq_end);
    let kmer_end_in_seq := seq_end_int - kmer_start + 1 in
    let kmer_start_in_seq := kmer_end_in_seq - kmer_len in
    bed_write {| chrom := seq_chrom;
                 chromStart := kmer_start_in_seq;
                 chromEnd := kmer_end_in_seq;
                 name := kmer_seq;
                 score := kmer_score;
                 strand := seq_strand;
                 thickStart := kmer_start_in_seq;
                 thickEnd := kmer_end_in_seq |}
  else mret tt.

Definition bed_kmer (seq_chrom seq_end seq_strand : string)
    (curr_kmer : string * list Z) : bedM unit :=
  let '(kmer_seq, kmer_starts) := curr_kmer in
  if Nat.eqb (length kmer_starts) 0 then mret tt
  else for_each kmer_starts (bed_occurrence seq_chrom seq_end seq_strand kmer_seq).

(** The body of the loop over [fasta_counter.seqs]; a sequence is its
    FASTA header and its bases. *)
Definition bed_sequence (enriched_kmers_to_score : list string)
    (curr_seq : string * string) : bedM unit :=
  let seq_name := drop_first (fst curr_seq) in
  let enriched_kmers_starts :=
    count_subseqs_with_starts (snd curr_seq) enriched_kmers_to_score in
  '(seq_chrom, seq_coords, seq_strand) ←
    lift (unpack3 (py_split ":" (hd EmptyString (py_split ";" seq_name))));
  '(seq_start, seq_end) ← lift (unpack2 (py_split "-" seq_coords));
  for_each enriched_kmers_starts (bed_kmer seq_chrom seq_end seq_strand).

(** [output_enriched_kmers_as_bed]: the file system maps a path to the
    lines of the file.  An existing file is left alone. *)
Definition output_enriched_kmers_as_bed (seqs : list (string * string))
    (enriched_kmers : list string) (bed_output_fname track_desc db : string)
    (fs : gmap string (list string)) : result unit * gmap string (list string) :=
  match fs !! bed_output_fname with
  | Some _ => (Ok tt, fs)
  | None =>
      let '(outcome, entries) :=
        for_each seqs (bed_sequence enriched_kmers) [] in
      (outcome,
       <[bed_output_fname := bed_header track_desc db :: map bed_line entries]> fs)
  end.

End BedOutput.

(** ** Odds-ratio tables and their ranking *)

(** A row of an odds-ratio DataFrame: the kmer and one value per data
    column of the table.  The labels of the data columns, all columns
    but the one of the kmers, are the [columns] of the table. *)
Record ORRow : Type := {
  kmer : string;
  values : list Q
}.

Record ORTable : Type := {
  columns : list string;
  rows : list ORRow
}.

(** [s.endswith(suffix)] *)
Definition py_endswith (s suffix : string) : bool :=
  String.prefix (string_of_list_ascii (rev (list_ascii_of_string suffix)))
                (string_of_list_ascii (rev (list_ascii_of_string s))).

(** [df.columns]: the column of the kmers, which the loader renames
    from "#" to "kmer" and which the files have first, and the data
    columns. *)
Definition df_columns (df : ORTable) : list string := "kmer" :: columns df.

Definition get_conc_cols (df : ORTable) (suffix : string) : list string :=
  List.filter (fun col => py_endswith col suffix) (df_columns df).

(** [df[cols]] on one row: the values under the selected column labels. *)
Definition select_cols (df : ORTable) (cols : list string) (r : ORRow) : list Q :=
  map snd (List.filter (fun cv => existsb (String.eqb (fst cv)) cols)
                       (combine (columns df) (values r))).

(** Row statistics of pandas.  Over no value at all they are NaN, which
    [None] stands for. *)
Definition row_max (xs : list Q) : option Q :=
  match xs with
  | [] => None
  | x :: rest => Some (fold_left py_max rest x)
  end.

Definition Qsum (xs : list Q) : Q := fold_left Qplus xs 0%Q.

Definition row_mean (xs : list Q) : option Q :=
  match xs with
  | [] => None
  | _ => Some (Qsum xs / inject_Z (Z.of_nat (length xs)))%Q
  end.

(** A row together with its [rank] column, and with both derived columns. *)
Record ScoredRow : Type := {
  s_row : ORRow;
  s_rank : Q
}.

Record RankedRow : Type := {
  r_row : ORRow;
  rank : Q;
  ordinal_rank : Z
}.

(** Insertion of a value into a list kept in descending, resp. ascending order. *)
Fixpoint insert_desc (x : Q) (l : list Q) : list Q :=
  match l with
  | [] => [x]
  | y :: l' => if Qle_bool x y then y :: insert_desc x l' else x :: l
  end.

Fixpoint insert_asc (x : Q) (l : list Q) : list Q :=
  match l with
  | [] => [x]
  | y :: l' => if Qle_bool y x then y :: insert_asc x l' else x :: l
  end.

Definition sort_values_desc (l : list Q) : list Q := fold_right insert_desc [] l.
Definition sort_values_asc (l : list Q) : list Q := fold_right insert_asc [] l.

Fixpoint first_index (v : Q) (l : list Q) : nat :=
  match l with
  | [] => O
  | y :: l' => if Qeq_bool v y then O else S (first_index v l')
  end.

(** [Series.rank(ascending=False, method="min")]: the values are put in
    descending order and numbered from 1; a group of tied values shares
    the smallest number of the group. *)
Definition series_rank_min (vals : list Q) : list Z :=
  let sorted := sort_values_desc vals in
  map (fun v => Z.of_nat (first_index v sorted) + 1) vals.

Definition with_ordinal (r : ScoredRow) (o : Z) : RankedRow :=
  {| r_row := s_row r; rank := s_rank r; ordinal_rank := o |}.

(** [DataFrame.sort(columns=[col], ascending=asc)] of pandas on a frame
    of scored rows: the column to sort by, the direction, and the rows
    of the frame. *)
Definition DataFrameSort : Type :=
  (ScoredRow -> Q) -> bool -> list ScoredRow -> list ScoredRow.

(** Modelled from the spec: [DataFrame.sort] is code of pandas, which is
    not part of the sources, and the code passes it no [kind], so that
    nothing in the sources says where rows with equal keys go.  The spec
    does: "Sorts KmerRecords by rank_score descending.  Ties are broken
    by preserving original load order (explicit, documented policy, not
    left to an unstable sort)."  The rows are put in place from the last
    row of the frame to the first; a row goes behind the rows in place
    that come strictly before it in the direction asked for, and so
    ahead of the rows with the same key, which all follow it in the
    frame. *)
Fixpoint insert_row (by_col : ScoredRow -> Q) (ascending : bool)
    (x : ScoredRow) (l : list ScoredRow) : list ScoredRow :=
  match l with
  | [] => [x]
  | y :: l' =>
      if (if ascending then Qlt_bool (by_col y) (by_col x)
          else Qlt_bool (by_col x) (by_col y))
      then y :: insert_row by_col ascending x l'
      else x :: l
  end.

Definition df_sort_stable : DataFrameSort :=
  fun by_col ascending l => fold_right (insert_row by_col ascending) [] l.

Section Ranking.

(** The sort of the frame.  The properties that do not depend on where
    rows with equal keys go are stated for every sort; [df_sort_stable]
    is the one of the spec. *)
Variable df_sort : DataFrameSort.

(** [rank_enriched_kmers].  An unknown method reaches the call of
    [self.logger.criticla], a method the logger does not have. *)
Definition rank_enriched_kmers (or_df : ORTable) (method : string)
    : result (list RankedRow) :=
  let conc_cols := get_conc_cols or_df "nM" in
  stat ←
    (if String.eqb method "max" then Ok row_max
     else if String.eqb method "mean" then Ok row_mean
     else Raise AttributeError);
  scored ←
    mapM (fun r => match stat (select_cols or_df conc_cols r) with
                   | Some v => Ok {| s_row := r; s_rank := v |}
                   | None => Raise NotANumber
                   end) (rows or_df);
  (* ranked_or_df.sort(columns=[rank_col], inplace=True, ascending=False) *)
  let sorted := df_sort s_rank false scored in
  Ok (zip_with with_ordinal sorted (series_rank_min (map s_rank sorted))).

End Ranking.

(** ** Percentile cutoff and selection *)

(** [np.percentile(a, q)] with its default linear interpolation between
    the two order statistics around position [q/100 * (N - 1)]: the
    position, the two weights and the weighted sum are floats, computed
    in the arithmetic [fl].  A position that is an integer gives the
    order statistic there as it is.  A percentile outside [0, 100] is
    refused; over an empty array the result is NaN. *)
Definition linear_interpolation (fl : Q -> Q) (sorted : list Q) (index : Q) : result Q :=
  let i := Qfloor index in
  match sorted !! Z.to_nat i with
  | None => Raise IndexError
  | Some lower =>
      if Qeq_bool index (inject_Z i) then Ok lower
      else
        match sorted !! Z.to_nat (i + 1) with
        | None => Raise IndexError
        | Some upper =>
            Ok (fl (fl (lower * fl (inject_Z (i + 1) - index))
                    + fl (upper * fl (index - inject_Z i))))%Q
        end
  end.

Definition np_percentile (fl : Q -> Q) (a : list Q) (q : Q) : result Q :=
  let sorted := sort_values_asc a in
  let Nx := length sorted in
  if negb (Qle_bool 0 q && Qle_bool q 100) then Raise ValueError
  else if Nat.eqb Nx 0 then Raise NotANumber
  else linear_interpolation fl sorted (fl (fl (q / 100) * inject_Z (Z.of_nat Nx - 1)))%Q.

Definition get_fc_cutoff (fl : Q -> Q) (or_df : list RankedRow) (percentile_cutoff : Q)
    : result Q :=
  np_percentile fl (map rank or_df) percentile_cutoff.

(** [ranked_kmers[ranked_kmers["rank"] >= fold_cutoff]] *)
Definition rows_meeting (fold_cutoff : Q) (ranked_kmers : list RankedRow) : list RankedRow :=
  List.filter (fun r => Qle_bool fold_cutoff (rank r)) ranked_kmers.

(** The cutoff at a percentile followed by the selection. *)
Definition select_enriched (fl : Q -> Q) (ranked_kmers : list RankedRow)
    (percentile_cutoff : Q) : result (list RankedRow) :=
  fold_cutoff ← get_fc_cutoff fl ranked_kmers percentile_cutoff;
  Ok (rows_meeting fold_cutoff ranked_kmers).

Definition default_percentile_cutoff : Q := 98.

Definition get_enriched_kmers_df (df_sort : DataFrameSort)
    (odds_ratios : gmap Z ORTable) (kmer_len : Z) (method : string)
    : result (list RankedRow) :=
  match odds_ratios !! kmer_len with
  | None => Raise KeyError
  | Some kmer_data =>
      ranked_kmers ← rank_enriched_kmers df_sort kmer_data method;
      select_enriched binary64 ranked_kmers default_percentile_cutoff
  end.

(** ** Rank-weighted densities *)

Definition FC_FILTER : Q := 2.

(** Results of numpy arithmetic that may leave the finite numbers. *)
Inductive npfloat : Type :=
| Fin (q : Q)
| PInf
| NInf
| NaN.

(** An integer count divided by a (finite) float. *)
Definition np_div (c : Z) (d : Q) : npfloat :=
  if Qeq_bool d 0 then
    (if (0 <? c)%Z then PInf else if (c <? 0)%Z then NInf else NaN)
  else Fin (inject_Z c / d)%Q.

Definition np_add (a b : npfloat) : npfloat :=
  match a, b with
  | NaN, _ | _, NaN => NaN
  | PInf, NInf | NInf, PInf => NaN
  | PInf, _ | _, PInf => PInf
  | NInf, _ | _, NInf => NInf
  | Fin x, Fin y => Fin (x + y)%Q
  end.

Definition np_sum (a : list npfloat) : npfloat := fold_left np_add a (Fin 0).

(** [a > b] on floats: false as soon as one side is NaN. *)
Definition np_gt (a b : npfloat) : bool :=
  match a, b with
  | NaN, _ | _, NaN => false
  | PInf, PInf => false
  | PInf, _ => true
  | _, PInf => false
  | NInf, _ => false
  | Fin _, NInf => true
  | Fin x, Fin y => Qlt_bool y x
  end.

(** [max(a, b)] of the builtins on floats. *)
Definition py_max_float (a b : npfloat) : npfloat := if np_gt b a then b else a.

(** Extended reals, for the values of [np.log2]. *)
Inductive xreal : Type :=
| XR (r : R)
| XPInf
| XNInf
| XNaN.

Definition np_log2 (x : npfloat) : xreal :=
  match x with
  | Fin q =>
      if Qlt_le_dec 0 q then XR (ln (Q2R q) / ln 2)%R
      else if Qeq_bool q 0 then XNInf
      else XNaN
  | PInf => XPInf
  | NInf => XNaN
  | NaN => XNaN
  end.

(** [x >= r] for a float [x] and a real bound: false on NaN. *)
Definition xreal_ge (x : xreal) (r : R) : Prop :=
  match x with
  | XR v => (r <= v)%R
  | XPInf => True
  | XNInf => False
  | XNaN => False
  end.

(** A row of the densities table: the region, the length of its
    sequence and the serialized vector of observed counts. *)
Record DensityRow : Type := {
  region : string;
  seq_len : Z;
  obs_counts : string
}.

(** The table, with the two columns the density step attaches. *)
Record DensityTable : Type := {
  density_rows : list DensityRow;
  log2_weighted_density : option (list xreal);
  max_kmer_fc : option (list Q)
}.

Definition parse_counts (counts : string) : result (list Z) :=
  mapM py_int_of_string (py_split "," counts).

Definition min_density_val_default : Q := 1 # 256.
Definition min_seq_len_default : Z := 15.

(** [self.kmer_lens]: all kmer lengths to load. *)
Definition kmer_lens : list Z := [4; 5; 6; 7; 8; 9].

Section Densities.

Variable fc_rank : list Q.
Variable kmer_len : Z.
Variable min_density_val : Q.
Variable min_seq_len : Z.

(** The body of the loop over the rows: the weighted density and the
    maximum fold change of one region. *)
Definition density_of_row (row : DensityRow) : result (npfloat * Q) :=
  obs_counts ← parse_counts (obs_counts row);
  let counts_met_inds := np_where (fun fc => Qle_bool FC_FILTER fc) fc_rank in
  let counts_not_met_inds := np_where (fun fc => Qlt_bool fc FC_FILTER) fc_rank in
  obs_counts ← np_setitem obs_counts counts_not_met_inds 0;
  let len_denom := ((inject_Z (seq_len row) - inject_Z kmer_len + 1) / 1000)%Q in
  let norm_density := map (fun c => np_div c len_denom) obs_counts in
  let weighted_density := np_sum norm_density in
  let weighted_density := py_max_float weighted_density (Fin min_density_val) in
  let nonzero_kmer_inds := np_where (fun c => (1 <=? c)%Z) obs_counts in
  max_kmer_fc ←
    (if Nat.eqb (length nonzero_kmer_inds) 0 then Ok min_density_val
     else present ← np_take fc_rank nonzero_kmer_inds; py_max_seq present);
  if (seq_len row <? min_seq_len)%Z then Ok (Fin min_density_val, min_density_val)
  else Ok (weighted_density, max_kmer_fc).

(** The loop, with the two lists it appends to. *)
Fixpoint density_loop (rows : list DensityRow)
    (weighted_densities : list npfloat) (max_kmer_fcs : list Q)
    : result (list npfloat * list Q) :=
  match rows with
  | [] => Ok (weighted_densities, max_kmer_fcs)
  | row :: rest =>
      '(weighted_density, max_kmer_fc) ← density_of_row row;
      density_loop rest (weighted_densities ++ [weighted_density])%list
                        (max_kmer_fcs ++ [max_kmer_fc])%list
  end.

(** [add_rank_weighted_densities]: the table is updated in place, after
    the loop; when the loop raises the table is as it was. *)
Definition add_rank_weighted_densities (subseq_densities : DensityTable)
    : result unit * DensityTable :=
  match density_loop (density_rows subseq_densities) [] [] with
  | Ok (weighted_densities, max_kmer_fcs) =>
      (Ok tt,
       {| density_rows := density_rows subseq_densities;
          log2_weighted_density := Some (map np_log2 weighted_densities);
          max_kmer_fc := Some max_kmer_fcs |})
  | Raise e => (Raise e, subseq_densities)
  end.

End Densities.

(** ** The FASTA file of the enriched kmers *)

(** The kmer lengths that [run_meme_on_enriched_kmers] goes through. *)
Definition meme_kmer_lens : list Z := [4; 5; 6].

(** A kmer as a FASTA record: the header line and the sequence line. *)
Definition fasta_record (kmer_seq : string) : list string :=
  [">" ++ kmer_seq ++ newline; kmer_seq ++ newline].

Section Fasta.

Variable df_sort : DataFrameSort.
Variable odds_ratios : gmap Z ORTable.
Variable fold_enriched_cutoff : Q.

(** [len_to_output]; [None] stands for "all", which is also what the
    code replaces [None] by. *)
Variable len_to_output : option Z.

(** The lines written for one kmer length.  The ranking is called
    without a method and so uses "max", whatever the [method] argument
    of [run_meme_on_enriched_kmers] is. *)
Definition fasta_for_length (kmer_len : Z) : result (list string) :=
  match odds_ratios !! kmer_len with
  | None => Raise KeyError
  | Some table =>
      ranked_ratios ← rank_enriched_kmers df_sort table "max";
      let enriched_ratios := rows_meeting fold_enriched_cutoff ranked_ratios in
      Ok (flat_map (fun r => fasta_record (kmer (r_row r))) enriched_ratios)
  end.

(** The loop of [run_meme_on_enriched_kmers] over the kmer lengths, with
    the lines written to [seqs_out] so far. *)
Fixpoint fasta_loop (lens : list Z) (seqs_out : list string)
    : result unit * list string :=
  match lens with
  | [] => (Ok tt, seqs_out)
  | kmer_len :: rest =>
      let skip :=
        match len_to_output with
        | None => false
        | Some n => negb (Z.eqb n kmer_len)
        end in
      if skip then fasta_loop rest seqs_out
      else
        match fasta_for_length kmer_len with
        | Ok lines => fasta_loop rest (seqs_out ++ lines)%list
        | Raise e => (Raise e, seqs_out)
        end
  end.

Definition write_enriched_kmers_fasta : result unit * list string :=
  fasta_loop meme_kmer_lens [].

End Fasta.

(** ** The fold changes handed to the BED output *)

(** [dict(enriched_kmers[["kmer", "rank"]].values)] and
    [list(enriched_kmers["kmer"])], as [output_enriched_kmers_scores]
    and the BED output take them from the table of enriched kmers. *)
Definition kmer_rank_pairs (enriched_kmers : list RankedRow) : list (string * Q) :=
  map (fun r => (kmer (r_row r), rank r)) enriched_kmers.

Definition enriched_kmer_to_fc_of (enriched_kmers : list RankedRow) : gmap string Q :=
  py_dict (kmer_rank_pairs enriched_kmers).

Definition kmer_column (enriched_kmers : list RankedRow) : list string :=
  map (fun r => kmer (r_row r)) enriched_kmers.

(** The call of the BED output at the end of the loop body of
    [output_enriched_kmers_scores]. *)
Definition output_bed_of_enriched
    (count_subseqs_with_starts : string -> list string -> list (string * list Z))
    (enriched_kmers : list RankedRow) (seqs : list (string * string))
    (bed_output_fname curr_track_desc : string)
    (fs : gmap string (list string)) : result unit * gmap string (list string) :=
  output_enriched_kmers_as_bed count_subseqs_with_starts
    (enriched_kmer_to_fc_of enriched_kmers) seqs (kmer_column enriched_kmers)
    bed_output_fname curr_track_desc "mm9" fs.

(** * Reference definitions

    The quantities the properties below compare the code with, written
    from their description rather than from the code. *)

(** The BED score and the colour of a fold change: the linear map from
    [1, 4] to [1, 1000], resp. [1, 255], truncated and clamped,
    min(int(((fc - 1) * 999 / 3) + 1), 1000) in the arithmetic [fl]. *)
Definition bed_score (fl : Q -> Q) (fc : Q) : Z :=
  Z.min (py_int (fl (fl (fl (fl (fc - 1) * 999) / 3) + 1))%Q) 1000.
Definition bed_color (fl : Q -> Q) (fc : Q) : Z :=
  Z.min (py_int (fl (fl (fl (fl (fc - 1) * 254) / 3) + 1))%Q) 255.

(** A fold change, given as a float, on which the rounding of the
    operations decides the score. *)
Definition fc_near_434 : Q := 323738486727271 # 140737488355328.

(** The interval of an occurrence at a 0-based [offset] of a kmer of
    length [k] in a minus-strand region that ends at [region_end]. *)
Definition minus_strand_interval (region_end k offset : Z) : Z * Z :=
  let start_1based := offset + 1 in
  let end_in_seq := region_end - start_1based + 1 in
  let start_in_seq := end_in_seq - k in
  (start_in_seq, end_in_seq).

Definition minus_strand_entry (seq_chrom : string) (region_end : Z)
    (kmer_seq : string) (kmer_score : Z) (offset : Z) : BedEntry :=
  let '(start_in_seq, end_in_seq) :=
    minus_strand_interval region_end (Z.of_nat (String.length kmer_seq)) offset in
  {| chrom := seq_chrom;
     chromStart := start_in_seq;
     chromEnd := end_in_seq;
     name := kmer_seq;
     score := kmer_score;
     strand := "-";
     thickStart := start_in_seq;
     thickEnd := end_in_seq |}.

(** A scanner that reports one occurrence of ACGT at offset 5, and a
    table that gives it a fold change of 3. *)
Definition example_scanner (bases : string) (kmers : list string)
    : list (string * list Z) :=
  [("ACGT", [5]); ("TTTT", [])].

Definition example_fc : gmap string Q := py_dict [("ACGT", 3%Q); ("TTTT", (5 # 2)%Q)].

Definition example_seq : string * string :=
  (">chrom1:100-200:-;ENST1;ENSG1", "GGGGGACGTGGGG").

(** The number of values strictly greater than [v]. *)
Definition count_greater (v : Q) (vals : list Q) : nat :=
  length (List.filter (fun w => Qlt_bool v w) vals).

Definition Qge_rel (a b : Q) : Prop := (b <= a)%Q.

Definition rank_desc (a b : ScoredRow) : Prop := (s_rank b <= s_rank a)%Q.

(** What a sort of the rows does when it is called as the code calls
    it, by the rank column and descending, whatever its algorithm: it
    rearranges the rows, and no row is followed by a row of greater
    rank. *)
Definition sorts_descending (sort : DataFrameSort) : Prop :=
  forall l,
    Permutation l (sort s_rank false l)
    /\ StronglySorted rank_desc (sort s_rank false l).

(** A table with two concentration columns whose row maxima are 5, 5, 3. *)
Definition example_table : ORTable :=
  {| columns := ["5nM"; "total"; "20nM"];
     rows := [ {| kmer := "AAAA"; values := [5; 100; 2]%Q |};
               {| kmer := "CCCC"; values := [1; 100; 5]%Q |};
               {| kmer := "GGGG"; values := [3; 100; 3]%Q |} ] |}.

(** [x] occurs at an earlier position than [y]. *)
Definition before {A} (x y : A) (l : list A) : Prop :=
  exists i j, (i < j)%nat /\ l !! i = Some x /\ l !! j = Some y.

(** The ranked rows keep the order of the table among rows of equal rank. *)
Definition keeps_load_order (or_df : ORTable) (ranked : list RankedRow) : Prop :=
  forall r1 r2,
    In r1 ranked -> In r2 ranked ->
    before (r_row r1) (r_row r2) (rows or_df) ->
    (rank r1 == rank r2)%Q ->
    before r1 r2 ranked.

Definition ranked_desc (a b : RankedRow) : Prop := (rank b <= rank a)%Q.

(** The table AAAA: 10, CCCC: 4, GGGG: 1 after ranking. *)
Definition example_ranked : list RankedRow :=
  [ {| r_row := {| kmer := "AAAA"; values := [10]%Q |}; rank := 10; ordinal_rank := 1 |};
    {| r_row := {| kmer := "CCCC"; values := [4]%Q |}; rank := 4; ordinal_rank := 2 |};
    {| r_row := {| kmer := "GGGG"; values := [1]%Q |}; rank := 1; ordinal_rank := 3 |} ].

(** The count vector after suppression: the count of a kmer whose score
    is below the fold-change filter is zero, the others are as observed. *)
Fixpoint suppress (fc_rank : list Q) (counts : list Z) : list Z :=
  match counts with
  | [] => []
  | c :: cs =>
      match fc_rank with
      | [] => c :: cs
      | fc :: fcs => (if Qlt_bool fc FC_FILTER then 0 else c) :: suppress fcs cs
      end
  end.

(** The scores of the kmers that occur in a region, among the kmers
    that [keep] admits. *)
Definition occurring_scores (keep : Q -> bool) (fc_rank : list Q) (counts : list Z) : list Q :=
  map fst (List.filter (fun fcc => keep (fst fcc) && (1 <=? snd fcc)%Z)
                       (combine fc_rank counts)).

(** [m] is the greatest of the scores, or the floor when there is none. *)
Definition max_or_floor (scores : list Q) (floor m : Q) : Prop :=
  match scores with
  | [] => m = floor
  | _ => In m scores /\ Forall (fun x => (x <= m)%Q) scores
  end.

Definition Zsum (l : list Z) : Z := fold_right Z.add 0 l.

(** The effective length of a region in kb. *)
Definition effective_length_kb (seq_len kmer_len : Z) : Q :=
  (inject_Z (seq_len - kmer_len + 1) / 1000)%Q.

(** An index at which the count vector and the scores do not line up
    and which the density step touches: a kmer below the filter without
    a count, or an occurring count without a kmer. *)
Definition touches_missing_index (fc_rank : list Q) (counts : list Z) : Prop :=
  (exists i fc, fc_rank !! i = Some fc /\ (fc < FC_FILTER)%Q /\ (length counts <= i)%nat)
  \/ (exists j c, counts !! j = Some c /\ (1 <= c)%Z /\ (length fc_rank <= j)%nat).

(** The statement that the maximum fold change is taken over the kmers with
    a raw occurrence, and the one that it is taken over the kmers that
    still occur once the counts below the filter are zeroed. *)
Definition max_fc_over (keep : Q -> bool) : Prop :=
  forall (fc_rank : list Q) (kmer_len : Z) (row : DensityRow) (counts : list Z),
    parse_counts (obs_counts row) = Ok counts ->
    length counts = length fc_rank ->
    (min_seq_len_default <= seq_len row)%Z ->
    exists wd m,
      density_of_row fc_rank kmer_len min_density_val_default min_seq_len_default row
        = Ok (wd, m)
      /\ max_or_floor (occurring_scores keep fc_rank counts) min_density_val_default m.

Definition keep_all (fc : Q) : bool := true.
Definition keep_filtered (fc : Q) : bool := Qle_bool FC_FILTER fc.

(** The statement that the step fails exactly on a length mismatch. *)
Definition fails_iff_length_mismatch : Prop :=
  forall (fc_rank : list Q) (kmer_len : Z) (row : DensityRow) (counts : list Z),
    parse_counts (obs_counts row) = Ok counts ->
    (is_ok (density_of_row fc_rank kmer_len min_density_val_default
              min_seq_len_default row) = false
     <-> length counts <> length fc_rank).

(** Regions for the examples: three enriched kmers with scores 3, 2.5
    and 1.5 seen 3, 0 and 2 times in 100 bases; a single kmer with
    score 1.5 seen 3 times; a count vector with one count more than there are
    kmers; and a region of 10 bases. *)
Definition example_fc_rank : list Q := [3; 5 # 2; 3 # 2]%Q.

Definition example_counts : list Z := [3; 0; 2].

Definition example_row : DensityRow :=
  {| region := "chr1:100-200:-;ENST1;ENSG1"; seq_len := 100; obs_counts := "3,0,2" |}.

Definition weak_only_row : DensityRow :=
  {| region := "chr1:100-200:-;ENST1;ENSG1"; seq_len := 100; obs_counts := "3" |}.

Definition longer_counts_row : DensityRow :=
  {| region := "chr1:100-200:-;ENST1;ENSG1"; seq_len := 100; obs_counts := "1,0" |}.

Definition unmatched_count_row : DensityRow :=
  {| region := "chr1:100-200:-;ENST1;ENSG1"; seq_len := 100; obs_counts := "1,2" |}.

(** A region of 15 bases, one base too short for a kmer of length 16. *)
Definition no_start_row : DensityRow :=
  {| region := "chr3:10-25:-;ENST3;ENSG3"; seq_len := 15; obs_counts := "0,0" |}.

Definition short_row : DensityRow :=
  {| region := "chr2:50-60:-;ENST2;ENSG2"; seq_len := 10; obs_counts := "0,4,0" |}.

Definition example_densities : DensityTable :=
  {| density_rows := [example_row; short_row];
     log2_weighted_density := None;
     max_kmer_fc := None |}.

(** Entries satisfying [P] stay so through a computation that only
    writes entries satisfying [P], whatever its outcome. *)
Definition writes_only (P : BedEntry -> Prop) {A} (m : bedM A) : Prop :=
  forall buf, Forall P buf -> Forall P (snd (m buf)).

(** The score of an entry is the rescaled fold change of its kmer. *)
Definition scored_by_fc (fc_map : gmap string Q) (e : BedEntry) : Prop :=
  exists fc, fc_map !! name e = Some fc /\ score e = bed_score binary64 fc.

(** A computation that leaves the written entries as they are. *)
Definition writes_nothing {A} (m : bedM A) : Prop :=
  forall buf, snd (m buf) = buf.

(** The shape of an entry of a minus-strand occurrence: the thick
    interval is the interval, and the interval is as long as the kmer. *)
Definition minus_strand_shaped (e : BedEntry) : Prop :=
  strand e = "-"
  /\ thickStart e = chromStart e
  /\ thickEnd e = chromEnd e
  /\ chromEnd e - chromStart e = Z.of_nat (String.length (name e)).

(** [c in s] for a character. *)
Fixpoint has_char (c : ascii) (s : string) : bool :=
  match s with
  | EmptyString => false
  | String c' s' => Ascii.eqb c c' || has_char c s'
  end.

(** [sep.join(parts)] *)
Fixpoint py_join (sep : string) (parts : list string) : string :=
  match parts with
  | [] => EmptyString
  | [x] => x
  | x :: rest => x ++ sep ++ py_join sep rest
  end.

(** The number that decimal digits denote, read from the left after the
    digits counted in [acc]. *)
Fixpoint uint_value (acc : Z) (d : Decimal.uint) : Z :=
  match d with
  | Decimal.Nil => acc
  | Decimal.D0 l => uint_value (10 * acc + 0) l
  | Decimal.D1 l => uint_value (10 * acc + 1) l
  | Decimal.D2 l => uint_value (10 * acc + 2) l
  | Decimal.D3 l => uint_value (10 * acc + 3) l
  | Decimal.D4 l => uint_value (10 * acc + 4) l
  | Decimal.D5 l => uint_value (10 * acc + 5) l
  | Decimal.D6 l => uint_value (10 * acc + 6) l
  | Decimal.D7 l => uint_value (10 * acc + 7) l
  | Decimal.D8 l => uint_value (10 * acc + 8) l
  | Decimal.D9 l => uint_value (10 * acc + 9) l
  end.

(** A kmer of a loaded table of one of the lengths 4, 5, 6 with a
    concentration value that reaches the cutoff. *)
Definition reaches_cutoff (odds_ratios : gmap Z ORTable) (cutoff : Q)
    (kmer_seq : string) : Prop :=
  exists kmer_len table row v,
    In kmer_len meme_kmer_lens
    /\ odds_ratios !! kmer_len = Some table
    /\ In row (rows table)
    /\ kmer row = kmer_seq
    /\ In v (select_cols table (get_conc_cols table "nM") row)
    /\ (cutoff <= v)%Q.

(** Odds-ratio tables loaded for the kmer lengths 4, 5 and 6, and for
    the length 4 alone. *)
Definition example_odds_ratios : gmap Z ORTable :=
  <[6%Z := example_table]> (<[5%Z := example_table]> (<[4%Z := example_table]> ∅)).

Definition example_odds_ratios_4 : gmap Z ORTable :=
  <[4%Z := example_table]> ∅.

(** The fields of a FASTA header as the BED output reads them: the part
    before the first semicolon, cut at the colons. *)
Definition header_fields (header : string) : list string :=
  py_split ":" (hd EmptyString (py_split ";" (drop_first header))).

(** A header that does not have the three fields chromosome, coordinates
    and strand, or whose coordinates are not two fields around one dash. *)
Definition malformed_header (header : string) : Prop :=
  length (header_fields header) <> 3%nat
  \/ exists c coords s,
       header_fields header = [c; coords; s]
       /\ length (py_split "-" coords) <> 2%nat.

(** A scanner that reports occurrences of the queried kmers only. *)
Definition reports_queried
    (scanner : string -> list string -> list (string * list Z)) : Prop :=
  forall bases kmers k starts, In (k, starts) (scanner bases kmers) -> In k kmers.

(** A scanner that reports every queried kmer at offset 0. *)
Definition scanner_at_zero (bases : string) (kmers : list string)
    : list (string * list Z) :=
  map (fun k => (k, [0%Z])) kmers.

Definition headless_seq : string * string := (">chrom1:100-200", "GGGGGACGTGGGG").

(** The claim that a higher percentile never selects a row that a lower
    one leaves out, for the selection computed in the arithmetic [fl]. *)
Definition selection_monotone (fl : Q -> Q) : Prop :=
  forall (ranked : list RankedRow) (p1 p2 : Q) (selected1 selected2 : list RankedRow),
    (0 <= p1)%Q -> (p1 <= p2)%Q -> (p2 <= 100)%Q ->
    select_enriched fl ranked p1 = Ok selected1 ->
    select_enriched fl ranked p2 = Ok selected2 ->
    (forall r, In r selected2 -> In r selected1)
    /\ (length selected2 <= length selected1)%nat.

(** The float 4.3, and a ranked table with two rows tied at it. *)
Definition float_4_3 : Q := binary64 (43 # 10).

Definition tied_ranked : list RankedRow :=
  [ {| r_row := {| kmer := "AAAA"; values := [float_4_3] |};
       rank := float_4_3; ordinal_rank := 1 |};
    {| r_row := {| kmer := "CCCC"; values := [float_4_3] |};
       rank := float_4_3; ordinal_rank := 1 |};
    {| r_row := {| kmer := "GGGG"; values := [1%Q] |}; rank := 1; ordinal_rank := 3 |} ].

(** The claim that every region gets a log2 weighted density of at
    least -8, whatever the kmer length. *)
Definition log2_density_floor_everywhere : Prop :=
  forall (fc_rank : list Q) (kmer_len : Z) (t t' : DensityTable),
    add_rank_weighted_densities fc_rank kmer_len min_density_val_default
      min_seq_len_default t = (Ok tt, t') ->
    exists column,
      log2_weighted_density t' = Some column
      /\ length column = length (density_rows t)
      /\ Forall (fun x => xreal_ge x (-8)) column.

Definition no_start_table : DensityTable :=
  {| density_rows := [no_start_row];
     log2_weighted_density := None;
     max_kmer_fc := None |}.

(** * Properties *)

(** ** Truncation and clamping *)

Lemma Qlt_bool_true (a b : Q) : Qlt_bool a b = true <-> (a < b)%Q.
Proof.
  unfold Qlt_bool. rewrite negb_true_iff. split.
  - intros H. apply Qnot_le_lt. intros Hle.
    apply Qle_bool_iff in Hle. congruence.
  - intros H. destruct (Qle_bool b a) eqn:E; [|reflexivity].
    apply Qle_bool_iff in E. exfalso. exact (Qlt_not_le _ _ H E).
Qed.

Lemma Qlt_bool_false (a b : Q) : Qlt_bool a b = false <-> (b <= a)%Q.
Proof.
  unfold Qlt_bool. rewrite negb_false_iff. apply Qle_bool_iff.
Qed.

Lemma py_int_inject (n : Z) : py_int (inject_Z n) = n.
Proof. unfold py_int. simpl. apply Z.quot_1_r. Qed.

Lemma py_int_ge (x : Q) (n : Z) : (0 <= n)%Z -> (inject_Z n <= x)%Q -> (n <= py_int x)%Z.
Proof.
  intros Hn H. unfold py_int. unfold Qle in H. simpl in H.
  rewrite Z.mul_1_r in H.
  apply Z.quot_le_lower_bound; lia.
Qed.

Lemma py_int_le (x : Q) (n : Z) : (0 <= n)%Z -> (x <= inject_Z n)%Q -> (py_int x <= n)%Z.
Proof.
  intros Hn H. unfold py_int. unfold Qle in H. simpl in H.
  rewrite Z.mul_1_r in H.
  destruct (Z.le_gt_cases 0 (Qnum x)) as [Hpos|Hneg].
  - apply Z.quot_le_upper_bound; lia.
  - transitivity 0%Z; [|exact Hn].
    rewrite <- (Z.opp_involutive (Qnum x)), Z.quot_opp_l by lia.
    assert (0 <= - Qnum x ÷ Z.pos (Qden x))%Z by (apply Z.quot_pos; lia).
    lia.
Qed.

(** Clamping before or after the truncation gives the same integer. *)
Lemma py_int_py_min (x : Q) (n : Z) :
  (0 <= n)%Z -> py_int (py_min x (inject_Z n)) = Z.min (py_int x) n.
Proof.
  intros Hn. unfold py_min.
  destruct (Qlt_bool (inject_Z n) x) eqn:E.
  - apply Qlt_bool_true in E. rewrite py_int_inject.
    pose proof (py_int_ge x n Hn (Qlt_le_weak _ _ E)). lia.
  - apply Qlt_bool_false in E.
    pose proof (py_int_le x n Hn E). lia.
Qed.

Lemma unrounded_id (x : Q) : unrounded x = x.
Proof. reflexivity. Qed.

Lemma kmer_score_of_unrounded (fc : Q) :
  kmer_score_of unrounded fc = Ok (Z.min (py_int ((fc - 1) * 999 / 3 + 1)%Q) 1000).
Proof.
  unfold kmer_score_of, rescale_score, fc_ceiling, unrounded. cbn [Qeq_bool]. simpl mbind.
  unfold mbind, result_bind. f_equal.
  exact (py_int_py_min _ 1000 ltac:(lia)).
Qed.

Lemma kmer_color_of_unrounded (fc : Q) :
  kmer_color_of unrounded fc = Ok (Z.min (py_int ((fc - 1) * 254 / 3 + 1)%Q) 255).
Proof.
  unfold kmer_color_of, rescale_score, fc_ceiling, unrounded. simpl mbind.
  unfold mbind, result_bind. f_equal.
  exact (py_int_py_min _ 255 ltac:(lia)).
Qed.

(** The ends of the scales and their differences are doubles. *)
Lemma binary64_scale_ends :
  binary64 (fc_ceiling - 1) = 3%Q /\ binary64 (1000 - 1) = 999%Q
  /\ binary64 (255 - 1) = 254%Q.
Proof. repeat split; vm_compute; reflexivity. Qed.

Lemma kmer_score_of_eq (fc : Q) :
  kmer_score_of binary64 fc = Ok (bed_score binary64 fc).
Proof.
  destruct binary64_scale_ends as (H3 & H999 & _).
  unfold kmer_score_of, rescale_score, bed_score. rewrite H3, H999.
  change (Qeq_bool 3 0) with false. cbv iota.
  unfold mbind, result_bind. f_equal.
  exact (py_int_py_min _ 1000 ltac:(lia)).
Qed.

Lemma kmer_color_of_eq (fc : Q) :
  kmer_color_of binary64 fc = Ok (bed_color binary64 fc).
Proof.
  destruct binary64_scale_ends as (H3 & _ & H254).
  unfold kmer_color_of, rescale_score, bed_color. rewrite H3, H254.
  change (Qeq_bool 3 0) with false. cbv iota.
  unfold mbind, result_bind. f_equal.
  exact (py_int_py_min _ 255 ltac:(lia)).
Qed.

(** ** Reasoning about computations that write entries *)

Lemma for_each_emits {X} (f : X -> list BedEntry) (body : X -> bedM unit) (xs : list X) :
  (forall x buf, In x xs -> body x buf = (Ok tt, (buf ++ f x)%list)) ->
  forall buf, for_each xs body buf = (Ok tt, (buf ++ flat_map f xs)%list).
Proof.
  induction xs as [|x xs IH]; intros Hbody buf; simpl.
  - unfold mret, bedM_ret. now rewrite app_nil_r.
  - unfold mbind, bedM_bind. rewrite Hbody by now left.
    rewrite IH by (intros; apply Hbody; now right).
    now rewrite app_assoc.
Qed.

Lemma writes_only_lift P {A} (r : result A) : writes_only P (lift r).
Proof. intros buf H. exact H. Qed.

Lemma writes_only_ret P {A} (a : A) : writes_only P (mret a).
Proof. intros buf H. exact H. Qed.

Lemma writes_only_bind P {A B} (m : bedM A) (f : A -> bedM B) :
  writes_only P m -> (forall a, writes_only P (f a)) -> writes_only P (m ≫= f).
Proof.
  intros Hm Hf buf H. unfold mbind, bedM_bind.
  specialize (Hm buf H). destruct (m buf) as [[a|e] buf']; simpl in *.
  - now apply Hf.
  - exact Hm.
Qed.

Lemma writes_only_write P (e : BedEntry) : P e -> writes_only P (bed_write e).
Proof.
  intros He buf H. unfold bed_write. simpl.
  apply Forall_app. split; [exact H|]. now constructor.
Qed.

Lemma writes_only_for_each P {X} (xs : list X) (body : X -> bedM unit) :
  (forall x, writes_only P (body x)) -> writes_only P (for_each xs body).
Proof.
  intros Hbody. induction xs as [|x xs IH]; simpl.
  - apply writes_only_ret.
  - apply writes_only_bind; [apply Hbody|]. intros _. exact IH.
Qed.

Section BedFacts.

Variable count_subseqs_with_starts : string -> list string -> list (string * list Z).
Variable enriched_kmer_to_fc : gmap string Q.

Lemma bed_occurrence_scored seq_chrom seq_end seq_strand kmer_seq kmer_start :
  writes_only (scored_by_fc enriched_kmer_to_fc)
    (bed_occurrence enriched_kmer_to_fc seq_chrom seq_end seq_strand kmer_seq kmer_start).
Proof.
  unfold bed_occurrence, dict_get. intros buf H.
  destruct (enriched_kmer_to_fc !! kmer_seq) as [fc|] eqn:Hfc;
    unfold mbind at 1, bedM_bind at 1, lift at 1; [|exact H].
  rewrite kmer_score_of_eq, kmer_color_of_eq.
  unfold mbind, bedM_bind, lift.
  destruct (String.eqb seq_strand "-"); [|exact H].
  destruct (py_int_of_string seq_end) as [n|]; [|exact H].
  apply writes_only_write; [|exact H].
  exists fc. simpl. split; [exact Hfc|reflexivity].
Qed.

Lemma bed_sequence_scored kmers curr_seq :
  writes_only (scored_by_fc enriched_kmer_to_fc)
    (bed_sequence count_subseqs_with_starts enriched_kmer_to_fc kmers curr_seq).
Proof.
  unfold bed_sequence.
  apply writes_only_bind; [apply writes_only_lift|]. intros [[c co] st].
  apply writes_only_bind; [apply writes_only_lift|]. intros [s e].
  apply writes_only_for_each. intros [k starts]. unfold bed_kmer.
  destruct (Nat.eqb (length starts) 0); [apply writes_only_ret|].
  apply writes_only_for_each. intros off. apply bed_occurrence_scored.
Qed.

End BedFacts.

(** ** Coordinates and scores of the BED entries *)

Lemma flat_map_single {X Y} (g : X -> Y) (l : list X) :
  flat_map (fun x => [g x]) l = map g l.
Proof. induction l as [|x l IH]; simpl; [reflexivity|now rewrite IH]. Qed.

Lemma bed_occurrence_minus fc_map seq_chrom seq_end kmer_seq kmer_start region_end fc buf :
  py_int_of_string seq_end = Ok region_end ->
  fc_map !! kmer_seq = Some fc ->
  bed_occurrence fc_map seq_chrom seq_end "-" kmer_seq kmer_start buf =
    (Ok tt, (buf ++ [minus_strand_entry seq_chrom region_end kmer_seq (bed_score binary64 fc)
                       kmer_start])%list).
Proof.
  intros Hend Hfc. unfold bed_occurrence, dict_get. rewrite Hfc.
  unfold mbind at 1, bedM_bind at 1, lift at 1.
  rewrite kmer_score_of_eq, kmer_color_of_eq.
  unfold mbind, bedM_bind, lift. simpl String.eqb. cbv iota.
  rewrite Hend. reflexivity.
Qed.

(** C7: in a minus-strand region that ends at [region_end], every
    occurrence of a kmer of length k at a 0-based offset is written as
    the interval with end = region_end - (offset + 1) + 1 and
    start = end - k, thickStart = start and thickEnd = end, one entry per
    occurrence; for the region chrom1:100-200:- with k = 4 and offset 5
    the entry is chrom1 191 195 with thickStart 191 and thickEnd 195. *)
Theorem minus_strand_projection :
  (forall (scanner : string -> list string -> list (string * list Z))
          (fc_map : gmap string Q) (kmers : list string)
          (header bases seq_chrom seq_coords seq_start seq_end : string)
          (region_end : Z) (buf : list BedEntry),
      unpack3 (py_split ":" (hd EmptyString (py_split ";" (drop_first header))))
        = Ok (seq_chrom, seq_coords, "-") ->
      unpack2 (py_split "-" seq_coords) = Ok (seq_start, seq_end) ->
      py_int_of_string seq_end = Ok region_end ->
      (forall kmer_seq starts, In (kmer_seq, starts) (scanner bases kmers) ->
                               starts <> [] -> is_Some (fc_map !! kmer_seq)) ->
      bed_sequence scanner fc_map kmers (header, bases) buf =
        (Ok tt,
         (buf ++ flat_map
            (fun ks =>
               map (minus_strand_entry seq_chrom region_end (fst ks)
                      (bed_score binary64 (default 0%Q (fc_map !! fst ks))))
                   (snd ks))
            (scanner bases kmers))%list))
  /\ minus_strand_interval 200 4 5 = (191, 195)
  /\ bed_sequence example_scanner example_fc ["ACGT"; "TTTT"] example_seq [] =
       (Ok tt, [{| chrom := "chrom1"; chromStart := 191; chromEnd := 195;
                   name := "ACGT"; score := 667; strand := "-";
                   thickStart := 191; thickEnd := 195 |}])
  /\ bed_line (minus_strand_entry "chrom1" 200 "ACGT" 667 5) =
       "chrom1" ++ tab ++ "191" ++ tab ++ "195" ++ tab ++ "ACGT" ++ tab ++ "667"
       ++ tab ++ "-" ++ tab ++ "191" ++ tab ++ "195" ++ newline.
Proof.
  split; [|repeat split; reflexivity].
  intros scanner fc_map kmers header bases seq_chrom seq_coords seq_start seq_end
         region_end buf Hname Hcoords Hend Hfc.
  unfold bed_sequence. cbn [fst snd].
  unfold mbind at 1, bedM_bind at 1, lift at 1. rewrite Hname.
  unfold mbind at 1, bedM_bind at 1, lift at 1. rewrite Hcoords.
  apply for_each_emits. intros [kmer_seq starts] buf' Hin. cbn [fst snd].
  unfold bed_kmer. destruct starts as [|s0 starts'].
  - simpl. unfold mret, bedM_ret. now rewrite app_nil_r.
  - destruct (Hfc kmer_seq (s0 :: starts') Hin ltac:(discriminate)) as [fc Hk].
    cbn [length Nat.eqb]. rewrite Hk. cbn [default].
    rewrite <- flat_map_single. apply for_each_emits.
    intros off buf'' _. now apply bed_occurrence_minus.
Qed.

(** The theorem at the region chrom1:100-200:- of the example. *)
Lemma minus_strand_projection_witness :
  bed_sequence example_scanner example_fc ["ACGT"; "TTTT"] example_seq [] =
    (Ok tt,
     ([] ++ flat_map
        (fun ks =>
           map (minus_strand_entry "chrom1" 200 (fst ks)
                  (bed_score binary64 (default 0%Q (example_fc !! fst ks))))
               (snd ks))
        (example_scanner (snd example_seq) ["ACGT"; "TTTT"]))%list).
Proof.
  apply (proj1 minus_strand_projection example_scanner example_fc ["ACGT"; "TTTT"]
           (fst example_seq) (snd example_seq) "chrom1" "100-200" "100" "200" 200 []).
  - reflexivity.
  - reflexivity.
  - reflexivity.
  - intros kmer_seq starts Hin Hne. simpl in Hin.
    destruct Hin as [Hin|[Hin|[]]]; inversion Hin; subst.
    + exists 3%Q. reflexivity.
    + now contradiction Hne.
Defined.

(** C9: the score written for an entry is the fold change of its kmer
    rescaled from [1, 4] to [1, 1000], min(int(((fc - 1) * 999 / 3) + 1),
    1000), computed in the doubles of the code; the colour is the same
    rescaling to [1, 255] clamped at 255; a fold change of 4 gives the
    score 1000 and the colour 255. *)
Theorem bed_score_is_rescaled_fold_change :
  (forall fc : Q,
      kmer_score_of binary64 fc
      = Ok (Z.min (py_int (binary64 (binary64 (binary64 (binary64 (fc - 1) * 999) / 3) + 1))%Q)
                  1000)
      /\ kmer_color_of binary64 fc
         = Ok (Z.min (py_int (binary64 (binary64 (binary64 (binary64 (fc - 1) * 254) / 3)
                                         + 1))%Q)
                     255))
  /\ kmer_score_of binary64 fc_ceiling = Ok 1000
  /\ kmer_color_of binary64 fc_ceiling = Ok 255
  /\ (forall (scanner : string -> list string -> list (string * list Z))
             (fc_map : gmap string Q) (seqs : list (string * string))
             (kmers : list string),
         Forall (fun e =>
                   exists fc,
                     fc_map !! name e = Some fc
                     /\ score e
                        = Z.min (py_int (binary64 (binary64 (binary64 (binary64 (fc - 1) * 999)
                                                              / 3) + 1))%Q)
                                1000)
                (snd (for_each seqs (bed_sequence scanner fc_map kmers) []))).
Proof.
  split; [|split; [|split]].
  - intros fc. split; [apply kmer_score_of_eq|apply kmer_color_of_eq].
  - vm_compute. reflexivity.
  - vm_compute. reflexivity.
  - intros scanner fc_map seqs kmers.
    apply (writes_only_for_each (scored_by_fc fc_map)); [|constructor].
    intros curr_seq. apply bed_sequence_scored.
Qed.

(** The rounding of the doubles decides the score: at this fold change
    the score is 434, where the same formula on the real numbers gives
    433. *)
Lemma score_depends_on_rounding :
  kmer_score_of binary64 fc_near_434 = Ok 434
  /\ kmer_score_of unrounded fc_near_434 = Ok 433
  /\ binary64 fc_near_434 = fc_near_434.
Proof. repeat split; vm_compute; reflexivity. Qed.

(** ** Sorting values and ordinal ranks *)

Lemma insert_desc_perm (x : Q) (l : list Q) : Permutation (x :: l) (insert_desc x l).
Proof.
  induction l as [|y l IH]; simpl; [reflexivity|].
  destruct (Qle_bool x y); [|reflexivity].
  rewrite perm_swap. now apply perm_skip.
Qed.

Lemma sort_values_desc_perm (l : list Q) : Permutation l (sort_values_desc l).
Proof.
  induction l as [|x l IH]; simpl; [reflexivity|].
  rewrite <- insert_desc_perm. now apply perm_skip.
Qed.

Lemma insert_desc_sorted (x : Q) (l : list Q) :
  StronglySorted Qge_rel l -> StronglySorted Qge_rel (insert_desc x l).
Proof.
  induction 1 as [|y l Hs IH Hall]; simpl.
  - constructor; [constructor|constructor].
  - destruct (Qle_bool x y) eqn:E.
    + apply Qle_bool_iff in E. constructor; [exact IH|].
      rewrite <- insert_desc_perm. constructor; [exact E|exact Hall].
    + assert (Hyx : (y <= x)%Q).
      { apply Qlt_le_weak, Qnot_le_lt. intros Hle.
        apply Qle_bool_iff in Hle. congruence. }
      constructor; [now constructor|].
      constructor; [exact Hyx|].
      eapply List.Forall_impl; [|exact Hall].
      intros z Hz. unfold Qge_rel in *. now apply Qle_trans with y.
Qed.

Lemma sort_values_desc_sorted (l : list Q) : StronglySorted Qge_rel (sort_values_desc l).
Proof.
  induction l as [|x l IH]; simpl; [constructor|now apply insert_desc_sorted].
Qed.

Lemma count_greater_perm (v : Q) (l l' : list Q) :
  Permutation l l' -> count_greater v l = count_greater v l'.
Proof.
  intros H. unfold count_greater. induction H; simpl.
  - reflexivity.
  - destruct (Qlt_bool v x); simpl; congruence.
  - destruct (Qlt_bool v x), (Qlt_bool v y); reflexivity.
  - congruence.
Qed.

Lemma Qlt_bool_comp (a a' b b' : Q) :
  (a == a')%Q -> (b == b')%Q -> Qlt_bool a b = Qlt_bool a' b'.
Proof.
  intros Ha Hb. destruct (Qlt_bool a' b') eqn:E.
  - apply Qlt_bool_true. apply Qlt_bool_true in E. now rewrite Ha, Hb.
  - apply Qlt_bool_false. apply Qlt_bool_false in E. now rewrite Ha, Hb.
Qed.

Lemma count_greater_comp (v w : Q) (l : list Q) :
  (v == w)%Q -> count_greater v l = count_greater w l.
Proof.
  intros H. unfold count_greater. f_equal. apply filter_ext.
  intros x. apply Qlt_bool_comp; [exact H|reflexivity].
Qed.

Lemma count_greater_none (v : Q) (l : list Q) :
  Forall (fun w => (w <= v)%Q) l -> count_greater v l = O.
Proof.
  unfold count_greater. induction 1 as [|w l Hw _ IH]; simpl; [reflexivity|].
  apply Qlt_bool_false in Hw. now rewrite Hw.
Qed.

(** In a descending list, the position of the first value equal to [v]
    is the number of values greater than [v]. *)
Lemma first_index_sorted (v : Q) (l : list Q) :
  StronglySorted Qge_rel l ->
  Exists (fun w => (v == w)%Q) l ->
  first_index v l = count_greater v l.
Proof.
  induction 1 as [|y l Hs IH Hall]; intros Hex.
  - inversion Hex.
  - simpl. destruct (Qeq_bool v y) eqn:E.
    + apply Qeq_bool_iff in E. symmetry.
      apply (count_greater_none v (y :: l)). constructor.
      * rewrite E. apply Qle_refl.
      * eapply List.Forall_impl; [|exact Hall]. intros z Hz.
        unfold Qge_rel in Hz. now rewrite E.
    + assert (Hne : ~ (v == y)%Q).
      { intros Heq. apply Qeq_bool_iff in Heq. congruence. }
      inversion Hex as [? ? Hhd|? ? Htl]; subst; [contradiction|].
      assert (Hvy : (v <= y)%Q).
      { apply Exists_exists in Htl. destruct Htl as (w & Hin & Hw).
        rewrite Forall_forall in Hall. rewrite Hw. now apply Hall. }
      assert (Hlt : (v < y)%Q).
      { apply Qle_lt_or_eq in Hvy. destruct Hvy; [assumption|contradiction]. }
      apply Qlt_bool_true in Hlt.
      unfold count_greater. simpl. rewrite Hlt. simpl. f_equal.
      now apply IH.
Qed.

Lemma series_rank_min_counts (vals : list Q) :
  series_rank_min vals = map (fun v => 1 + Z.of_nat (count_greater v vals)) vals.
Proof.
  unfold series_rank_min. apply map_ext_in. intros v Hin.
  rewrite (count_greater_perm v vals _ (sort_values_desc_perm vals)).
  rewrite first_index_sorted.
  - lia.
  - apply sort_values_desc_sorted.
  - apply List.Exists_exists. exists v. split; [|reflexivity].
    eapply Permutation_in; [apply sort_values_desc_perm|exact Hin].
Qed.

(** ** Sorts of the rows *)

Lemma insert_row_perm by_col ascending x l :
  Permutation (x :: l) (insert_row by_col ascending x l).
Proof.
  induction l as [|y l IH]; simpl; [reflexivity|].
  destruct (if ascending then Qlt_bool (by_col y) (by_col x)
            else Qlt_bool (by_col x) (by_col y)); [|reflexivity].
  rewrite perm_swap. now apply perm_skip.
Qed.

Lemma insert_row_desc_sorted x l :
  StronglySorted rank_desc l -> StronglySorted rank_desc (insert_row s_rank false x l).
Proof.
  induction 1 as [|y l Hs IH Hall]; simpl.
  - repeat constructor.
  - destruct (Qlt_bool (s_rank x) (s_rank y)) eqn:E.
    + apply Qlt_bool_true in E. constructor; [exact IH|].
      rewrite <- insert_row_perm.
      constructor; [now apply Qlt_le_weak|exact Hall].
    + apply Qlt_bool_false in E.
      constructor; [now constructor|].
      constructor; [exact E|].
      eapply List.Forall_impl; [|exact Hall].
      intros z Hz. unfold rank_desc in *. now apply Qle_trans with (s_rank y).
Qed.

Lemma df_sort_stable_sorts : sorts_descending df_sort_stable.
Proof.
  intros l. unfold df_sort_stable. induction l as [|x l [IHp IHs]]; simpl.
  - split; [reflexivity|constructor].
  - split.
    + rewrite <- insert_row_perm. now apply perm_skip.
    + now apply insert_row_desc_sorted.
Qed.

(** ** The ranked table *)

Lemma zip_with_map_same {A B C} (f : A -> B -> C) (g : A -> B) (l : list A) :
  zip_with f l (map g l) = map (fun x => f x (g x)) l.
Proof. induction l as [|x l IH]; simpl; [reflexivity|now rewrite IH]. Qed.

Lemma mapM_scored_rows (score_of : ORRow -> option Q) (l : list ORRow) (scored : list ScoredRow) :
  mapM (fun r => match score_of r with
                 | Some v => Ok {| s_row := r; s_rank := v |}
                 | None => Raise NotANumber
                 end) l = Ok scored ->
  map s_row scored = l.
Proof.
  revert scored. induction l as [|r l IH]; intros scored H; simpl in H.
  - inversion H. reflexivity.
  - unfold mbind, result_bind in H. destruct (score_of r) as [v|]; [|discriminate].
    match type of H with context [mapM ?f l] => destruct (mapM f l) as [ys|] eqn:E end;
      [|discriminate].
    inversion H; subst. simpl. f_equal. now apply IH.
Qed.

(** The rows of a ranked table are the sorted rows, each with one plus
    the number of greater ranks as its ordinal rank. *)
Lemma rank_enriched_kmers_inv sort or_df method ranked :
  rank_enriched_kmers sort or_df method = Ok ranked ->
  exists scored,
    map s_row scored = rows or_df
    /\ ranked =
         map (fun s => with_ordinal s
                         (1 + Z.of_nat (count_greater (s_rank s)
                                          (map s_rank (sort s_rank false scored)))))
             (sort s_rank false scored).
Proof.
  unfold rank_enriched_kmers. intros H.
  assert (Hstat : exists stat : list Q -> option Q,
             mapM (fun r => match stat (select_cols or_df (get_conc_cols or_df "nM") r) with
                            | Some v => Ok {| s_row := r; s_rank := v |}
                            | None => Raise NotANumber
                            end) (rows or_df)
             ≫= (fun scored =>
                   Ok (zip_with with_ordinal (sort s_rank false scored)
                         (series_rank_min (map s_rank (sort s_rank false scored))))) = Ok ranked).
  { destruct (String.eqb method "max"); [now exists row_max|].
    destruct (String.eqb method "mean"); [now exists row_mean|].
    discriminate. }
  destruct Hstat as [stat Hstat]. unfold mbind, result_bind in Hstat.
  match type of Hstat with context [mapM ?f ?l] => destruct (mapM f l) as [scored|] eqn:E end;
    [|discriminate].
  exists scored. split.
  - exact (mapM_scored_rows (fun r => stat (select_cols or_df (get_conc_cols or_df "nM") r))
             _ _ E).
  - inversion Hstat. rewrite series_rank_min_counts, map_map.
    apply (zip_with_map_same with_ordinal
             (fun s => 1 + Z.of_nat (count_greater (s_rank s) (map s_rank (sort s_rank false scored))))).
Qed.

Lemma ranked_rank_column {G : ScoredRow -> Z} (l : list ScoredRow) :
  map rank (map (fun s => with_ordinal s (G s)) l) = map s_rank l.
Proof. rewrite map_map. reflexivity. Qed.

Lemma ranked_rows_column {G : ScoredRow -> Z} (l : list ScoredRow) :
  map r_row (map (fun s => with_ordinal s (G s)) l) = map s_row l.
Proof. rewrite map_map. reflexivity. Qed.

Lemma ranked_sorted {G : ScoredRow -> Z} (l : list ScoredRow) :
  StronglySorted rank_desc l ->
  StronglySorted ranked_desc (map (fun s => with_ordinal s (G s)) l).
Proof.
  induction 1 as [|y l Hs IH Hall]; simpl; constructor; [exact IH|].
  apply List.Forall_map. eapply List.Forall_impl; [|exact Hall].
  intros z Hz. exact Hz.
Qed.

(** With any sort, the ordinal rank of a ranked row is one plus the
    number of rows of strictly greater rank. *)
Lemma ordinal_rank_counts sort or_df method ranked r :
  rank_enriched_kmers sort or_df method = Ok ranked ->
  In r ranked ->
  ordinal_rank r = 1 + Z.of_nat (count_greater (rank r) (map rank ranked)).
Proof.
  intros H Hin. destruct (rank_enriched_kmers_inv _ _ _ _ H) as (scored & _ & ->).
  rewrite ranked_rank_column. apply in_map_iff in Hin.
  destruct Hin as (s & <- & _). reflexivity.
Qed.

Lemma zip_with_ordinal_columns (l : list ScoredRow) (k : list Z) :
  length l = length k ->
  map rank (zip_with with_ordinal l k) = map s_rank l
  /\ map ordinal_rank (zip_with with_ordinal l k) = k.
Proof.
  revert k. induction l as [|s l IH]; intros [|o k] Hlen; try discriminate.
  - split; reflexivity.
  - simpl in Hlen. destruct (IH k ltac:(lia)) as [H1 H2].
    simpl. now rewrite H1, H2.
Qed.

Lemma series_rank_min_length (vals : list Q) : length (series_rank_min vals) = length vals.
Proof. unfold series_rank_min. apply length_map. Qed.

(** The rows of the example table with their maxima over the two
    concentration columns, in any descending order, have the ranks
    5, 5, 3. *)
Lemma example_table_ranks (l : list ScoredRow) :
  Permutation
    [ {| s_row := {| kmer := "AAAA"; values := [5; 100; 2]%Q |}; s_rank := 5 |};
      {| s_row := {| kmer := "CCCC"; values := [1; 100; 5]%Q |}; s_rank := 5 |};
      {| s_row := {| kmer := "GGGG"; values := [3; 100; 3]%Q |}; s_rank := 3 |} ] l ->
  StronglySorted rank_desc l ->
  map s_rank l = [5; 5; 3]%Q.
Proof.
  intros Hp Hs.
  pose proof (Permutation_length Hp) as Hlen.
  destruct l as [|x [|y [|z [|]]]]; try discriminate Hlen.
  pose proof (Permutation_in _ Hp (or_introl eq_refl)) as Ha.
  pose proof (Permutation_in _ Hp (or_intror (or_introl eq_refl))) as Hc.
  pose proof (Permutation_in _ Hp (or_intror (or_intror (or_introl eq_refl)))) as Hg.
  inversion Hs as [|? ? Hs1 Hx]; subst.
  inversion Hs1 as [|? ? Hs2 Hy]; subst.
  inversion Hx as [|? ? Hxy Hx']; subst. inversion Hx' as [|? ? Hxz _]; subst.
  inversion Hy as [|? ? Hyz _]; subst.
  unfold rank_desc in *.
  simpl in Ha, Hc, Hg.
  destruct Ha as [Ha|[Ha|[Ha|[]]]]; destruct Hc as [Hc|[Hc|[Hc|[]]]];
    destruct Hg as [Hg|[Hg|[Hg|[]]]]; subst; try discriminate;
    try reflexivity;
    exfalso; unfold Qle in *; simpl in *; lia.
Qed.

(** C6: ordinal ranks follow the minimum-of-tied-group convention on the
    descending rank scores.  The scores [10, 10, 8] and [5, 5, 3] get
    the ordinal ranks [1, 1, 3]; a table whose row maxima are 5, 5, 3,
    ranked with method "max", gets them as well; and in general the
    ordinal rank of a record is 1 plus the number of records of strictly
    greater rank score, so that records of equal rank score share it. *)
Theorem ordinal_rank_min_of_tied_group :
  series_rank_min [10; 10; 8]%Q = [1; 1; 3]
  /\ series_rank_min [5; 5; 3]%Q = [1; 1; 3]
  /\ (forall vals : list Q,
         series_rank_min vals = map (fun v => 1 + Z.of_nat (count_greater v vals)) vals)
  /\ (forall (sort : DataFrameSort) (or_df : ORTable)
             (method : string) (ranked : list RankedRow),
         rank_enriched_kmers sort or_df method = Ok ranked ->
         (forall r, In r ranked ->
            ordinal_rank r = 1 + Z.of_nat (count_greater (rank r) (map rank ranked)))
         /\ (forall r1 r2, In r1 ranked -> In r2 ranked ->
               (rank r1 == rank r2)%Q -> ordinal_rank r1 = ordinal_rank r2))
  /\ (forall sort : DataFrameSort,
         sorts_descending sort ->
         exists ranked,
           rank_enriched_kmers sort example_table "max" = Ok ranked
           /\ map rank ranked = [5; 5; 3]%Q
           /\ map ordinal_rank ranked = [1; 1; 3]).
Proof.
  split; [reflexivity|]. split; [reflexivity|].
  split; [exact series_rank_min_counts|]. split.
  - intros sort or_df method ranked H. split.
    + intros r Hr. exact (ordinal_rank_counts _ _ _ _ r H Hr).
    + intros r1 r2 H1 H2 Heq.
      rewrite (ordinal_rank_counts _ _ _ _ r1 H H1).
      rewrite (ordinal_rank_counts _ _ _ _ r2 H H2).
      now rewrite (count_greater_comp _ _ _ Heq).
  - intros sort Hsort.
    set (scored :=
      [ {| s_row := {| kmer := "AAAA"; values := [5; 100; 2]%Q |}; s_rank := 5%Q |};
        {| s_row := {| kmer := "CCCC"; values := [1; 100; 5]%Q |}; s_rank := 5%Q |};
        {| s_row := {| kmer := "GGGG"; values := [3; 100; 3]%Q |}; s_rank := 3%Q |} ]).
    destruct (Hsort scored) as [Hp Hs].
    pose proof (example_table_ranks _ Hp Hs) as Hranks.
    exists (zip_with with_ordinal (sort s_rank false scored)
              (series_rank_min (map s_rank (sort s_rank false scored)))).
    split; [reflexivity|].
    destruct (zip_with_ordinal_columns (sort s_rank false scored)
                (series_rank_min (map s_rank (sort s_rank false scored)))) as [H1 H2].
    { now rewrite series_rank_min_length, length_map. }
    rewrite H1, H2, Hranks. split; reflexivity.
Qed.

(** The theorem at the sort that keeps the order of the table among ties. *)
Lemma ordinal_rank_min_of_tied_group_witness :
  exists ranked,
    rank_enriched_kmers df_sort_stable example_table "max" = Ok ranked
    /\ map rank ranked = [5; 5; 3]%Q
    /\ map ordinal_rank ranked = [1; 1; 3].
Proof.
  exact (proj2 (proj2 (proj2 (proj2 ordinal_rank_min_of_tied_group)))
           df_sort_stable df_sort_stable_sorts).
Defined.

(** ** Order of the ranked table *)

Lemma mapM_scored_stat (score_of : ORRow -> option Q) (l : list ORRow)
    (scored : list ScoredRow) :
  mapM (fun r => match score_of r with
                 | Some v => Ok {| s_row := r; s_rank := v |}
                 | None => Raise NotANumber
                 end) l = Ok scored ->
  Forall (fun s => score_of (s_row s) = Some (s_rank s)) scored.
Proof.
  revert scored. induction l as [|r l IH]; intros scored H; simpl in H.
  - inversion H. constructor.
  - destruct (score_of r) as [v|] eqn:Ev;
      [|unfold mbind, result_bind in H; discriminate].
    match type of H with context [mapM ?f l] => destruct (mapM f l) as [ys|] eqn:E end;
      unfold mbind, result_bind in H; [|discriminate].
    inversion H; subst. constructor; [exact Ev|]. now apply IH.
Qed.

Lemma rank_enriched_kmers_scored sort or_df method ranked :
  rank_enriched_kmers sort or_df method = Ok ranked ->
  exists stat scored,
    ((method = "max" /\ stat = row_max) \/ (method = "mean" /\ stat = row_mean))
    /\ Forall (fun s => stat (select_cols or_df (get_conc_cols or_df "nM") (s_row s))
                        = Some (s_rank s)) scored
    /\ map s_row scored = rows or_df
    /\ exists G : ScoredRow -> Z,
         ranked = map (fun s => with_ordinal s (G s)) (sort s_rank false scored).
Proof.
  intros H. pose proof H as H'. unfold rank_enriched_kmers in H.
  assert (Hstat : exists stat : list Q -> option Q,
             ((method = "max" /\ stat = row_max) \/ (method = "mean" /\ stat = row_mean))
             /\ mapM (fun r => match stat (select_cols or_df (get_conc_cols or_df "nM") r) with
                               | Some v => Ok {| s_row := r; s_rank := v |}
                               | None => Raise NotANumber
                               end) (rows or_df)
                ≫= (fun scored =>
                      Ok (zip_with with_ordinal (sort s_rank false scored)
                            (series_rank_min (map s_rank (sort s_rank false scored))))) = Ok ranked).
  { destruct (String.eqb_spec method "max") as [->|_];
      [exists row_max; split; [now left|exact H]|].
    destruct (String.eqb_spec method "mean") as [->|_];
      [exists row_mean; split; [now right|exact H]|].
    discriminate. }
  destruct Hstat as (stat & Hmethod & Hstat).
  match type of Hstat with context [mapM ?f ?l] => destruct (mapM f l) as [scored|] eqn:E end;
    unfold mbind, result_bind in Hstat; [|discriminate].
  exists stat, scored. split; [exact Hmethod|]. split.
  - exact (mapM_scored_stat
             (fun r => stat (select_cols or_df (get_conc_cols or_df "nM") r)) _ _ E).
  - split.
    + exact (mapM_scored_rows
               (fun r => stat (select_cols or_df (get_conc_cols or_df "nM") r)) _ _ E).
    + inversion Hstat. rewrite series_rank_min_counts, map_map.
      eexists. apply zip_with_map_same.
Qed.

Lemma before_split {A} (x y : A) (l : list A) :
  before x y l <-> exists l1 l2 l3, l = (l1 ++ x :: l2 ++ y :: l3)%list.
Proof.
  split.
  - intros (i & j & Hij & Hi & Hj).
    exists (take i l), (take (j - S i) (drop (S i) l)),
           (drop (S (j - S i)) (drop (S i) l)).
    rewrite <- (take_drop_middle l i x Hi) at 1. f_equal. f_equal.
    symmetry. apply take_drop_middle. rewrite lookup_drop.
    replace (S i + (j - S i))%nat with j by lia. exact Hj.
  - intros (l1 & l2 & l3 & ->). exists (length l1), (length l1 + S (length l2))%nat.
    split; [lia|]. split.
    + now apply list_lookup_middle.
    + rewrite lookup_app_r by lia.
      replace (length l1 + S (length l2) - length l1)%nat with (S (length l2)) by lia.
      simpl. now apply list_lookup_middle.
Qed.

Lemma filter_split_cons {A} (p : A -> bool) (l : list A) (x : A) (m : list A) :
  List.filter p l = x :: m ->
  exists la lb, l = (la ++ x :: lb)%list /\ List.filter p lb = m.
Proof.
  induction l as [|z l IH]; simpl; [discriminate|]. destruct (p z) eqn:E.
  - intros H. inversion H; subst. now exists [], l.
  - intros H. destruct (IH H) as (la & lb & -> & Hm). now exists (z :: la), lb.
Qed.

Lemma filter_split_app {A} (p : A -> bool) (l a b : list A) :
  List.filter p l = (a ++ b)%list ->
  exists la lb, l = (la ++ lb)%list /\ List.filter p lb = b.
Proof.
  revert l. induction a as [|x a IH]; intros l H.
  - now exists [], l.
  - simpl in H. destruct (filter_split_cons p l x _ H) as (la & lb & -> & Hb).
    destruct (IH lb Hb) as (lc & ld & -> & Hd).
    exists (la ++ x :: lc)%list, ld. split; [|exact Hd]. now rewrite <- app_assoc.
Qed.

(** Leaving out rows does not change which of two rows that stay comes
    first. *)
Lemma before_filter {A} (p : A -> bool) (x y : A) (l : list A) :
  p x = true -> p y = true ->
  (before x y (List.filter p l) <-> before x y l).
Proof.
  intros Hx Hy. rewrite !before_split. split.
  - intros (m1 & m2 & m3 & H).
    destruct (filter_split_app p l m1 _ H) as (la & lb & -> & Hb).
    destruct (filter_split_cons p lb x _ Hb) as (lb1 & lb2 & -> & Hb2).
    destruct (filter_split_app p lb2 m2 _ Hb2) as (lc & ld & -> & Hd).
    destruct (filter_split_cons p ld y _ Hd) as (ld1 & ld2 & -> & _).
    exists (la ++ lb1)%list, (lc ++ ld1)%list, ld2.
    now rewrite <- !app_assoc.
  - intros (l1 & l2 & l3 & ->).
    exists (List.filter p l1), (List.filter p l2), (List.filter p l3).
    rewrite List.filter_app. simpl. rewrite Hx, List.filter_app. simpl.
    now rewrite Hy.
Qed.

Lemma before_map {A B} (f : A -> B) (x y : A) (l : list A) :
  before x y l -> before (f x) (f y) (map f l).
Proof.
  rewrite !before_split. intros (l1 & l2 & l3 & ->).
  exists (map f l1), (map f l2), (map f l3).
  rewrite map_app. simpl. now rewrite map_app.
Qed.

Lemma before_map_inv {A B} (f : A -> B) (a b : B) (l : list A) :
  before a b (map f l) ->
  exists x y, f x = a /\ f y = b /\ before x y l.
Proof.
  rewrite before_split. intros (m1 & m2 & m3 & H).
  apply map_eq_app in H. destruct H as (l1 & k1 & -> & _ & H).
  apply map_eq_cons in H. destruct H as (x & k2 & -> & Hx & H).
  apply map_eq_app in H. destruct H as (l2 & k3 & -> & _ & H).
  apply map_eq_cons in H. destruct H as (y & l3 & -> & Hy & _).
  exists x, y. split; [exact Hx|]. split; [exact Hy|].
  apply before_split. now exists l1, l2, l3.
Qed.

(** The rows with a given key are the same, in the same order, before
    and after the sort of the spec. *)
Lemma insert_row_tied by_col ascending (v : Q) x l :
  List.filter (fun s => Qeq_bool (by_col s) v) (insert_row by_col ascending x l)
  = List.filter (fun s => Qeq_bool (by_col s) v) (x :: l).
Proof.
  induction l as [|y l IH]; [reflexivity|]. cbn [insert_row].
  destruct (if ascending then Qlt_bool (by_col y) (by_col x)
            else Qlt_bool (by_col x) (by_col y)) eqn:E; [|reflexivity].
  assert (Hne : ~ (by_col x == by_col y)%Q).
  { intros Heq. destruct ascending; apply Qlt_bool_true in E;
      rewrite Heq in E; exact (Qlt_irrefl _ E). }
  cbn [List.filter] in *. rewrite IH.
  destruct (Qeq_bool (by_col x) v) eqn:Ex, (Qeq_bool (by_col y) v) eqn:Ey;
    try reflexivity.
  apply Qeq_bool_iff in Ex, Ey. exfalso. apply Hne. now rewrite Ex, Ey.
Qed.

Lemma df_sort_stable_tied by_col ascending (v : Q) l :
  List.filter (fun s => Qeq_bool (by_col s) v) (df_sort_stable by_col ascending l)
  = List.filter (fun s => Qeq_bool (by_col s) v) l.
Proof.
  unfold df_sort_stable. induction l as [|x l IH]; [reflexivity|].
  cbn [fold_right]. rewrite insert_row_tied. cbn [List.filter]. now rewrite IH.
Qed.

Lemma df_sort_stable_keeps_order by_col ascending x y l :
  (by_col x == by_col y)%Q ->
  before x y l -> before x y (df_sort_stable by_col ascending l).
Proof.
  intros Heq H.
  assert (Hx : Qeq_bool (by_col x) (by_col x) = true) by now apply Qeq_bool_iff.
  assert (Hy : Qeq_bool (by_col y) (by_col x) = true)
    by (apply Qeq_bool_iff; now symmetry).
  apply (before_filter (fun s => Qeq_bool (by_col s) (by_col x)) x y _ Hx Hy).
  rewrite df_sort_stable_tied.
  now apply (before_filter (fun s => Qeq_bool (by_col s) (by_col x)) x y _ Hx Hy).
Qed.

(** C3: the ranked table holds the records of the input table in
    descending order of rank score, and the sort keeps the original
    load order among records of equal rank score: when r1 comes before
    r2 in the input table and both have the same rank score, r1 comes
    before r2 in the ranked table. *)
Theorem ranked_ties_keep_load_order :
  forall (or_df : ORTable) (method : string) (ranked : list RankedRow),
    rank_enriched_kmers df_sort_stable or_df method = Ok ranked ->
    StronglySorted ranked_desc ranked
    /\ Permutation (rows or_df) (map r_row ranked)
    /\ keeps_load_order or_df ranked.
Proof.
  intros or_df method ranked H.
  destruct (rank_enriched_kmers_scored _ _ _ _ H)
    as (stat & scored & _ & Hstat & Hrows & G & ->).
  destruct (df_sort_stable_sorts scored) as [Hp Hs].
  split; [now apply ranked_sorted|]. split.
  { rewrite ranked_rows_column, <- Hrows. now apply Permutation_map. }
  intros r1 r2 H1 H2 Hbefore Heq.
  rewrite <- Hrows in Hbefore.
  destruct (before_map_inv _ _ _ _ Hbefore) as (s1 & s2 & Hs1 & Hs2 & Hb).
  assert (Hdet : forall r s, In r (map (fun s => with_ordinal s (G s))
                                       (df_sort_stable s_rank false scored)) ->
                             In s scored -> s_row s = r_row r ->
                             with_ordinal s (G s) = r).
  { intros r s Hr Hin Hrow. apply in_map_iff in Hr. destruct Hr as (s' & <- & Hs').
    apply (Permutation_in _ (Permutation_sym Hp)) in Hs'.
    rewrite List.Forall_forall in Hstat.
    pose proof (Hstat s Hin) as Es. pose proof (Hstat s' Hs') as Es'.
    cbn [with_ordinal r_row] in Hrow. rewrite Hrow, Es' in Es.
    destruct s as [row v], s' as [row' v']. cbn in *. inversion Es. now subst. }
  assert (Hin1 : In s1 scored).
  { destruct Hb as (i & _ & _ & Hi & _). apply list_elem_of_In.
    now apply list_elem_of_lookup_2 in Hi. }
  assert (Hin2 : In s2 scored).
  { destruct Hb as (_ & j & _ & _ & Hj). apply list_elem_of_In.
    now apply list_elem_of_lookup_2 in Hj. }
  rewrite <- (Hdet r1 s1 H1 Hin1 Hs1), <- (Hdet r2 s2 H2 Hin2 Hs2).
  apply (before_map (fun s => with_ordinal s (G s))).
  apply df_sort_stable_keeps_order; [|exact Hb].
  rewrite <- (Hdet r1 s1 H1 Hin1 Hs1), <- (Hdet r2 s2 H2 Hin2 Hs2) in Heq.
  exact Heq.
Qed.

Lemma ranked_ties_keep_load_order_witness :
  exists ranked,
    rank_enriched_kmers df_sort_stable example_table "max" = Ok ranked
    /\ map (fun r => kmer (r_row r)) ranked = ["AAAA"; "CCCC"; "GGGG"]
    /\ StronglySorted ranked_desc ranked
    /\ Permutation (rows example_table) (map r_row ranked)
    /\ keeps_load_order example_table ranked.
Proof.
  eexists. split; [reflexivity|]. split; [reflexivity|].
  apply (ranked_ties_keep_load_order example_table "max").
  reflexivity.
Defined.

(** ** The percentile cutoff *)

Lemma insert_asc_perm (x : Q) (l : list Q) : Permutation (x :: l) (insert_asc x l).
Proof.
  induction l as [|y l IH]; simpl; [reflexivity|].
  destruct (Qle_bool y x); [|reflexivity].
  rewrite perm_swap. now apply perm_skip.
Qed.

Lemma sort_values_asc_perm (l : list Q) : Permutation l (sort_values_asc l).
Proof.
  induction l as [|x l IH]; simpl; [reflexivity|].
  rewrite <- insert_asc_perm. now apply perm_skip.
Qed.

Lemma insert_asc_sorted (x : Q) (l : list Q) :
  StronglySorted Qle l -> StronglySorted Qle (insert_asc x l).
Proof.
  induction 1 as [|y l Hs IH Hall]; simpl.
  - repeat constructor.
  - destruct (Qle_bool y x) eqn:E.
    + apply Qle_bool_iff in E. constructor; [exact IH|].
      rewrite <- insert_asc_perm. constructor; [exact E|exact Hall].
    + assert (Hxy : (x <= y)%Q).
      { apply Qlt_le_weak, Qnot_le_lt. intros Hle.
        apply Qle_bool_iff in Hle. congruence. }
      constructor; [now constructor|].
      constructor; [exact Hxy|].
      eapply List.Forall_impl; [|exact Hall].
      intros z Hz. now apply Qle_trans with y.
Qed.

Lemma sort_values_asc_sorted (l : list Q) : StronglySorted Qle (sort_values_asc l).
Proof.
  induction l as [|x l IH]; simpl; [constructor|now apply insert_asc_sorted].
Qed.

Lemma sorted_lookup_le (s : list Q) (i j : nat) (a b : Q) :
  StronglySorted Qle s -> (i <= j)%nat ->
  s !! i = Some a -> s !! j = Some b -> (a <= b)%Q.
Proof.
  intros Hs. revert i j. induction Hs as [|y l Hs IH Hall]; intros i j Hij Hi Hj.
  - discriminate.
  - destruct i as [|i], j as [|j]; simpl in Hi, Hj.
    + inversion Hi; inversion Hj; subst. apply Qle_refl.
    + inversion Hi; subst. rewrite Forall_forall in Hall.
      apply Hall. eapply list_elem_of_lookup_2. exact Hj.
    + lia.
    + apply (IH i j); [lia|assumption|assumption].
Qed.

Lemma Qfloor_nonneg (x : Q) : (0 <= x)%Q -> (0 <= Qfloor x)%Z.
Proof. intros H. apply Qfloor_resp_le in H. exact H. Qed.

Lemma Qfloor_le_bound (x : Q) (m : Z) : (x <= inject_Z m)%Q -> (Qfloor x <= m)%Z.
Proof. intros H. apply Qfloor_resp_le in H. now rewrite Qfloor_Z in H. Qed.

Lemma Qfloor_not_exact (x : Q) :
  ~ (x == inject_Z (Qfloor x))%Q -> (inject_Z (Qfloor x) < x)%Q.
Proof.
  intros Hne. pose proof (Qfloor_le x) as Hle.
  apply Qle_lt_or_eq in Hle. destruct Hle as [H|H]; [exact H|].
  exfalso. apply Hne. now symmetry.
Qed.

Lemma inject_Z_succ (i : Z) : (inject_Z (i + 1) == inject_Z i + 1)%Q.
Proof. rewrite inject_Z_plus. reflexivity. Qed.

(** Within its range the interpolation returns a value between the order
    statistic below the position and every order statistic above it. *)
Lemma linear_interpolation_bounds (s : list Q) (x : Q) :
  StronglySorted Qle s ->
  (0 <= x)%Q -> (x <= inject_Z (Z.of_nat (length s) - 1))%Q ->
  exists v lower,
    linear_interpolation unrounded s x = Ok v
    /\ s !! Z.to_nat (Qfloor x) = Some lower
    /\ (lower <= v)%Q
    /\ (forall j upper, (Z.to_nat (Qfloor x) < j)%nat -> s !! j = Some upper -> (v <= upper)%Q).
Proof.
  intros Hs H0 Hn. unfold linear_interpolation, unrounded.
  pose proof (Qfloor_nonneg x H0) as Hi0.
  pose proof (Qfloor_le_bound x _ Hn) as Hin.
  destruct (lookup_lt_is_Some_2 s (Z.to_nat (Qfloor x)) ltac:(lia)) as [lower Hlo].
  rewrite Hlo. destruct (Qeq_bool x (inject_Z (Qfloor x))) eqn:E.
  - exists lower, lower. split; [reflexivity|]. split; [reflexivity|].
    split; [apply Qle_refl|].
    intros j upper Hj Hup.
    apply (sorted_lookup_le s (Z.to_nat (Qfloor x)) j _ _ Hs); [lia|exact Hlo|exact Hup].
  - assert (Hne : ~ (x == inject_Z (Qfloor x))%Q).
    { intros Heq. apply Qeq_bool_iff in Heq. congruence. }
    pose proof (Qfloor_not_exact x Hne) as Hlt.
    pose proof (Qlt_floor x) as Hnext.
    assert (Hi1 : (Qfloor x + 1 <= Z.of_nat (length s) - 1)%Z).
    { assert (Hq : (inject_Z (Qfloor x) < inject_Z (Z.of_nat (length s) - 1))%Q)
        by (eapply Qlt_le_trans; eassumption).
      rewrite <- Zlt_Qlt in Hq. lia. }
    destruct (lookup_lt_is_Some_2 s (Z.to_nat (Qfloor x + 1)) ltac:(lia)) as [upper Hup].
    rewrite Hup.
    assert (Hlu : (lower <= upper)%Q).
    { apply (sorted_lookup_le s (Z.to_nat (Qfloor x)) (Z.to_nat (Qfloor x + 1)) _ _ Hs);
        [lia|exact Hlo|exact Hup]. }
    rewrite inject_Z_succ in Hnext.
    eexists _, lower. split; [reflexivity|]. split; [reflexivity|]. split.
    + assert (Heq : (lower * (inject_Z (Qfloor x + 1) - x) + upper * (x - inject_Z (Qfloor x))
                     == lower + (x - inject_Z (Qfloor x)) * (upper - lower))%Q).
      { rewrite inject_Z_succ. ring. }
      rewrite Heq. clear Heq.
      assert (0 <= (x - inject_Z (Qfloor x)) * (upper - lower))%Q.
      { apply Qmult_le_0_compat; Lqa.lra. }
      Lqa.lra.
    + intros j upper' Hj Hup'.
      assert (Huu : (upper <= upper')%Q).
      { apply (sorted_lookup_le s (Z.to_nat (Qfloor x + 1)) j _ _ Hs);
          [lia|exact Hup|exact Hup']. }
      assert (Heq : (lower * (inject_Z (Qfloor x + 1) - x) + upper * (x - inject_Z (Qfloor x))
                     == upper - (inject_Z (Qfloor x) + 1 - x) * (upper - lower))%Q).
      { rewrite inject_Z_succ. ring. }
      rewrite Heq. clear Heq.
      assert (0 <= (inject_Z (Qfloor x) + 1 - x) * (upper - lower))%Q.
      { apply Qmult_le_0_compat; Lqa.lra. }
      Lqa.lra.
Qed.

Lemma linear_interpolation_mono (s : list Q) (x1 x2 v1 v2 : Q) :
  StronglySorted Qle s ->
  (0 <= x1)%Q -> (x1 <= x2)%Q -> (x2 <= inject_Z (Z.of_nat (length s) - 1))%Q ->
  linear_interpolation unrounded s x1 = Ok v1 ->
  linear_interpolation unrounded s x2 = Ok v2 ->
  (v1 <= v2)%Q.
Proof.
  intros Hs H0 H12 Hn E1 E2.
  assert (H02 : (0 <= x2)%Q) by (eapply Qle_trans; eassumption).
  assert (Hn1 : (x1 <= inject_Z (Z.of_nat (length s) - 1))%Q)
    by (eapply Qle_trans; eassumption).
  destruct (linear_interpolation_bounds s x1 Hs H0 Hn1) as (w1 & lo1 & Ew1 & Hlo1 & _ & Hup1).
  destruct (linear_interpolation_bounds s x2 Hs H02 Hn) as (w2 & lo2 & Ew2 & Hlo2 & Hle2 & _).
  rewrite E1 in Ew1. rewrite E2 in Ew2. inversion Ew1; inversion Ew2; subst w1 w2.
  pose proof (Qfloor_resp_le _ _ H12) as Hfloor.
  pose proof (Qfloor_nonneg x1 H0) as Hf1.
  destruct (Z.eq_dec (Qfloor x1) (Qfloor x2)) as [Heq|Hne].
  - (* both positions lie between the same two order statistics *)
    unfold linear_interpolation, unrounded in E1, E2. rewrite <- Heq in E2, Hlo2.
    rewrite Hlo1 in E1, E2.
    destruct (Qeq_bool x1 (inject_Z (Qfloor x1))) eqn:B1.
    + inversion E1; subst v1. rewrite Hlo1 in Hlo2. inversion Hlo2; subst lo2.
      exact Hle2.
    + assert (Hne1 : ~ (x1 == inject_Z (Qfloor x1))%Q).
      { intros Hq. apply Qeq_bool_iff in Hq. congruence. }
      pose proof (Qfloor_not_exact x1 Hne1) as Hlt1.
      destruct (Qeq_bool x2 (inject_Z (Qfloor x1))) eqn:B2.
      * apply Qeq_bool_iff in B2. exfalso. Lqa.lra.
      * destruct (s !! Z.to_nat (Qfloor x1 + 1)) as [upper|] eqn:Hup; [|discriminate].
        inversion E1; inversion E2; subst v1 v2.
        assert (Hlu : (lo1 <= upper)%Q).
        { apply (sorted_lookup_le s (Z.to_nat (Qfloor x1)) (Z.to_nat (Qfloor x1 + 1)) _ _ Hs);
            [lia|exact Hlo1|exact Hup]. }
        assert (Hd : (lo1 * (inject_Z (Qfloor x1 + 1) - x2) + upper * (x2 - inject_Z (Qfloor x1))
                      - (lo1 * (inject_Z (Qfloor x1 + 1) - x1)
                         + upper * (x1 - inject_Z (Qfloor x1)))
                      == (x2 - x1) * (upper - lo1))%Q) by ring.
        assert (0 <= (x2 - x1) * (upper - lo1))%Q
          by (apply Qmult_le_0_compat; Lqa.lra).
        Lqa.lra.
  - (* an order statistic separates the two positions *)
    apply Qle_trans with lo2; [|exact Hle2].
    apply (Hup1 (Z.to_nat (Qfloor x2))); [lia|exact Hlo2].
Qed.

Lemma sort_values_asc_length (l : list Q) : length (sort_values_asc l) = length l.
Proof. symmetry. apply Permutation_length, sort_values_asc_perm. Qed.

(** A greater percentile never gives a smaller cutoff. *)
Lemma np_percentile_mono (a : list Q) (q1 q2 : Q) :
  a <> [] -> (0 <= q1)%Q -> (q1 <= q2)%Q -> (q2 <= 100)%Q ->
  exists c1 c2,
    np_percentile unrounded a q1 = Ok c1 /\ np_percentile unrounded a q2 = Ok c2 /\ (c1 <= c2)%Q.
Proof.
  intros Ha H0 H12 H100.
  assert (H02 : (0 <= q2)%Q) by (eapply Qle_trans; eassumption).
  assert (H1100 : (q1 <= 100)%Q) by (eapply Qle_trans; eassumption).
  unfold np_percentile, unrounded.
  rewrite !(proj2 (Qle_bool_iff _ _) H0), !(proj2 (Qle_bool_iff _ _) H02),
          !(proj2 (Qle_bool_iff _ _) H100), !(proj2 (Qle_bool_iff _ _) H1100).
  cbn [andb negb].
  assert (Hlen : (1 <= length (sort_values_asc a))%nat).
  { rewrite sort_values_asc_length. destruct a; [contradiction|simpl; lia]. }
  destruct (Nat.eqb_spec (length (sort_values_asc a)) 0) as [Hz|_]; [lia|].
  set (s := sort_values_asc a) in *.
  set (m := inject_Z (Z.of_nat (length s) - 1)).
  assert (Hm : (0 <= m)%Q).
  { unfold m. rewrite <- (Zle_Qle 0). lia. }
  assert (Hx1 : (0 <= q1 / 100 * m)%Q).
  { apply Qmult_le_0_compat; [|exact Hm]. apply Qle_shift_div_l; [reflexivity|Lqa.lra]. }
  assert (Hx12 : (q1 / 100 * m <= q2 / 100 * m)%Q).
  { apply Qmult_le_compat_r; [|exact Hm].
    apply Qmult_le_compat_r; [exact H12|]. discriminate. }
  assert (Hx2 : (q2 / 100 * m <= m)%Q).
  { rewrite <- (Qmult_1_l m) at 2. apply Qmult_le_compat_r; [|exact Hm].
    apply Qle_shift_div_r; [reflexivity|Lqa.lra]. }
  assert (Hs : StronglySorted Qle s) by apply sort_values_asc_sorted.
  destruct (linear_interpolation_bounds s (q1 / 100 * m) Hs Hx1
              ltac:(eapply Qle_trans; eassumption)) as (c1 & ? & E1 & _).
  destruct (linear_interpolation_bounds s (q2 / 100 * m) Hs
              ltac:(eapply Qle_trans; eassumption) Hx2) as (c2 & ? & E2 & _).
  exists c1, c2. split; [exact E1|]. split; [exact E2|].
  exact (linear_interpolation_mono s _ _ c1 c2 Hs Hx1 Hx12 Hx2 E1 E2).
Qed.

Lemma rows_meeting_incl (c1 c2 : Q) (ranked : list RankedRow) :
  (c1 <= c2)%Q ->
  (forall r, In r (rows_meeting c2 ranked) -> In r (rows_meeting c1 ranked))
  /\ (length (rows_meeting c2 ranked) <= length (rows_meeting c1 ranked))%nat.
Proof.
  intros Hc. unfold rows_meeting. split.
  - intros r Hr. apply filter_In in Hr. destruct Hr as [Hin Hr].
    apply filter_In. split; [exact Hin|].
    apply Qle_bool_iff. apply Qle_bool_iff in Hr. now apply Qle_trans with c2.
  - induction ranked as [|r l IH]; simpl; [lia|].
    destruct (Qle_bool c2 (rank r)) eqn:E2.
    + assert (E1 : Qle_bool c1 (rank r) = true).
      { apply Qle_bool_iff. apply Qle_bool_iff in E2. now apply Qle_trans with c2. }
      rewrite E1. simpl. lia.
    + destruct (Qle_bool c1 (rank r)); simpl; lia.
Qed.




(** ** Index arrays *)

Lemma np_where_shift {A} (q : nat * A -> bool) (q' : nat * A -> bool) (k : nat) (a : list A) :
  (forall i x, q (S i, x) = q' (i, x)) ->
  map fst (List.filter q (combine (seq (S k) (length a)) a))
  = map S (map fst (List.filter q' (combine (seq k (length a)) a))).
Proof.
  intros Hq. revert k. induction a as [|x a IH]; intros k; simpl; [reflexivity|].
  rewrite Hq. destruct (q' (k, x)); simpl; now rewrite IH.
Qed.

Lemma np_where_nil {A} (p : A -> bool) : np_where p [] = [].
Proof. reflexivity. Qed.

Lemma np_where_cons {A} (p : A -> bool) (x : A) (a : list A) :
  np_where p (x :: a) = ((if p x then [O] else []) ++ map S (np_where p a))%list.
Proof.
  unfold np_where. simpl.
  pose proof (np_where_shift (fun ix => p (snd ix)) (fun ix => p (snd ix)) 0 a
                ltac:(reflexivity)) as H.
  destruct (p x); simpl; now rewrite H.
Qed.

Lemma np_where_In {A} (p : A -> bool) (a : list A) (i : nat) :
  In i (np_where p a) <-> exists x, a !! i = Some x /\ p x = true.
Proof.
  revert i. induction a as [|y a IH]; intros i.
  - rewrite np_where_nil. split; [intros []|intros (x & Hx & _); discriminate].
  - rewrite np_where_cons, in_app_iff, in_map_iff. split.
    + intros [H0|(i' & <- & Hi')].
      * destruct (p y) eqn:E; [|destruct H0].
        destruct H0 as [<-|[]]. exists y. split; [reflexivity|exact E].
      * apply IH in Hi'. exact Hi'.
    + intros (x & Hx & Hp). destruct i as [|i']; simpl in Hx.
      * inversion Hx; subst. left. rewrite Hp. now left.
      * right. exists i'. split; [reflexivity|]. apply IH. now exists x.
Qed.

Lemma np_setitem_nil {A} (inds : list nat) (v : A) :
  np_setitem [] inds v = match inds with [] => Ok [] | _ => Raise IndexError end.
Proof. destruct inds; reflexivity. Qed.

Lemma setitem_fold_cons_S {A} (x : A) (v : A) (inds : list nat) (a : list A) :
  fold_left (fun acc i => <[i := v]> acc) (map S inds) (x :: a)
  = x :: fold_left (fun acc i => <[i := v]> acc) inds a.
Proof.
  revert a. induction inds as [|i inds IH]; intros a; simpl; [reflexivity|].
  apply IH.
Qed.

Lemma forallb_map_S (f : nat -> bool) (inds : list nat) :
  forallb f (map S inds) = forallb (fun i => f (S i)) inds.
Proof. induction inds as [|i inds IH]; simpl; [reflexivity|now rewrite IH]. Qed.

Lemma np_setitem_cons_S {A} (x v : A) (a : list A) (inds : list nat) :
  np_setitem (x :: a) (map S inds) v
  = match np_setitem a inds v with Ok l => Ok (x :: l) | Raise e => Raise e end.
Proof.
  unfold np_setitem. rewrite forallb_map_S. simpl length.
  change (forallb (fun i => Nat.ltb (S i) (S (length a))) inds)
    with (forallb (fun i => Nat.ltb i (length a)) inds).
  destruct (forallb (fun i => Nat.ltb i (length a)) inds); [|reflexivity].
  now rewrite setitem_fold_cons_S.
Qed.

Lemma np_setitem_cons_0 {A} (x v : A) (a : list A) (inds : list nat) :
  np_setitem (x :: a) (O :: map S inds) v
  = match np_setitem a inds v with Ok l => Ok (v :: l) | Raise e => Raise e end.
Proof.
  pose proof (np_setitem_cons_S v v a inds) as H.
  unfold np_setitem in *. simpl forallb. simpl fold_left. simpl length in *.
  cbn [Nat.ltb Nat.leb andb]. exact H.
Qed.

Lemma np_take_nil {A} (inds : list nat) :
  np_take (@nil A) inds = match inds with [] => Ok [] | _ => Raise IndexError end.
Proof. destruct inds; reflexivity. Qed.

Lemma np_take_cons_S {A} (x : A) (a : list A) (inds : list nat) :
  np_take (x :: a) (map S inds) = np_take a inds.
Proof.
  induction inds as [|i inds IH]; simpl; [reflexivity|].
  destruct (a !! i); [|reflexivity]. now rewrite IH.
Qed.

Lemma np_take_cons_0 {A} (x : A) (a : list A) (inds : list nat) :
  np_take (x :: a) (O :: map S inds)
  = match np_take a inds with Ok l => Ok (x :: l) | Raise e => Raise e end.
Proof. simpl. now rewrite np_take_cons_S. Qed.

Lemma np_take_length {A} (a : list A) (inds : list nat) (xs : list A) :
  np_take a inds = Ok xs -> length xs = length inds.
Proof.
  revert xs. induction inds as [|i inds IH]; intros xs H; simpl in H.
  - inversion H. reflexivity.
  - destruct (a !! i); [|discriminate]. unfold mbind, result_bind in H.
    destruct (np_take a inds) as [ys|]; [|discriminate].
    inversion H. simpl. f_equal. now apply IH.
Qed.

Lemma np_setitem_raise {A} (a : list A) (inds : list nat) (v : A) (e : pyerr) :
  np_setitem a inds v = Raise e <->
  e = IndexError /\ exists i, In i inds /\ (length a <= i)%nat.
Proof.
  unfold np_setitem. destruct (forallb (fun i => Nat.ltb i (length a)) inds) eqn:E.
  - split; [discriminate|]. intros (_ & i & Hin & Hle).
    rewrite forallb_forall in E. apply E, Nat.ltb_lt in Hin. lia.
  - split; [|intros (-> & _); reflexivity].
    intros H; inversion H; subst. split; [reflexivity|].
    clear H. induction inds as [|i inds IH]; simpl in E; [discriminate|].
    apply andb_false_iff in E. destruct E as [E|E].
    + exists i. split; [now left|]. apply Nat.ltb_ge in E. exact E.
    + destruct (IH E) as (j & Hj & Hle). exists j. split; [now right|exact Hle].
Qed.

Lemma np_take_raise {A} (a : list A) (inds : list nat) (e : pyerr) :
  np_take a inds = Raise e <->
  e = IndexError /\ exists i, In i inds /\ (length a <= i)%nat.
Proof.
  revert e. induction inds as [|i inds IH]; intros e; simpl.
  - split; [discriminate|]. intros (_ & i & [] & _).
  - destruct (a !! i) as [x|] eqn:Hi.
    + unfold mbind, result_bind. destruct (np_take a inds) as [xs|e'] eqn:Ht.
      * split; [discriminate|]. intros (He & j & [<-|Hj] & Hle).
        -- apply lookup_lt_Some in Hi. lia.
        -- assert (Hr : Ok xs = Raise e) by (apply IH; eauto). discriminate Hr.
      * destruct (proj1 (IH e') eq_refl) as (He' & j & Hj & Hle). subst e'.
        split.
        -- intros H; inversion H; subst e.
           split; [reflexivity|]. exists j. split; [now right|exact Hle].
        -- intros (-> & _). reflexivity.
    + split.
      * intros H; inversion H. split; [reflexivity|]. exists i. split; [now left|].
        now apply lookup_ge_None.
      * intros (-> & _). reflexivity.
Qed.

(** ** Suppression and the occurring kmers *)

Lemma suppress_nil (counts : list Z) : suppress [] counts = counts.
Proof. destruct counts; reflexivity. Qed.

Lemma suppress_length (fc_rank : list Q) (counts : list Z) :
  length (suppress fc_rank counts) = length counts.
Proof.
  revert fc_rank. induction counts as [|c cs IH]; intros [|f fcs]; simpl; try reflexivity.
  now rewrite IH.
Qed.

(** The assignment [obs_counts[counts_not_met_inds] = 0], when it goes
    through, leaves the suppressed count vector. *)
Lemma setitem_suppress (fc_rank : list Q) (counts l : list Z) :
  np_setitem counts (np_where (fun fc => Qlt_bool fc FC_FILTER) fc_rank) 0 = Ok l ->
  l = suppress fc_rank counts.
Proof.
  revert counts l. induction fc_rank as [|f fcs IH]; intros counts l H.
  - rewrite np_where_nil in H. unfold np_setitem in H. simpl in H.
    inversion H. now rewrite suppress_nil.
  - rewrite np_where_cons in H. destruct counts as [|c cs].
    + rewrite np_setitem_nil in H.
      destruct (_ ++ _)%list; [|discriminate]. now inversion H.
    + simpl suppress. destruct (Qlt_bool f FC_FILTER); simpl app in H.
      * rewrite np_setitem_cons_0 in H.
        destruct (np_setitem cs _ 0) as [l'|] eqn:E; [|discriminate].
        inversion H. f_equal. now apply IH.
      * rewrite np_setitem_cons_S in H.
        destruct (np_setitem cs _ 0) as [l'|] eqn:E; [|discriminate].
        inversion H. f_equal. now apply IH.
Qed.

Lemma setitem_suppress_raise (fc_rank : list Q) (counts : list Z) (e : pyerr) :
  np_setitem counts (np_where (fun fc => Qlt_bool fc FC_FILTER) fc_rank) 0 = Raise e <->
  e = IndexError
  /\ exists i fc, fc_rank !! i = Some fc /\ (fc < FC_FILTER)%Q /\ (length counts <= i)%nat.
Proof.
  rewrite np_setitem_raise. split; intros (He & H); (split; [exact He|]).
  - destruct H as (i & Hin & Hle). apply np_where_In in Hin.
    destruct Hin as (fc & Hfc & Hlow). exists i, fc.
    split; [exact Hfc|]. split; [now apply Qlt_bool_true|exact Hle].
  - destruct H as (i & fc & Hfc & Hlow & Hle). exists i. split; [|exact Hle].
    apply np_where_In. exists fc. split; [exact Hfc|now apply Qlt_bool_true].
Qed.

(** The scores at the indices of the counts that are still at least one. *)
Lemma take_occurring (fc_rank : list Q) (counts : list Z) (present : list Q) :
  np_take fc_rank (np_where (fun c => (1 <=? c)%Z) (suppress fc_rank counts)) = Ok present ->
  present = occurring_scores (fun fc => Qle_bool FC_FILTER fc) fc_rank counts.
Proof.
  unfold occurring_scores.
  revert counts present. induction fc_rank as [|f fcs IH]; intros counts present H.
  - rewrite np_take_nil in H. destruct (np_where _ _); [|discriminate]. now inversion H.
  - destruct counts as [|c cs].
    + simpl in H. inversion H. reflexivity.
    + simpl suppress in H. rewrite np_where_cons in H. simpl combine. simpl List.filter.
      unfold Qlt_bool in H.
      destruct (Qle_bool FC_FILTER f); simpl negb in H; cbn [fst snd andb].
      * destruct (1 <=? c)%Z; simpl app in H.
        -- rewrite np_take_cons_0 in H.
           destruct (np_take fcs _) as [xs|] eqn:E; [|discriminate].
           inversion H. simpl. f_equal. now apply IH.
        -- rewrite np_take_cons_S in H. now apply IH.
      * simpl app in H. rewrite np_take_cons_S in H. now apply IH.
Qed.

Lemma take_occurring_raise (fc_rank : list Q) (counts : list Z) (e : pyerr) :
  np_take fc_rank (np_where (fun c => (1 <=? c)%Z) (suppress fc_rank counts)) = Raise e <->
  e = IndexError
  /\ exists j c, counts !! j = Some c /\ (1 <= c)%Z /\ (length fc_rank <= j)%nat.
Proof.
  assert (Hsame : forall j, (length fc_rank <= j)%nat ->
                            suppress fc_rank counts !! j = counts !! j).
  { revert counts. induction fc_rank as [|f fcs IH]; intros counts j Hj.
    - now rewrite suppress_nil.
    - destruct counts as [|c cs]; [reflexivity|].
      destruct j as [|j]; simpl in Hj; [lia|]. simpl. apply IH. lia. }
  rewrite np_take_raise. split; intros (He & H); (split; [exact He|]).
  - destruct H as (j & Hin & Hle). apply np_where_In in Hin.
    destruct Hin as (c & Hc & Hnz). rewrite Hsame in Hc by exact Hle.
    exists j, c. split; [exact Hc|]. split; [now apply Z.leb_le|exact Hle].
  - destruct H as (j & c & Hc & Hnz & Hle). exists j. split; [|exact Hle].
    apply np_where_In. exists c. rewrite Hsame by exact Hle.
    split; [exact Hc|now apply Z.leb_le].
Qed.

Lemma occurring_scores_kept (keep : Q -> bool) (fc_rank : list Q) (counts : list Z) (m : Q) :
  In m (occurring_scores keep fc_rank counts) -> keep m = true.
Proof.
  unfold occurring_scores. intros H. apply in_map_iff in H.
  destruct H as ([f c] & <- & H). apply filter_In in H. simpl in H.
  destruct H as [_ H]. now apply andb_true_iff in H.
Qed.

(** ** The builtin max *)

Lemma py_max_ge_l (a b : Q) : (a <= py_max a b)%Q.
Proof.
  unfold py_max. destruct (Qlt_bool a b) eqn:E; [|apply Qle_refl].
  apply Qlt_bool_true in E. now apply Qlt_le_weak.
Qed.

Lemma py_max_ge_r (a b : Q) : (b <= py_max a b)%Q.
Proof.
  unfold py_max. destruct (Qlt_bool a b) eqn:E; [apply Qle_refl|].
  now apply Qlt_bool_false in E.
Qed.

Lemma fold_py_max (rest : list Q) (x : Q) :
  In (fold_left py_max rest x) (x :: rest)
  /\ Forall (fun y => (y <= fold_left py_max rest x)%Q) (x :: rest).
Proof.
  revert x. induction rest as [|y rest IH]; intros x; simpl fold_left.
  - split; [now left|]. constructor; [apply Qle_refl|constructor].
  - destruct (IH (py_max x y)) as [Hin Hall].
    inversion Hall as [|? ? Hm Hrest]; subst. split.
    + destruct Hin as [Hin|Hin]; [|right; now right].
      rewrite <- Hin. unfold py_max. destruct (Qlt_bool x y); [right|]; now left.
    + constructor; [|constructor]; [| |exact Hrest].
      * eapply Qle_trans; [apply py_max_ge_l|exact Hm].
      * eapply Qle_trans; [apply py_max_ge_r|exact Hm].
Qed.

Lemma py_max_seq_spec (xs : list Q) (floor m : Q) :
  xs <> [] -> py_max_seq xs = Ok m -> max_or_floor xs floor m.
Proof.
  destruct xs as [|x rest]; [contradiction|]. intros _ H. inversion H.
  unfold max_or_floor. apply fold_py_max.
Qed.

(** ** The density of one region *)

Section DensityFacts.

Variable fc_rank : list Q.
Variable kmer_len : Z.
Variable min_density_val : Q.
Variable min_seq_len : Z.

(** What a region gets when the step goes through. *)
Lemma density_of_row_ok (row : DensityRow) (wd : npfloat) (m : Q) :
  density_of_row fc_rank kmer_len min_density_val min_seq_len row = Ok (wd, m) ->
  exists counts,
    parse_counts (obs_counts row) = Ok counts
    /\ (((seq_len row < min_seq_len)%Z /\ wd = Fin min_density_val /\ m = min_density_val)
        \/ ((min_seq_len <= seq_len row)%Z
            /\ wd = py_max_float
                      (np_sum (map (fun c => np_div c ((inject_Z (seq_len row)
                                                      - inject_Z kmer_len + 1) / 1000)%Q)
                                   (suppress fc_rank counts)))
                      (Fin min_density_val)
            /\ max_or_floor
                 (occurring_scores (fun fc => Qle_bool FC_FILTER fc) fc_rank counts)
                 min_density_val m)).
Proof.
  unfold density_of_row. intros H.
  destruct (parse_counts (obs_counts row)) as [counts|] eqn:Hparse; [|discriminate].
  exists counts. split; [reflexivity|].
  unfold mbind at 1, result_bind at 1 in H.
  destruct (np_setitem counts _ 0) as [l|] eqn:Hset; [|discriminate].
  apply setitem_suppress in Hset. subst l.
  unfold mbind at 1, result_bind at 1 in H.
  match type of H with
  | context [Nat.eqb (length ?inds) 0] => remember inds as nonzero eqn:Hnz
  end.
  assert (Hmax : forall mfc,
             (if Nat.eqb (length nonzero) 0 then Ok min_density_val
              else np_take fc_rank nonzero ≫= py_max_seq) = Ok mfc ->
             max_or_floor
               (occurring_scores (fun fc => Qle_bool FC_FILTER fc) fc_rank counts)
               min_density_val mfc).
  { intros mfc Hm. destruct (Nat.eqb_spec (length nonzero) 0) as [Hz|Hz].
    - inversion Hm; subst mfc. destruct nonzero; [|discriminate].
      assert (Ht : np_take fc_rank
                     (np_where (fun c => (1 <=? c)%Z) (suppress fc_rank counts)) = Ok [])
        by (rewrite <- Hnz; reflexivity).
      apply take_occurring in Ht. rewrite <- Ht. reflexivity.
    - unfold mbind, result_bind in Hm.
      destruct (np_take fc_rank nonzero) as [present|] eqn:Ht; [|discriminate].
      pose proof (np_take_length _ _ _ Ht) as Hlen.
      rewrite Hnz in Ht. apply take_occurring in Ht. rewrite <- Ht.
      apply py_max_seq_spec; [|exact Hm].
      destruct present; [simpl in Hlen; lia|discriminate]. }
  destruct (if Nat.eqb (length nonzero) 0 then Ok min_density_val
            else np_take fc_rank nonzero ≫= py_max_seq) as [mfc|] eqn:Hm;
    [|discriminate].
  specialize (Hmax mfc eq_refl).
  destruct (Z.ltb_spec (seq_len row) min_seq_len) as [Hshort|Hlong];
    inversion H; subst.
  - left. repeat split. exact Hshort.
  - right. split; [exact Hlong|]. split; [reflexivity|exact Hmax].
Qed.

(** When the step raises on a region whose counts parse. *)
Lemma density_of_row_raise (row : DensityRow) (counts : list Z) (e : pyerr) :
  parse_counts (obs_counts row) = Ok counts ->
  density_of_row fc_rank kmer_len min_density_val min_seq_len row = Raise e <->
  e = IndexError /\ touches_missing_index fc_rank counts.
Proof.
  intros Hparse. unfold density_of_row, touches_missing_index. rewrite Hparse.
  unfold mbind at 1, result_bind at 1.
  destruct (np_setitem counts _ 0) as [l|e'] eqn:Hset.
  - pose proof (setitem_suppress _ _ _ Hset) as Hl. subst l.
    unfold mbind at 1, result_bind at 1.
    assert (Hno : ~ exists i fc, fc_rank !! i = Some fc /\ (fc < FC_FILTER)%Q
                                 /\ (length counts <= i)%nat).
    { intros Hex.
      assert (Hr : np_setitem counts
                     (np_where (fun fc => Qlt_bool fc FC_FILTER) fc_rank) 0
                   = Raise IndexError) by (apply setitem_suppress_raise; eauto).
      rewrite Hset in Hr. discriminate Hr. }
    match goal with
    | |- context [Nat.eqb (length ?inds) 0] => remember inds as nonzero eqn:Hnz
    end.
    destruct (Nat.eqb_spec (length nonzero) 0) as [Hz|Hz].
    + destruct (seq_len row <? min_seq_len)%Z; (split; [discriminate|]);
        (intros (_ & [Hex|(j & c & Hc & Hge & Hle)]); [contradiction|]);
        (assert (Hr : np_take fc_rank nonzero = Raise IndexError)
           by (rewrite Hnz; apply take_occurring_raise; split;
               [reflexivity|exists j, c; auto]));
        (destruct nonzero; [discriminate Hr|discriminate Hz]).
    + unfold mbind at 1, result_bind at 1.
      destruct (np_take fc_rank nonzero) as [present|e''] eqn:Ht.
      * pose proof (np_take_length _ _ _ Ht) as Hlen.
        destruct present as [|x rest]; [simpl in Hlen; lia|]. simpl py_max_seq.
        cbv iota beta.
        destruct (seq_len row <? min_seq_len)%Z; (split; [discriminate|]);
          (intros (_ & [Hex|(j & c & Hc & Hge & Hle)]); [contradiction|]);
          (assert (Hr : np_take fc_rank nonzero = Raise IndexError)
             by (rewrite Hnz; apply take_occurring_raise; split;
               [reflexivity|exists j, c; auto]));
          rewrite Ht in Hr; discriminate Hr.
      * rewrite Hnz in Ht. apply take_occurring_raise in Ht.
        destruct Ht as (-> & Hex). split.
        -- intros H; inversion H. split; [reflexivity|]. now right.
        -- intros (-> & _). reflexivity.
  - apply setitem_suppress_raise in Hset. destruct Hset as (-> & Hex). split.
    + intros H; inversion H. split; [reflexivity|]. now left.
    + intros (-> & _). reflexivity.
Qed.

End DensityFacts.

(** ** Sums and floors of densities *)

Lemma np_div_finite (c : Z) (d : Q) : ~ (d == 0)%Q -> np_div c d = Fin (inject_Z c / d).
Proof.
  intros Hd. unfold np_div. destruct (Qeq_bool d 0) eqn:E; [|reflexivity].
  apply Qeq_bool_iff in E. contradiction.
Qed.

Lemma np_sum_finite_from (d : Q) (l : list Z) (acc : Q) :
  ~ (d == 0)%Q ->
  exists q, fold_left np_add (map (fun c => np_div c d) l) (Fin acc) = Fin q
            /\ (q == acc + inject_Z (Zsum l) / d)%Q.
Proof.
  intros Hd. revert acc. induction l as [|c l IH]; intros acc; simpl.
  - exists acc. split; [reflexivity|]. unfold Qdiv. ring.
  - rewrite np_div_finite by exact Hd. simpl np_add.
    destruct (IH (acc + inject_Z c / d)%Q) as (q & Hq & Heq).
    exists q. split; [exact Hq|]. rewrite Heq, inject_Z_plus. field. exact Hd.
Qed.

Lemma np_sum_finite (d : Q) (l : list Z) :
  ~ (d == 0)%Q ->
  exists q, np_sum (map (fun c => np_div c d) l) = Fin q
            /\ (q == inject_Z (Zsum l) / d)%Q.
Proof.
  intros Hd. destruct (np_sum_finite_from d l 0 Hd) as (q & Hq & Heq).
  exists q. split; [exact Hq|]. rewrite Heq. ring.
Qed.

Lemma py_max_float_finite (a b : Q) :
  exists q, py_max_float (Fin a) (Fin b) = Fin q /\ (q == Qmax a b)%Q /\ (b <= q)%Q.
Proof.
  unfold py_max_float. simpl np_gt. destruct (Qlt_bool a b) eqn:E.
  - apply Qlt_bool_true in E. exists b. split; [reflexivity|].
    split; [|apply Qle_refl]. symmetry. apply Q.max_r. now apply Qlt_le_weak.
  - apply Qlt_bool_false in E. exists a. split; [reflexivity|].
    split; [|exact E]. symmetry. now apply Q.max_l.
Qed.

Lemma len_denom_effective (seq_len kmer_len : Z) :
  ((inject_Z seq_len - inject_Z kmer_len + 1) / 1000
   == effective_length_kb seq_len kmer_len)%Q.
Proof.
  unfold effective_length_kb. unfold Zminus.
  rewrite !inject_Z_plus, inject_Z_opp. unfold Qdiv.
  change (inject_Z 1) with 1%Q. ring.
Qed.

Lemma effective_length_nonzero (seq_len kmer_len : Z) :
  (seq_len - kmer_len + 1 <> 0)%Z -> ~ (effective_length_kb seq_len kmer_len == 0)%Q.
Proof.
  intros Hne Heq. unfold effective_length_kb in Heq.
  apply Hne. unfold Qeq in Heq. simpl in Heq. lia.
Qed.

(** The weighted density of a region whose effective length is not zero. *)
Lemma weighted_density_finite (floor : Q) (seq_len kmer_len : Z) (counts : list Z) :
  (seq_len - kmer_len + 1 <> 0)%Z ->
  exists q,
    py_max_float
      (np_sum (map (fun c => np_div c ((inject_Z seq_len - inject_Z kmer_len + 1) / 1000)%Q)
                   counts))
      (Fin floor) = Fin q
    /\ (q == Qmax (inject_Z (Zsum counts) / effective_length_kb seq_len kmer_len) floor)%Q
    /\ (floor <= q)%Q.
Proof.
  intros Hne.
  assert (Hd : ~ ((inject_Z seq_len - inject_Z kmer_len + 1) / 1000 == 0)%Q).
  { rewrite len_denom_effective. now apply effective_length_nonzero. }
  destruct (np_sum_finite _ counts Hd) as (s & Hs & Hseq). rewrite Hs.
  destruct (py_max_float_finite s floor) as (q & Hq & Hmax & Hfloor).
  exists q. split; [exact Hq|]. split; [|exact Hfloor].
  rewrite Hmax, Hseq, len_denom_effective. reflexivity.
Qed.

(** ** The logarithm of a floored density *)

Lemma ln_le_compat (a b : R) : (0 < a)%R -> (a <= b)%R -> (ln a <= ln b)%R.
Proof.
  intros Ha [Hlt|Heq].
  - left. now apply ln_increasing.
  - subst. right. reflexivity.
Qed.

Lemma ln_inv_256 : ln (/ 256) = (- 8 * ln 2)%R.
Proof.
  rewrite ln_Rinv by Lra.lra.
  replace 256%R with (2 ^ 8)%R by (simpl; Lra.lra).
  rewrite ln_pow by Lra.lra. simpl INR. Lra.lra.
Qed.

Lemma np_log2_floor (q : Q) :
  (min_density_val_default <= q)%Q -> xreal_ge (np_log2 (Fin q)) (-8).
Proof.
  intros Hq. unfold np_log2.
  destruct (Qlt_le_dec 0 q) as [Hpos|Hneg].
  2:{ exfalso. unfold min_density_val_default in Hq.
      assert (H : (1 # 256 <= 0)%Q) by (eapply Qle_trans; eassumption).
      unfold Qle in H. simpl in H. lia. }
  simpl.
  assert (Hl2 : (0 < ln 2)%R).
  { pose proof ln_lt_2. Lra.lra. }
  assert (Hfloor : (/ 256 <= Q2R q)%R).
  { apply Qreals.Qle_Rle in Hq.
    change (Q2R min_density_val_default) with (1 * / 256)%R in Hq. Lra.lra. }
  assert (Hge : (ln (/ 256) <= ln (Q2R q))%R).
  { apply ln_le_compat; [Lra.lra|exact Hfloor]. }
  rewrite ln_inv_256 in Hge.
  unfold Rdiv. apply Rmult_le_reg_r with (ln 2); [exact Hl2|].
  rewrite Rmult_assoc, Rinv_l by Lra.lra. Lra.lra.
Qed.

(** ** The loop over the regions *)

Section LoopFacts.

Variable fc_rank : list Q.
Variable kmer_len : Z.
Variable min_density_val : Q.
Variable min_seq_len : Z.

Lemma density_loop_ok (rows : list DensityRow) wds fcs wds' fcs' :
  density_loop fc_rank kmer_len min_density_val min_seq_len rows wds fcs = Ok (wds', fcs') ->
  exists outs,
    Forall2 (fun row out => density_of_row fc_rank kmer_len min_density_val min_seq_len row = Ok out) rows outs
    /\ wds' = (wds ++ map fst outs)%list
    /\ fcs' = (fcs ++ map snd outs)%list.
Proof.
  revert wds fcs. induction rows as [|row rows IH]; intros wds fcs H; simpl in H.
  - inversion H. exists []. split; [constructor|]. now rewrite !app_nil_r.
  - unfold mbind, result_bind in H.
    destruct (density_of_row _ _ _ _ row) as [[wd m]|] eqn:E; [|discriminate].
    destruct (IH _ _ H) as (outs & Hall & -> & ->).
    exists ((wd, m) :: outs). split; [now constructor|].
    simpl. now rewrite <- !app_assoc.
Qed.

Lemma density_loop_raise (rows : list DensityRow) wds fcs e :
  density_loop fc_rank kmer_len min_density_val min_seq_len rows wds fcs = Raise e ->
  exists row, In row rows /\ density_of_row fc_rank kmer_len min_density_val min_seq_len row = Raise e.
Proof.
  revert wds fcs. induction rows as [|row rows IH]; intros wds fcs H; simpl in H.
  - discriminate.
  - unfold mbind, result_bind in H.
    destruct (density_of_row _ _ _ _ row) as [[wd m]|e'] eqn:E.
    + destruct (IH _ _ H) as (r & Hin & Hr). exists r. split; [now right|exact Hr].
    + inversion H; subst. exists row. split; [now left|exact E].
Qed.

Lemma density_loop_total (rows : list DensityRow) wds fcs :
  Forall (fun row => is_ok (density_of_row fc_rank kmer_len min_density_val min_seq_len row) = true) rows ->
  exists wds' fcs', density_loop fc_rank kmer_len min_density_val min_seq_len rows wds fcs = Ok (wds', fcs').
Proof.
  intros Hall. revert wds fcs.
  induction Hall as [|row rows Hrow _ IH]; intros wds fcs; simpl.
  - eauto.
  - destruct (density_of_row _ _ _ _ row) as [[wd m]|]; [|discriminate].
    unfold mbind, result_bind. apply IH.
Qed.

End LoopFacts.

Lemma no_missing_index_when_aligned (fc_rank : list Q) (counts : list Z) :
  touches_missing_index fc_rank counts -> length counts <> length fc_rank.
Proof.
  intros [(i & fc & Hfc & _ & Hle)|(j & c & Hc & _ & Hle)] Heq.
  - apply lookup_lt_Some in Hfc. lia.
  - apply lookup_lt_Some in Hc. lia.
Qed.

Lemma density_of_row_total fc_rank kmer_len floor min_len row counts :
  parse_counts (obs_counts row) = Ok counts ->
  length counts = length fc_rank ->
  exists wd m, density_of_row fc_rank kmer_len floor min_len row = Ok (wd, m).
Proof.
  intros Hparse Hlen.
  destruct (density_of_row fc_rank kmer_len floor min_len row) as [[wd m]|e] eqn:E.
  - eauto.
  - apply (density_of_row_raise _ _ _ _ _ counts e Hparse) in E.
    destruct E as [_ E]. now apply no_missing_index_when_aligned in E.
Qed.

(** ** Maximum fold change and weighted density of a region *)

(** C1, as the code has it: for a region of sequence length >= 15 whose
    count vector is aligned with the enriched kmers, the reported
    maximum fold change is the greatest enrichment score among the kmers
    that occur at least once and whose score is at least the filter 2.0
    (the kmers whose count is still >= 1 after suppression), and it is
    the floor 2^(-8) when there is no such kmer. *)
Theorem max_fc_over_filtered_occurrences :
  forall (fc_rank : list Q) (kmer_len : Z) (row : DensityRow) (counts : list Z),
    parse_counts (obs_counts row) = Ok counts ->
    length counts = length fc_rank ->
    (min_seq_len_default <= seq_len row)%Z ->
    exists wd m,
      density_of_row fc_rank kmer_len min_density_val_default min_seq_len_default row
        = Ok (wd, m)
      /\ max_or_floor (occurring_scores keep_filtered fc_rank counts)
                      min_density_val_default m.
Proof.
  intros fc_rank kmer_len row counts Hparse Hlen Hlong.
  destruct (density_of_row_total fc_rank kmer_len min_density_val_default
              min_seq_len_default row counts Hparse Hlen) as (wd & m & E).
  exists wd, m. split; [exact E|].
  destruct (density_of_row_ok _ _ _ _ _ _ _ E) as (counts' & Hparse' & Hcases).
  rewrite Hparse in Hparse'. inversion Hparse'; subst counts'.
  destruct Hcases as [(Hshort & _)|(_ & _ & Hmax)]; [lia|exact Hmax].
Qed.

Lemma max_fc_over_filtered_occurrences_witness :
  exists wd m,
    density_of_row example_fc_rank 4 min_density_val_default min_seq_len_default
      example_row = Ok (wd, m)
    /\ max_or_floor (occurring_scores keep_filtered example_fc_rank example_counts)
                    min_density_val_default m.
Proof.
  apply (max_fc_over_filtered_occurrences example_fc_rank 4 example_row example_counts).
  - reflexivity.
  - reflexivity.
  - unfold min_seq_len_default. simpl. lia.
Defined.

(** A region where the only kmer that occurs has a score below the
    filter: it occurs three times, and the floor is reported, not its
    score 1.5. *)
Lemma max_fc_not_over_raw_occurrences : ~ max_fc_over keep_all.
Proof.
  intros H.
  destruct (H [3 # 2]%Q 4 weak_only_row [3] eq_refl eq_refl) as (wd & m & E & Hmax).
  - unfold min_seq_len_default. simpl. lia.
  - vm_compute in E. inversion E; subst m.
    destruct Hmax as [[Hin|[]] _]. discriminate Hin.
Qed.

(** C2: for a region of sequence length >= 15, the weighted density is
    max(sum(c_i') / ((sequence_length - k + 1) / 1000), 2^(-8)), where
    the c_i' are the observed counts with the count of every kmer whose
    score is below the filter 2.0 set to zero. *)
Theorem weighted_density_formula :
  forall (fc_rank : list Q) (kmer_len : Z) (row : DensityRow) (counts : list Z),
    parse_counts (obs_counts row) = Ok counts ->
    length counts = length fc_rank ->
    (min_seq_len_default <= seq_len row)%Z ->
    (seq_len row - kmer_len + 1 <> 0)%Z ->
    exists wd m,
      density_of_row fc_rank kmer_len min_density_val_default min_seq_len_default row
        = Ok (Fin wd, m)
      /\ (wd == Qmax (inject_Z (Zsum (suppress fc_rank counts))
                      / (inject_Z (seq_len row - kmer_len + 1) / 1000))
                     (1 # 256))%Q.
Proof.
  intros fc_rank kmer_len row counts Hparse Hlen Hlong Hne.
  destruct (density_of_row_total fc_rank kmer_len min_density_val_default
              min_seq_len_default row counts Hparse Hlen) as (wd & m & E).
  destruct (density_of_row_ok _ _ _ _ _ _ _ E) as (counts' & Hparse' & Hcases).
  rewrite Hparse in Hparse'. inversion Hparse'; subst counts'.
  destruct Hcases as [(Hshort & _)|(_ & Hwd & _)]; [lia|].
  destruct (weighted_density_finite min_density_val_default (seq_len row) kmer_len
              (suppress fc_rank counts) Hne) as (q & Hq & Heq & _).
  rewrite Hq in Hwd. subst wd. exists q, m. split; [exact E|exact Heq].
Qed.

Lemma weighted_density_formula_witness :
  exists wd m,
    density_of_row example_fc_rank 4 min_density_val_default min_seq_len_default
      example_row = Ok (Fin wd, m)
    /\ (wd == Qmax (inject_Z (Zsum (suppress example_fc_rank example_counts))
                    / (inject_Z (seq_len example_row - 4 + 1) / 1000))
                   (1 # 256))%Q.
Proof.
  apply (weighted_density_formula example_fc_rank 4 example_row example_counts).
  - reflexivity.
  - reflexivity.
  - unfold min_seq_len_default. simpl. lia.
  - simpl. lia.
Defined.

(** ** Floors *)

Lemma density_of_row_floor fc_rank kmer_len row wd m :
  (kmer_len <= min_seq_len_default)%Z ->
  density_of_row fc_rank kmer_len min_density_val_default min_seq_len_default row
    = Ok (wd, m) ->
  exists q, wd = Fin q /\ (min_density_val_default <= q)%Q.
Proof.
  intros Hk E.
  destruct (density_of_row_ok _ _ _ _ _ _ _ E) as (counts & _ & Hcases).
  destruct Hcases as [(_ & -> & _)|(Hlong & Hwd & _)].
  - exists min_density_val_default. split; [reflexivity|apply Qle_refl].
  - destruct (weighted_density_finite min_density_val_default (seq_len row) kmer_len
                (suppress fc_rank counts) ltac:(lia)) as (q & Hq & _ & Hfloor).
    rewrite Hq in Hwd. exists q. split; [exact Hwd|exact Hfloor].
Qed.

Lemma density_of_row_max_fc fc_rank kmer_len floor min_len row wd m :
  density_of_row fc_rank kmer_len floor min_len row = Ok (wd, m) ->
  m = floor \/ (FC_FILTER <= m)%Q.
Proof.
  intros E.
  destruct (density_of_row_ok _ _ _ _ _ _ _ E) as (counts & _ & Hcases).
  destruct Hcases as [(_ & _ & ->)|(_ & _ & Hmax)]; [now left|].
  unfold max_or_floor in Hmax.
  destruct (occurring_scores _ fc_rank counts) as [|x rest] eqn:Hocc; [now left|].
  right. destruct Hmax as [Hin _]. rewrite <- Hocc in Hin.
  apply occurring_scores_kept in Hin. now apply Qle_bool_iff.
Qed.

Lemma add_rank_weighted_densities_ok fc_rank kmer_len floor min_len t t' :
  add_rank_weighted_densities fc_rank kmer_len floor min_len t = (Ok tt, t') ->
  exists outs,
    Forall2 (fun row out => density_of_row fc_rank kmer_len floor min_len row = Ok out)
            (density_rows t) outs
    /\ density_rows t' = density_rows t
    /\ log2_weighted_density t' = Some (map np_log2 (map fst outs))
    /\ max_kmer_fc t' = Some (map snd outs).
Proof.
  unfold add_rank_weighted_densities. intros H.
  destruct (density_loop _ _ _ _ (density_rows t) [] []) as [[wds fcs]|] eqn:E;
    [|discriminate].
  destruct (density_loop_ok _ _ _ _ _ _ _ _ _ E) as (outs & Hall & -> & ->).
  inversion H; subst t'. exists outs. simpl. repeat split; assumption || reflexivity.
Qed.

Lemma kmer_lens_short : Forall (fun k => (k <= min_seq_len_default)%Z) kmer_lens.
Proof. unfold kmer_lens, min_seq_len_default. repeat constructor; lia. Qed.

(** The bound on the kmer length is what keeps the effective length of a
    region of 15 bases or more away from zero.  With kmers of length 16
    a region of 15 bases has no start position: its counts are zero, the
    division is 0/0 and the builtin max keeps the NaN. *)
Lemma zero_effective_length_is_nan :
  density_of_row [3; 5 # 2]%Q 16 min_density_val_default min_seq_len_default no_start_row
  = Ok (NaN, min_density_val_default).
Proof. reflexivity. Qed.




(** C10: the maximum fold change reported for a region is either the
    floor 2^(-8) or at least the filter 2.0; the counts of the kmers
    below the filter are zero when the occurring kmers are looked up, so
    no score in between is reported. *)
Theorem max_kmer_fc_floor_or_filtered :
  (forall (fc_rank : list Q) (kmer_len : Z) (row : DensityRow) (wd : npfloat) (m : Q),
      density_of_row fc_rank kmer_len min_density_val_default min_seq_len_default row
        = Ok (wd, m) ->
      m = (1 # 256)%Q \/ (2 <= m)%Q)
  /\ (forall (fc_rank : list Q) (kmer_len : Z) (t t' : DensityTable),
         add_rank_weighted_densities fc_rank kmer_len min_density_val_default
           min_seq_len_default t = (Ok tt, t') ->
         exists column,
           max_kmer_fc t' = Some column
           /\ length column = length (density_rows t)
           /\ Forall (fun m => m = (1 # 256)%Q \/ (2 <= m)%Q) column).
Proof.
  split.
  - intros fc_rank kmer_len row wd m E. exact (density_of_row_max_fc _ _ _ _ _ _ _ E).
  - intros fc_rank kmer_len t t' H.
    destruct (add_rank_weighted_densities_ok _ _ _ _ _ _ H) as (outs & Hall & _ & _ & Hcol).
    exists (map snd outs). split; [exact Hcol|]. split.
    + rewrite length_map. symmetry. exact (Forall2_length _ _ _ Hall).
    + clear Hcol H. induction Hall as [|row [wd m] rows outs Hrow _ IH]; simpl.
      * constructor.
      * constructor; [|exact IH]. exact (density_of_row_max_fc _ _ _ _ _ _ _ Hrow).
Qed.

Lemma max_kmer_fc_floor_or_filtered_witness :
  exists column,
    max_kmer_fc
      (snd (add_rank_weighted_densities example_fc_rank 4 min_density_val_default
              min_seq_len_default example_densities)) = Some column
    /\ length column = length (density_rows example_densities)
    /\ Forall (fun m => m = (1 # 256)%Q \/ (2 <= m)%Q) column.
Proof.
  apply (proj2 max_kmer_fc_floor_or_filtered example_fc_rank 4 example_densities).
  reflexivity.
Defined.

(** ** Failures of the density step *)

(** C8, as the code has it: there is no check of the length of the count
    vector and no error of its own.  On a region whose counts parse, the
    step raises exactly when it touches an index that one of the two
    vectors lacks (a kmer below the filter without a count, or a count
    >= 1 without a kmer), the exception is the IndexError of the array
    access, and this happens only when the two lengths differ.  When the
    step raises, the table is left as it was: no column is attached. *)
Theorem density_step_raises_on_missing_index :
  (forall (fc_rank : list Q) (kmer_len : Z) (row : DensityRow) (counts : list Z)
          (e : pyerr),
      parse_counts (obs_counts row) = Ok counts ->
      (density_of_row fc_rank kmer_len min_density_val_default min_seq_len_default row
         = Raise e
       <-> e = IndexError /\ touches_missing_index fc_rank counts))
  /\ (forall (fc_rank : list Q) (counts : list Z),
         touches_missing_index fc_rank counts -> length counts <> length fc_rank)
  /\ (forall (fc_rank : list Q) (kmer_len : Z) (t t' : DensityTable) (e : pyerr),
         add_rank_weighted_densities fc_rank kmer_len min_density_val_default
           min_seq_len_default t = (Raise e, t') ->
         t' = t
         /\ exists row,
              In row (density_rows t)
              /\ density_of_row fc_rank kmer_len min_density_val_default
                   min_seq_len_default row = Raise e).
Proof.
  split; [|split].
  - intros fc_rank kmer_len row counts e Hparse.
    now apply density_of_row_raise.
  - exact no_missing_index_when_aligned.
  - intros fc_rank kmer_len t t' e H. unfold add_rank_weighted_densities in H.
    destruct (density_loop _ _ _ _ (density_rows t) [] []) as [[wds fcs]|e'] eqn:E;
      [discriminate|].
    inversion H; subst. split; [reflexivity|].
    exact (density_loop_raise _ _ _ _ _ _ _ _ E).
Qed.

Lemma density_step_raises_on_missing_index_witness :
  density_of_row [3%Q] 4 min_density_val_default min_seq_len_default unmatched_count_row
    = Raise IndexError
  <-> IndexError = IndexError /\ touches_missing_index [3%Q] [1; 2].
Proof.
  apply (proj1 density_step_raises_on_missing_index [3%Q] 4 unmatched_count_row [1; 2]).
  reflexivity.
Defined.

(** A count vector with one count more than there are kmers goes through
    when the extra count is zero. *)
Lemma length_mismatch_goes_through : ~ fails_iff_length_mismatch.
Proof.
  intros H.
  destruct (H [3%Q] 4 longer_counts_row [1; 0] eq_refl) as [_ Hfail].
  specialize (Hfail ltac:(discriminate)). vm_compute in Hfail. discriminate Hfail.
Qed.

(** * Further properties of the code *)

(** ** Rescaling *)

(** [rescale_score] sends the ends of the old scale to the ends of the
    new one. *)
Theorem rescale_score_endpoints :
  forall OldMin OldMax NewMin NewMax : Q,
    ~ (OldMax == OldMin)%Q ->
    exists lo hi,
      rescale_score unrounded OldMin OldMin OldMax NewMin NewMax = Ok lo
      /\ rescale_score unrounded OldMax OldMin OldMax NewMin NewMax = Ok hi
      /\ (lo == NewMin)%Q /\ (hi == NewMax)%Q.
Proof.
  intros OldMin OldMax NewMin NewMax Hne. unfold rescale_score, unrounded.
  assert (Hd : ~ (OldMax - OldMin == 0)%Q) by (intros H; apply Hne; Lqa.lra).
  destruct (Qeq_bool (OldMax - OldMin) 0) eqn:E.
  { apply Qeq_bool_iff in E. contradiction. }
  eexists _, _. split; [reflexivity|]. split; [reflexivity|]. split.
  - field. exact Hd.
  - field. exact Hd.
Qed.

Lemma rescale_score_endpoints_witness :
  exists lo hi,
    rescale_score unrounded 1 1 fc_ceiling 1 1000 = Ok lo
    /\ rescale_score unrounded fc_ceiling 1 fc_ceiling 1 1000 = Ok hi
    /\ (lo == 1)%Q /\ (hi == 1000)%Q.
Proof.
  apply (rescale_score_endpoints 1 fc_ceiling 1 1000).
  unfold fc_ceiling, Qeq. simpl. lia.
Defined.

(** On an increasing old scale and a non-decreasing new one,
    [rescale_score] keeps the order of the values. *)
Theorem rescale_score_monotone :
  forall OldMin OldMax NewMin NewMax v w : Q,
    (OldMin < OldMax)%Q -> (NewMin <= NewMax)%Q -> (v <= w)%Q ->
    exists rv rw,
      rescale_score unrounded v OldMin OldMax NewMin NewMax = Ok rv
      /\ rescale_score unrounded w OldMin OldMax NewMin NewMax = Ok rw
      /\ (rv <= rw)%Q.
Proof.
  intros OldMin OldMax NewMin NewMax v w Hold Hnew Hvw. unfold rescale_score, unrounded.
  destruct (Qeq_bool (OldMax - OldMin) 0) eqn:E.
  { apply Qeq_bool_iff in E. exfalso. Lqa.lra. }
  eexists _, _. split; [reflexivity|]. split; [reflexivity|].
  apply Qplus_le_l. unfold Qdiv. apply Qmult_le_compat_r.
  - apply Qmult_le_compat_r; Lqa.lra.
  - apply Qlt_le_weak, Qinv_lt_0_compat. Lqa.lra.
Qed.

Lemma rescale_score_monotone_witness :
  exists rv rw,
    rescale_score unrounded 2 1 fc_ceiling 1 255 = Ok rv
    /\ rescale_score unrounded 3 1 fc_ceiling 1 255 = Ok rw
    /\ (rv <= rw)%Q.
Proof.
  apply (rescale_score_monotone 1 fc_ceiling 1 255 2 3);
    unfold fc_ceiling, Qlt, Qle; simpl; lia.
Defined.

(** ** Scores and colours *)

Lemma py_int_floor (x : Q) : (0 <= x)%Q -> py_int x = Qfloor x.
Proof.
  destruct x as [n d]. unfold Qle, py_int, Qfloor. simpl. intros H.
  apply Z.quot_div_nonneg; lia.
Qed.

Lemma py_int_ceiling (x : Q) : (x <= 0)%Q -> py_int x = Qceiling x.
Proof.
  destruct x as [n d]. unfold Qle, py_int, Qceiling, Qfloor. simpl. intros H.
  rewrite <- (Z.opp_involutive n) at 1. rewrite Z.quot_opp_l by lia.
  f_equal. apply Z.quot_div_nonneg; lia.
Qed.

Lemma py_int_mono (x y : Q) : (x <= y)%Q -> (py_int x <= py_int y)%Z.
Proof.
  intros Hxy. destruct (Qlt_le_dec x 0) as [Hx|Hx], (Qlt_le_dec y 0) as [Hy|Hy].
  - rewrite !py_int_ceiling by now apply Qlt_le_weak. now apply Qceiling_resp_le.
  - rewrite (py_int_ceiling x) by now apply Qlt_le_weak.
    rewrite (py_int_floor y) by exact Hy.
    pose proof (Qceiling_resp_le x 0 (Qlt_le_weak _ _ Hx)) as H1.
    pose proof (Qfloor_resp_le 0 y Hy) as H2.
    change (Qceiling 0) with 0%Z in H1. change (Qfloor 0) with 0%Z in H2. lia.
  - exfalso. Lqa.lra.
  - rewrite !py_int_floor by assumption. now apply Qfloor_resp_le.
Qed.

Lemma score_linear (fc : Q) : ((fc - 1) * 999 / 3 + 1 == 333 * fc - 332)%Q.
Proof. field. Qed.

Lemma color_linear (fc : Q) : ((fc - 1) * 254 / 3 + 1 == (254 # 3) * fc - (251 # 3))%Q.
Proof. field. Qed.

(** The score written for a fold change is at most 1000 and the colour
    at most 255; they are at least 1 exactly when the fold change is at
    least 1, and they are 1000 and 255 from the ceiling 4 on.  Below a
    fold change of 1 the score is zero or negative. *)
Theorem kmer_score_bounds :
  forall fc : Q,
    exists s c,
      kmer_score_of unrounded fc = Ok s /\ kmer_color_of unrounded fc = Ok c
      /\ (s <= 1000)%Z /\ (c <= 255)%Z
      /\ ((1 <= s)%Z <-> (1 <= fc)%Q)
      /\ ((1 <= c)%Z <-> (1 <= fc)%Q)
      /\ ((fc_ceiling <= fc)%Q -> s = 1000%Z /\ c = 255%Z).
Proof.
  intros fc. rewrite kmer_score_of_unrounded, kmer_color_of_unrounded.
  eexists _, _. split; [reflexivity|]. split; [reflexivity|].
  split; [lia|]. split; [lia|].
  assert (Hlow : forall a : Q, (0 < a)%Q ->
            ((1 <= py_int ((fc - 1) * a / 3 + 1))%Z <-> (1 <= fc)%Q)).
  { intros a Ha. split.
    - intros H. destruct (Qlt_le_dec fc 1) as [Hlt|Hge]; [|exact Hge]. exfalso.
      assert (Hx : ((fc - 1) * a / 3 + 1 <= 1)%Q).
      { assert (0 <= (1 - fc) * a)%Q by (apply Qmult_le_0_compat; Lqa.lra).
        assert (Heq : ((fc - 1) * a / 3 + 1 == 1 - (1 - fc) * a / 3)%Q) by field.
        rewrite Heq. unfold Qdiv.
        assert (0 <= (1 - fc) * a * / 3)%Q
          by (apply Qmult_le_0_compat; [assumption|unfold Qle; simpl; lia]).
        Lqa.lra. }
      destruct (Qle_lt_or_eq _ _ Hx) as [Hlt1|Heq1].
      + assert (Hne : ((fc - 1) * a / 3 + 1 < inject_Z 1)%Q) by exact Hlt1.
        pose proof (py_int_le _ 1 ltac:(lia) (Qlt_le_weak _ _ Hne)) as Hle.
        assert (py_int ((fc - 1) * a / 3 + 1) = 1%Z) by lia.
        destruct (Qlt_le_dec ((fc - 1) * a / 3 + 1) 0) as [Hneg|Hpos].
        * pose proof (py_int_mono _ _ (Qlt_le_weak _ _ Hneg)) as Hm.
          change (py_int 0) with 0%Z in Hm. lia.
        * rewrite py_int_floor in H0 by exact Hpos.
          pose proof (Qlt_floor ((fc - 1) * a / 3 + 1)) as Hfl. rewrite H0 in Hfl.
          pose proof (Qfloor_le ((fc - 1) * a / 3 + 1)) as Hfl2. rewrite H0 in Hfl2.
          change (inject_Z 1) with 1%Q in *. Lqa.lra.
      + assert (Hz : ((fc - 1) * a == 0)%Q).
        { assert (Hq : ((fc - 1) * a / 3 == 0)%Q) by Lqa.lra.
          assert (Heq : ((fc - 1) * a == 3 * ((fc - 1) * a / 3))%Q) by field.
          rewrite Heq, Hq. reflexivity. }
        apply Qmult_integral in Hz. destruct Hz; Lqa.lra.
    - intros Hge. apply (py_int_ge _ 1); [lia|]. change (inject_Z 1) with 1%Q.
      assert (0 <= (fc - 1) * a * / 3)%Q.
      { apply Qmult_le_0_compat; [|unfold Qle; simpl; lia].
        apply Qmult_le_0_compat; Lqa.lra. }
      unfold Qdiv. Lqa.lra. }
  split; [|split].
  - destruct (Hlow 999%Q ltac:(reflexivity)) as [H1 H2].
    split; intros H; [apply H1; lia|specialize (H2 H); lia].
  - destruct (Hlow 254%Q ltac:(reflexivity)) as [H1 H2].
    split; intros H; [apply H1; lia|specialize (H2 H); lia].
  - unfold fc_ceiling. intros Hfc. split.
    + assert (1000 <= py_int ((fc - 1) * 999 / 3 + 1))%Z; [|lia].
      apply py_int_ge; [lia|]. change (inject_Z 1000) with 1000%Q.
      rewrite score_linear. Lqa.lra.
    + assert (255 <= py_int ((fc - 1) * 254 / 3 + 1))%Z; [|lia].
      apply py_int_ge; [lia|]. change (inject_Z 255) with 255%Q.
      rewrite color_linear. Lqa.lra.
Qed.

(** A greater fold change never gets a smaller score or colour. *)
Theorem kmer_score_monotone :
  forall fc fc' : Q,
    (fc <= fc')%Q ->
    exists s s' c c',
      kmer_score_of unrounded fc = Ok s /\ kmer_score_of unrounded fc' = Ok s'
      /\ kmer_color_of unrounded fc = Ok c /\ kmer_color_of unrounded fc' = Ok c'
      /\ (s <= s')%Z /\ (c <= c')%Z.
Proof.
  intros fc fc' H. rewrite !kmer_score_of_unrounded, !kmer_color_of_unrounded.
  eexists _, _, _, _. repeat (split; [reflexivity|]).
  assert (H1 : (py_int ((fc - 1) * 999 / 3 + 1) <= py_int ((fc' - 1) * 999 / 3 + 1))%Z)
    by (apply py_int_mono; rewrite !score_linear; Lqa.lra).
  assert (H2 : (py_int ((fc - 1) * 254 / 3 + 1) <= py_int ((fc' - 1) * 254 / 3 + 1))%Z)
    by (apply py_int_mono; rewrite !color_linear; Lqa.lra).
  lia.
Qed.

Lemma kmer_score_monotone_witness :
  exists s s' c c',
    kmer_score_of unrounded (1 # 2) = Ok s /\ kmer_score_of unrounded 3 = Ok s'
    /\ kmer_color_of unrounded (1 # 2) = Ok c /\ kmer_color_of unrounded 3 = Ok c'
    /\ (s <= s')%Z /\ (c <= c')%Z.
Proof.
  apply (kmer_score_monotone (1 # 2) 3). unfold Qle. simpl. lia.
Defined.

(** ** What the BED output writes *)

Lemma writes_nothing_lift {A} (r : result A) : writes_nothing (lift r).
Proof. intros buf. reflexivity. Qed.

Lemma writes_nothing_ret {A} (a : A) : writes_nothing (mret a : bedM A).
Proof. intros buf. reflexivity. Qed.

Lemma writes_nothing_bind {A B} (m : bedM A) (f : A -> bedM B) :
  writes_nothing m -> (forall a, writes_nothing (f a)) -> writes_nothing (m ≫= f).
Proof.
  intros Hm Hf buf. unfold mbind, bedM_bind.
  specialize (Hm buf). destruct (m buf) as [[a|e] buf']; simpl in *.
  - subst buf'. apply Hf.
  - exact Hm.
Qed.

Lemma writes_nothing_for_each {X} (xs : list X) (body : X -> bedM unit) :
  (forall x, writes_nothing (body x)) -> writes_nothing (for_each xs body).
Proof.
  intros Hbody. induction xs as [|x xs IH]; simpl.
  - apply writes_nothing_ret.
  - apply writes_nothing_bind; [apply Hbody|]. intros _. exact IH.
Qed.

Lemma bed_occurrence_shaped fc_map seq_chrom seq_end seq_strand kmer_seq kmer_start :
  writes_only minus_strand_shaped
    (bed_occurrence fc_map seq_chrom seq_end seq_strand kmer_seq kmer_start).
Proof.
  unfold bed_occurrence.
  apply writes_only_bind; [apply writes_only_lift|]. intros fc.
  apply writes_only_bind; [apply writes_only_lift|]. intros s.
  apply writes_only_bind; [apply writes_only_lift|]. intros c.
  destruct (String.eqb seq_strand "-") eqn:E; [|apply writes_only_ret].
  apply String.eqb_eq in E. subst seq_strand.
  apply writes_only_bind; [apply writes_only_lift|]. intros n.
  apply writes_only_write. unfold minus_strand_shaped. simpl.
  repeat split. lia.
Qed.

(** Every entry that is written, also by a run that ends in an
    exception, is on the minus strand, has its thick interval equal to
    its interval, and spans exactly the length of its kmer; so its start
    is never after its end. *)
Theorem bed_entries_minus_strand_shaped :
  forall (scanner : string -> list string -> list (string * list Z))
         (fc_map : gmap string Q) (seqs : list (string * string))
         (kmers : list string),
    Forall (fun e => minus_strand_shaped e /\ (chromStart e <= chromEnd e)%Z)
           (snd (for_each seqs (bed_sequence scanner fc_map kmers) [])).
Proof.
  intros scanner fc_map seqs kmers.
  assert (H : Forall minus_strand_shaped
                (snd (for_each seqs (bed_sequence scanner fc_map kmers) []))).
  { apply (writes_only_for_each minus_strand_shaped); [|constructor].
    intros curr_seq. unfold bed_sequence.
    apply writes_only_bind; [apply writes_only_lift|]. intros [[c co] st].
    apply writes_only_bind; [apply writes_only_lift|]. intros [s e].
    apply writes_only_for_each. intros [k starts]. unfold bed_kmer.
    destruct (Nat.eqb (length starts) 0); [apply writes_only_ret|].
    apply writes_only_for_each. intros off. apply bed_occurrence_shaped. }
  eapply List.Forall_impl; [|exact H].
  intros e He. split; [exact He|]. destruct He as (_ & _ & _ & Hlen). lia.
Qed.

Lemma bed_occurrence_other_strand fc_map seq_chrom seq_end seq_strand kmer_seq kmer_start :
  seq_strand <> "-" ->
  writes_nothing (bed_occurrence fc_map seq_chrom seq_end seq_strand kmer_seq kmer_start).
Proof.
  intros Hstrand. unfold bed_occurrence.
  apply writes_nothing_bind; [apply writes_nothing_lift|]. intros fc.
  apply writes_nothing_bind; [apply writes_nothing_lift|]. intros s.
  apply writes_nothing_bind; [apply writes_nothing_lift|]. intros c.
  destruct (String.eqb seq_strand "-") eqn:E; [|apply writes_nothing_ret].
  apply String.eqb_eq in E. contradiction.
Qed.

(** A sequence whose strand is not "-" adds no entry, whatever the
    outcome of its loop. *)
Theorem bed_sequence_other_strand_writes_nothing :
  forall (scanner : string -> list string -> list (string * list Z))
         (fc_map : gmap string Q) (kmers : list string)
         (header bases seq_chrom seq_coords seq_strand : string) (buf : list BedEntry),
    unpack3 (py_split ":" (hd EmptyString (py_split ";" (drop_first header))))
      = Ok (seq_chrom, seq_coords, seq_strand) ->
    seq_strand <> "-" ->
    snd (bed_sequence scanner fc_map kmers (header, bases) buf) = buf.
Proof.
  intros scanner fc_map kmers header bases seq_chrom seq_coords seq_strand buf
         Hname Hstrand.
  unfold bed_sequence. cbn [fst snd].
  unfold mbind at 1, bedM_bind at 1, lift at 1. rewrite Hname.
  revert buf.
  apply (writes_nothing_bind (lift (unpack2 (py_split "-" seq_coords))));
    [apply writes_nothing_lift|].
  intros [s e]. apply writes_nothing_for_each. intros [k starts].
  unfold bed_kmer. destruct (Nat.eqb (length starts) 0); [apply writes_nothing_ret|].
  apply writes_nothing_for_each. intros off.
  now apply bed_occurrence_other_strand.
Qed.

Lemma bed_sequence_other_strand_writes_nothing_witness :
  snd (bed_sequence example_scanner example_fc ["ACGT"; "TTTT"]
         (">chrom1:100-200:+;ENST1;ENSG1", "GGGGGACGTGGGG") []) = [].
Proof.
  apply (bed_sequence_other_strand_writes_nothing example_scanner example_fc
           ["ACGT"; "TTTT"] ">chrom1:100-200:+;ENST1;ENSG1" "GGGGGACGTGGGG"
           "chrom1" "100-200" "+" []).
  - reflexivity.
  - discriminate.
Defined.

(** A kmer without occurrence is passed over, even when it has no fold
    change; a kmer with an occurrence and no fold change ends the output
    with a KeyError before anything is written for it, on either strand. *)
Theorem bed_kmer_without_fold_change :
  forall (fc_map : gmap string Q) (seq_chrom seq_end seq_strand kmer_seq : string)
         (kmer_starts : list Z) (buf : list BedEntry),
    fc_map !! kmer_seq = None ->
    bed_kmer fc_map seq_chrom seq_end seq_strand (kmer_seq, kmer_starts) buf
    = (match kmer_starts with [] => Ok tt | _ => Raise KeyError end, buf).
Proof.
  intros fc_map seq_chrom seq_end seq_strand kmer_seq kmer_starts buf Hfc.
  unfold bed_kmer. destruct kmer_starts as [|off rest]; [reflexivity|].
  cbn [length Nat.eqb for_each]. unfold mbind at 1, bedM_bind at 1.
  unfold bed_occurrence, dict_get. rewrite Hfc. reflexivity.
Qed.

Lemma bed_kmer_without_fold_change_witness :
  bed_kmer example_fc "chrom1" "200" "+" ("GGGG", [2; 7]) []
  = (match [2; 7] with [] => Ok tt | _ => Raise KeyError end, []).
Proof.
  apply (bed_kmer_without_fold_change example_fc "chrom1" "200" "+" "GGGG" [2; 7] []).
  reflexivity.
Defined.

(** An existing BED file is left alone, whatever the other arguments
    are; and a call always leaves the file in place, so that a second
    call for the same file changes nothing and succeeds.  Files under
    other names are never touched. *)
Theorem bed_output_idempotent :
  forall (scanner scanner' : string -> list string -> list (string * list Z))
         (fc_map fc_map' : gmap string Q) (seqs seqs' : list (string * string))
         (kmers kmers' : list string) (fname desc desc' db db' : string)
         (fs : gmap string (list string)),
    let fs1 := snd (output_enriched_kmers_as_bed scanner fc_map seqs kmers
                      fname desc db fs) in
    is_Some (fs1 !! fname)
    /\ output_enriched_kmers_as_bed scanner' fc_map' seqs' kmers' fname desc' db' fs1
        = (Ok tt, fs1)
    /\ (is_Some (fs !! fname) -> fs1 = fs)
    /\ (forall other, other <> fname -> fs1 !! other = fs !! other).
Proof.
  intros scanner scanner' fc_map fc_map' seqs seqs' kmers kmers' fname desc desc'
         db db' fs fs1.
  assert (Hsome : is_Some (fs1 !! fname)).
  { unfold fs1, output_enriched_kmers_as_bed.
    destruct (fs !! fname) as [old|] eqn:E; simpl.
    - rewrite E. eauto.
    - destruct (for_each seqs _ []) as [outcome entries]. simpl.
      rewrite lookup_insert_eq. eauto. }
  split; [exact Hsome|]. split; [|split].
  - destruct Hsome as [lines Hlines].
    unfold output_enriched_kmers_as_bed at 1. now rewrite Hlines.
  - intros [old Hold]. unfold fs1, output_enriched_kmers_as_bed. now rewrite Hold.
  - intros other Hne. unfold fs1, output_enriched_kmers_as_bed.
    destruct (fs !! fname) as [old|] eqn:E; simpl; [reflexivity|].
    destruct (for_each seqs _ []) as [outcome entries]. simpl.
    now rewrite lookup_insert_ne.
Qed.

(** ** Printing and reading integers *)

Lemma digits_value_uint (d : Decimal.uint) (acc : Z) :
  digits_value acc (list_ascii_of_string (NilEmpty.string_of_uint d))
  = Some (uint_value acc d).
Proof.
  revert acc. induction d; intros acc; simpl; try reflexivity; apply IHd.
Qed.

Lemma of_uint_acc_value (d : Decimal.uint) (acc : positive) :
  Z.pos (Pos.of_uint_acc d acc) = uint_value (Z.pos acc) d.
Proof.
  revert acc. induction d; intros acc; simpl; try reflexivity;
    rewrite IHd; f_equal; lia.
Qed.

Lemma of_uint_value (d : Decimal.uint) : Z.of_N (Pos.of_uint d) = uint_value 0 d.
Proof.
  induction d; simpl; try reflexivity; try exact IHd;
    rewrite of_uint_acc_value; reflexivity.
Qed.

Lemma uint_digits_not_space (d : Decimal.uint) :
  Forall (fun c => is_space c = false)
         (list_ascii_of_string (NilEmpty.string_of_uint d)).
Proof. induction d; simpl; constructor; (reflexivity || exact IHd). Qed.

Lemma lstrip_id (l : list ascii) :
  Forall (fun c => is_space c = false) l -> lstrip l = l.
Proof. intros H. destruct H as [|c l Hc _]; simpl; [reflexivity|now rewrite Hc]. Qed.

Lemma strip_id (l : list ascii) :
  Forall (fun c => is_space c = false) l -> strip l = l.
Proof.
  intros H. unfold strip. rewrite (lstrip_id l H).
  rewrite lstrip_id; [apply rev_involutive|].
  apply Forall_forall. intros c Hc. rewrite Forall_forall in H. apply H.
  apply list_elem_of_In. apply list_elem_of_In in Hc. now apply in_rev.
Qed.

Lemma unsigned_value_uint (d : Decimal.uint) :
  d <> Decimal.Nil ->
  unsigned_value (list_ascii_of_string (NilEmpty.string_of_uint d))
  = Some (uint_value 0 d).
Proof.
  intros Hne. pose proof (digits_value_uint d 0) as H.
  destruct d; [contradiction|..]; exact H.
Qed.

(** [int] reads back what [str] prints. *)
Theorem py_int_of_string_py_str :
  forall n : Z, py_int_of_string (py_str n) = Ok n.
Proof.
  intros n. unfold py_int_of_string, py_str.
  destruct n as [|p|p]; [reflexivity|..]; unfold Z.to_int, NilZero.string_of_int.
  - pose proof (DecimalPos.Unsigned.to_uint_nonnil p) as Hne.
    pose proof (DecimalPos.Unsigned.of_to p) as Hval.
    assert (Hstr : NilZero.string_of_uint (Pos.to_uint p)
                   = NilEmpty.string_of_uint (Pos.to_uint p))
      by (destruct (Pos.to_uint p); [contradiction|..]; reflexivity).
    rewrite Hstr, (strip_id _ (uint_digits_not_space _)).
    pose proof (unsigned_value_uint _ Hne) as Hu.
    rewrite <- of_uint_value, Hval in Hu. simpl Z.of_N in Hu.
    destruct (Pos.to_uint p); [contradiction|..]; simpl in Hu |- *;
      simpl in Hu; rewrite Hu; reflexivity.
  - pose proof (DecimalPos.Unsigned.to_uint_nonnil p) as Hne.
    pose proof (DecimalPos.Unsigned.of_to p) as Hval.
    assert (Hstr : NilZero.string_of_uint (Pos.to_uint p)
                   = NilEmpty.string_of_uint (Pos.to_uint p))
      by (destruct (Pos.to_uint p); [contradiction|..]; reflexivity).
    rewrite Hstr. cbn [list_ascii_of_string].
    rewrite strip_id
      by (constructor; [reflexivity|apply uint_digits_not_space]).
    cbn [Ascii.eqb Bool.eqb]. cbv iota.
    rewrite (unsigned_value_uint _ Hne), <- of_uint_value, Hval. reflexivity.
Qed.

(** ** Splitting and joining *)

Lemma py_split_nonempty (sep : ascii) (s : string) : py_split sep s <> [].
Proof.
  destruct s as [|c s]; simpl; [discriminate|].
  destruct (Ascii.eqb c sep); [discriminate|].
  destruct (py_split sep s); discriminate.
Qed.

Lemma py_split_no_sep (sep : ascii) (s : string) :
  has_char sep s = false -> py_split sep s = [s].
Proof.
  induction s as [|c s IH]; simpl; [reflexivity|]. intros H.
  apply orb_false_iff in H. destruct H as [Hc Hs].
  rewrite Ascii.eqb_sym, Hc, (IH Hs). reflexivity.
Qed.

Lemma py_split_app (sep : ascii) (a b : string) :
  has_char sep a = false ->
  py_split sep (a ++ String sep b) = a :: py_split sep b.
Proof.
  induction a as [|c a IH]; simpl; intros H.
  - now rewrite Ascii.eqb_refl.
  - apply orb_false_iff in H. destruct H as [Hc Ha].
    rewrite Ascii.eqb_sym, Hc, (IH Ha). reflexivity.
Qed.

Lemma py_split_join (sep : ascii) (parts : list string) :
  parts <> [] ->
  Forall (fun s => has_char sep s = false) parts ->
  py_split sep (py_join (String sep EmptyString) parts) = parts.
Proof.
  intros Hne Hall. induction Hall as [|x rest Hx Hrest IH]; [contradiction|].
  destruct rest as [|y rest'].
  - simpl. now apply py_split_no_sep.
  - change (py_join (String sep EmptyString) (x :: y :: rest'))
      with (x ++ String sep (py_join (String sep EmptyString) (y :: rest'))).
    rewrite py_split_app by exact Hx. f_equal. apply IH. discriminate.
Qed.

Lemma has_char_app (c : ascii) (a b : string) :
  has_char c (a ++ b) = has_char c a || has_char c b.
Proof.
  induction a as [|x a IH]; simpl; [reflexivity|].
  now rewrite IH, orb_assoc.
Qed.

(** [str(n)] is made of decimal digits and possibly a minus sign. *)
Lemma py_str_chars (c : ascii) (n : Z) :
  digit_of c = None -> c <> "-"%char -> has_char c (py_str n) = false.
Proof.
  intros Hdigit Hminus.
  assert (Hu : forall d, has_char c (NilEmpty.string_of_uint d) = false).
  { induction d; simpl; [reflexivity|..]; rewrite IHd, orb_false_r;
      apply Ascii.eqb_neq; intros ->; discriminate Hdigit. }
  assert (Hz : forall d, has_char c (NilZero.string_of_uint d) = false).
  { intros d. destruct d; try apply (Hu _). simpl. rewrite orb_false_r.
    apply Ascii.eqb_neq. intros ->. discriminate Hdigit. }
  unfold py_str. destruct (Z.to_int n) as [d|d]; simpl.
  - apply Hz.
  - rewrite Hz, orb_false_r. now apply Ascii.eqb_neq.
Qed.

(** ** The count vector *)

Lemma mapM_py_int_of_string_py_str (l : list Z) :
  mapM py_int_of_string (map py_str l) = Ok l.
Proof.
  induction l as [|n l IH]; simpl; [reflexivity|].
  rewrite py_int_of_string_py_str. unfold mbind at 1, result_bind at 1.
  rewrite IH. reflexivity.
Qed.

(** [parse_counts] reads back a vector of integers written as their
    decimal forms joined by commas, when the vector is not empty. *)
Theorem parse_counts_join :
  forall counts : list Z,
    counts <> [] ->
    parse_counts (py_join "," (map py_str counts)) = Ok counts.
Proof.
  intros counts Hne. unfold parse_counts.
  rewrite (py_split_join "," (map py_str counts)).
  - apply mapM_py_int_of_string_py_str.
  - destruct counts; [contradiction|discriminate].
  - apply List.Forall_map. apply Forall_forall. intros n _.
    apply py_str_chars; [reflexivity|discriminate].
Qed.

Lemma parse_counts_join_witness :
  parse_counts (py_join "," (map py_str [3; 0; 12])) = Ok [3; 0; 12].
Proof. apply (parse_counts_join [3; 0; 12]). discriminate. Defined.

Lemma mapM_length {A B} (f : A -> result B) (l : list A) (ys : list B) :
  mapM f l = Ok ys -> length ys = length l.
Proof.
  revert ys. induction l as [|x l IH]; intros ys H; simpl in H.
  - inversion H. reflexivity.
  - destruct (f x) as [y|]; destruct (mapM f l) as [zs|];
      unfold mbind, result_bind in H; try discriminate.
    inversion H. simpl. f_equal. now apply IH.
Qed.

Lemma mapM_raise_in {A B} (f : A -> result B) (l : list A) (x : A) (e : pyerr) :
  In x l -> f x = Raise e -> exists e', mapM f l = Raise e'.
Proof.
  induction l as [|y l IH]; intros Hin Hx; [destruct Hin|].
  simpl. destruct Hin as [->|Hin].
  - rewrite Hx. unfold mbind, result_bind. eauto.
  - destruct (IH Hin Hx) as [e' ->].
    destruct (f y); unfold mbind, result_bind; eauto.
Qed.

(** [parse_counts] never returns an empty vector: it returns one count
    per comma-separated field.  A field that is empty, as in the empty
    string or after a trailing comma, makes it raise. *)
Theorem parse_counts_fields :
  forall (counts_str : string),
    (forall counts, parse_counts counts_str = Ok counts ->
                    counts <> [] /\ length counts = length (py_split "," counts_str))
    /\ (In EmptyString (py_split "," counts_str) ->
        exists e, parse_counts counts_str = Raise e).
Proof.
  intros counts_str. unfold parse_counts. split.
  - intros counts H. apply mapM_length in H. split; [|exact H].
    pose proof (py_split_nonempty "," counts_str).
    destruct counts; [|discriminate].
    destruct (py_split "," counts_str); [contradiction|discriminate].
  - intros Hin. now apply (mapM_raise_in py_int_of_string _ EmptyString ValueError).
Qed.

(** ** The lines of the BED file *)

Lemma py_str_no_tab (n : Z) : has_char (ascii_of_nat 9) (py_str n) = false.
Proof. apply py_str_chars; [reflexivity|discriminate]. Qed.

(** A line of the BED file splits at its tabs into exactly the eight
    fields of its entry, in the order chrom, chromStart, chromEnd, name,
    score, strand, thickStart, thickEnd (the last one followed by the
    end of line), when chrom, name and strand are free of tabs. *)
Theorem bed_line_fields :
  forall e : BedEntry,
    has_char (ascii_of_nat 9) (chrom e) = false ->
    has_char (ascii_of_nat 9) (name e) = false ->
    has_char (ascii_of_nat 9) (strand e) = false ->
    py_split (ascii_of_nat 9) (bed_line e)
    = [chrom e; py_str (chromStart e); py_str (chromEnd e); name e;
       py_str (score e); strand e; py_str (thickStart e);
       py_str (thickEnd e) ++ newline].
Proof.
  intros e Hchrom Hname Hstrand. unfold bed_line.
  change tab with (String (ascii_of_nat 9) EmptyString).
  assert (Hsep : forall a b : string,
             a ++ String (ascii_of_nat 9) EmptyString ++ b
             = a ++ String (ascii_of_nat 9) b) by reflexivity.
  rewrite !Hsep.
  rewrite py_split_app by exact Hchrom.
  rewrite py_split_app by apply py_str_no_tab.
  rewrite py_split_app by apply py_str_no_tab.
  rewrite py_split_app by exact Hname.
  rewrite py_split_app by apply py_str_no_tab.
  rewrite py_split_app by exact Hstrand.
  rewrite py_split_app by apply py_str_no_tab.
  rewrite py_split_no_sep; [reflexivity|].
  rewrite has_char_app, py_str_no_tab. reflexivity.
Qed.

Lemma bed_line_fields_witness :
  py_split (ascii_of_nat 9) (bed_line (minus_strand_entry "chrom1" 200 "ACGT" 667 5))
  = ["chrom1"; py_str 191; py_str 195; "ACGT"; py_str 667; "-"; py_str 191;
     py_str 195 ++ newline].
Proof.
  apply (bed_line_fields (minus_strand_entry "chrom1" 200 "ACGT" 667 5));
    reflexivity.
Defined.

(** ** Where the percentile cutoff lies *)

Lemma linear_interpolation_exact (s : list Q) (x v : Q) :
  linear_interpolation unrounded s x = Ok v ->
  (x == inject_Z (Qfloor x))%Q ->
  s !! Z.to_nat (Qfloor x) = Some v.
Proof.
  unfold linear_interpolation, unrounded. intros H Hx.
  destruct (s !! Z.to_nat (Qfloor x)) as [lower|]; [|discriminate].
  apply Qeq_bool_iff in Hx. rewrite Hx in H. now inversion H.
Qed.

Lemma sorted_values_lookup (a : list Q) (x : Q) :
  In x a -> exists j, sort_values_asc a !! j = Some x.
Proof.
  intros Hin. apply list_elem_of_lookup_1, list_elem_of_In.
  eapply Permutation_in; [apply sort_values_asc_perm|exact Hin].
Qed.

Lemma sorted_values_In (a : list Q) (j : nat) (x : Q) :
  sort_values_asc a !! j = Some x -> In x a.
Proof.
  intros H. apply list_elem_of_lookup_2, list_elem_of_In in H.
  eapply Permutation_in; [symmetry; apply sort_values_asc_perm|exact H].
Qed.

(** The cutoff lies between two of the values; at percentile 0 it is
    the least value and at percentile 100 the greatest. *)
Lemma np_percentile_between (a : list Q) (q : Q) :
  a <> [] -> (0 <= q)%Q -> (q <= 100)%Q ->
  exists c,
    np_percentile unrounded a q = Ok c
    /\ (exists lo, In lo a /\ (lo <= c)%Q)
    /\ (exists hi, In hi a /\ (c <= hi)%Q)
    /\ ((q == 0)%Q -> forall x, In x a -> (c <= x)%Q)
    /\ ((q == 100)%Q -> forall x, In x a -> (x <= c)%Q).
Proof.
  intros Ha H0 H100.
  destruct (np_percentile_mono a q q Ha H0 (Qle_refl q) H100) as (c & _ & E & _ & _).
  exists c. split; [exact E|].
  unfold np_percentile in E. rewrite !unrounded_id in E.
  rewrite (proj2 (Qle_bool_iff _ _) H0), (proj2 (Qle_bool_iff _ _) H100) in E.
  cbn [andb negb] in E.
  assert (Hlen : (1 <= length (sort_values_asc a))%nat).
  { rewrite sort_values_asc_length. destruct a; [contradiction|simpl; lia]. }
  destruct (Nat.eqb_spec (length (sort_values_asc a)) 0) as [Hz|_]; [lia|].
  set (s := sort_values_asc a) in *.
  set (m := inject_Z (Z.of_nat (length s) - 1)) in *.
  assert (Hm : (0 <= m)%Q) by (unfold m; rewrite <- (Zle_Qle 0); lia).
  assert (Hx0 : (0 <= q / 100 * m)%Q).
  { apply Qmult_le_0_compat; [|exact Hm]. apply Qle_shift_div_l; [reflexivity|Lqa.lra]. }
  assert (Hxm : (q / 100 * m <= m)%Q).
  { rewrite <- (Qmult_1_l m) at 2. apply Qmult_le_compat_r; [|exact Hm].
    apply Qle_shift_div_r; [reflexivity|Lqa.lra]. }
  assert (Hs : StronglySorted Qle s) by apply sort_values_asc_sorted.
  destruct (linear_interpolation_bounds s _ Hs Hx0 Hxm)
    as (v & lower & Ev & Hlower & Hlo & Hup).
  rewrite E in Ev. inversion Ev; subst v. clear Ev.
  pose proof (Qfloor_nonneg _ Hx0) as Hi0.
  pose proof (Qfloor_le_bound _ _ Hxm) as Hin.
  destruct (lookup_lt_is_Some_2 s (length s - 1)%nat ltac:(lia)) as [top Htop].
  assert (Hctop : (c <= top)%Q).
  { destruct (Nat.eq_dec (Z.to_nat (Qfloor (q / 100 * m))) (length s - 1)%nat) as [Heq|Hne].
    - assert (Hex : (q / 100 * m == inject_Z (Qfloor (q / 100 * m)))%Q).
      { apply Qle_antisym; [|apply Qfloor_le].
        eapply Qle_trans; [exact Hxm|]. unfold m at 1. rewrite <- Zle_Qle. lia. }
      pose proof (linear_interpolation_exact s _ c E Hex) as Hc.
      rewrite Heq, Htop in Hc. inversion Hc. apply Qle_refl.
    - apply (Hup (length s - 1)%nat top); [lia|exact Htop]. }
  split; [|split; [|split]].
  - exists lower. split; [|exact Hlo]. exact (sorted_values_In a _ _ Hlower).
  - exists top. split; [|exact Hctop]. exact (sorted_values_In a _ _ Htop).
  - intros Hq x Hx.
    assert (Hzero : (q / 100 * m == 0)%Q) by (rewrite Hq; unfold Qdiv; ring).
    assert (Hfl : Qfloor (q / 100 * m) = 0%Z) by (rewrite (Qfloor_comp _ _ Hzero); reflexivity).
    assert (Hex : (q / 100 * m == inject_Z (Qfloor (q / 100 * m)))%Q)
      by (rewrite Hfl; exact Hzero).
    pose proof (linear_interpolation_exact s _ c E Hex) as Hc. rewrite Hfl in Hc.
    destruct (sorted_values_lookup a x Hx) as [j Hj].
    apply (sorted_lookup_le s (Z.to_nat 0) j c x Hs); [simpl; lia|exact Hc|exact Hj].
  - intros Hq x Hx.
    assert (Hfull : (q / 100 * m == m)%Q) by (rewrite Hq; field).
    assert (Hfl : Qfloor (q / 100 * m) = (Z.of_nat (length s) - 1)%Z)
      by (rewrite (Qfloor_comp _ _ Hfull); unfold m; apply Qfloor_Z).
    assert (Hex : (q / 100 * m == inject_Z (Qfloor (q / 100 * m)))%Q)
      by (rewrite Hfl; exact Hfull).
    pose proof (linear_interpolation_exact s _ c E Hex) as Hc. rewrite Hfl in Hc.
    destruct (sorted_values_lookup a x Hx) as [j Hj].
    pose proof (lookup_lt_Some _ _ _ Hj) as Hjlt. fold s in Hjlt.
    apply (sorted_lookup_le s j (Z.to_nat (Z.of_nat (length s) - 1)) x c Hs);
      [lia|exact Hj|exact Hc].
Qed.

(** ** What the selection keeps *)

Lemma select_enriched_cutoff (ranked : list RankedRow) (q : Q) :
  ranked <> [] -> (0 <= q)%Q -> (q <= 100)%Q ->
  exists c,
    select_enriched unrounded ranked q = Ok (rows_meeting c ranked)
    /\ (exists hi, In hi ranked /\ (c <= rank hi)%Q)
    /\ ((q == 0)%Q -> forall r, In r ranked -> (c <= rank r)%Q)
    /\ ((q == 100)%Q -> forall r, In r ranked -> (rank r <= c)%Q).
Proof.
  intros Hne H0 H100.
  destruct (np_percentile_between (map rank ranked) q) as (c & E & _ & Hhi & Hmin & Hmax);
    try assumption.
  { destruct ranked; [contradiction|discriminate]. }
  exists c. unfold select_enriched, get_fc_cutoff. rewrite E.
  split; [reflexivity|]. split; [|split].
  - destruct Hhi as (hi & Hin & Hle). apply in_map_iff in Hin.
    destruct Hin as (r & <- & Hr). now exists r.
  - intros Hq r Hr. apply (Hmin Hq). now apply in_map.
  - intros Hq r Hr. apply (Hmax Hq). now apply in_map.
Qed.

Lemma filter_all {A} (f : A -> bool) (l : list A) :
  (forall x, In x l -> f x = true) -> List.filter f l = l.
Proof.
  induction l as [|x l IH]; intros H; simpl; [reflexivity|].
  rewrite (H x (or_introl eq_refl)). f_equal. apply IH.
  intros y Hy. apply H. now right.
Qed.

(** At percentile 0 every row is selected; at percentile 100 exactly the
    rows of greatest rank are. *)
Theorem select_enriched_extremes :
  forall ranked : list RankedRow,
    ranked <> [] ->
    select_enriched unrounded ranked 0 = Ok ranked
    /\ exists selected,
         select_enriched unrounded ranked 100 = Ok selected
         /\ forall r, In r selected <->
                      In r ranked /\ forall r', In r' ranked -> (rank r' <= rank r)%Q.
Proof.
  intros ranked Hne. split.
  - destruct (select_enriched_cutoff ranked 0 Hne) as (c & E & _ & Hmin & _);
      [apply Qle_refl|unfold Qle; simpl; lia|].
    rewrite E. f_equal. unfold rows_meeting. apply filter_all.
    intros r Hr. apply Qle_bool_iff. now apply Hmin.
  - destruct (select_enriched_cutoff ranked 100 Hne) as (c & E & (hi & Hhi & Hle) & _ & Hmax);
      [unfold Qle; simpl; lia|apply Qle_refl|].
    exists (rows_meeting c ranked). split; [exact E|].
    intros r. unfold rows_meeting. split.
    + intros H. apply filter_In in H. destruct H as [Hin Hc].
      apply Qle_bool_iff in Hc. split; [exact Hin|]. intros r' Hr'.
      eapply Qle_trans; [|exact Hc]. now apply Hmax.
    + intros [Hin Htop]. apply filter_In. split; [exact Hin|].
      apply Qle_bool_iff. eapply Qle_trans; [exact Hle|]. now apply Htop.
Qed.

Lemma select_enriched_extremes_witness :
  select_enriched unrounded example_ranked 0 = Ok example_ranked
  /\ exists selected,
       select_enriched unrounded example_ranked 100 = Ok selected
       /\ forall r, In r selected <->
                    In r example_ranked
                    /\ forall r', In r' example_ranked -> (rank r' <= rank r)%Q.
Proof. apply (select_enriched_extremes example_ranked). discriminate. Defined.

(** ** Ordinal ranks and the order of the table *)

Lemma count_greater_antitone (v w : Q) (l : list Q) :
  (v <= w)%Q -> (count_greater w l <= count_greater v l)%nat.
Proof.
  intros Hvw. unfold count_greater. induction l as [|x l IH]; simpl; [lia|].
  destruct (Qlt_bool w x) eqn:Ew.
  - apply Qlt_bool_true in Ew.
    assert (Ev : Qlt_bool v x = true)
      by (apply Qlt_bool_true; eapply Qle_lt_trans; eassumption).
    rewrite Ev. simpl. lia.
  - destruct (Qlt_bool v x); simpl; lia.
Qed.

Lemma count_greater_strict (v w : Q) (l : list Q) :
  (v < w)%Q -> In w l -> (count_greater w l < count_greater v l)%nat.
Proof.
  intros Hvw. induction l as [|x l IH]; intros Hin; [destruct Hin|].
  pose proof (count_greater_antitone v w l (Qlt_le_weak _ _ Hvw)) as Hle.
  unfold count_greater in *. simpl. destruct Hin as [->|Hin].
  - assert (Ew : Qlt_bool w w = false) by (apply Qlt_bool_false, Qle_refl).
    assert (Ev : Qlt_bool v w = true) by now apply Qlt_bool_true.
    rewrite Ew, Ev. simpl. lia.
  - specialize (IH Hin). destruct (Qlt_bool w x) eqn:Ew.
    + apply Qlt_bool_true in Ew.
      assert (Ev : Qlt_bool v x = true)
        by (apply Qlt_bool_true; eapply Qlt_trans; eassumption).
      rewrite Ev. simpl. lia.
    + destruct (Qlt_bool v x); simpl; lia.
Qed.

Lemma count_greater_below_length (v : Q) (l : list Q) :
  In v l -> (count_greater v l < length l)%nat.
Proof.
  unfold count_greater. induction l as [|x l IH]; intros Hin; [destruct Hin|].
  simpl. destruct Hin as [->|Hin].
  - assert (Ev : Qlt_bool v v = false) by (apply Qlt_bool_false, Qle_refl).
    rewrite Ev. pose proof (List.filter_length_le (fun w => Qlt_bool v w) l). lia.
  - specialize (IH Hin). destruct (Qlt_bool v x); simpl; lia.
Qed.

(** The ordinal ranks lie between 1 and the number of rows, a row of
    strictly greater rank has a strictly smaller ordinal rank, and a row
    that no row outranks has ordinal rank 1. *)
Theorem ordinal_rank_order :
  forall (sort : DataFrameSort) (or_df : ORTable)
         (method : string) (ranked : list RankedRow) (r1 r2 : RankedRow),
    rank_enriched_kmers sort or_df method = Ok ranked ->
    In r1 ranked -> In r2 ranked ->
    (1 <= ordinal_rank r1 <= Z.of_nat (length ranked))%Z
    /\ ((rank r1 < rank r2)%Q -> (ordinal_rank r2 < ordinal_rank r1)%Z)
    /\ ((forall r, In r ranked -> (rank r <= rank r1)%Q) -> ordinal_rank r1 = 1%Z).
Proof.
  intros sort or_df method ranked r1 r2 H H1 H2.
  rewrite (ordinal_rank_counts _ _ _ _ r1 H H1), (ordinal_rank_counts _ _ _ _ r2 H H2).
  assert (Hin1 : In (rank r1) (map rank ranked)) by now apply in_map.
  assert (Hin2 : In (rank r2) (map rank ranked)) by now apply in_map.
  split; [|split].
  - pose proof (count_greater_below_length _ _ Hin1) as Hlt.
    rewrite length_map in Hlt. lia.
  - intros Hlt. pose proof (count_greater_strict _ _ _ Hlt Hin2). lia.
  - intros Htop. rewrite count_greater_none; [reflexivity|].
    apply List.Forall_forall. intros w Hw. apply in_map_iff in Hw.
    destruct Hw as (r & <- & Hr). now apply Htop.
Qed.

Lemma ordinal_rank_order_witness :
  (1 <= 1 <= Z.of_nat 3)%Z
  /\ ((5 < 5)%Q -> (1 < 1)%Z)
  /\ ((forall r, In r (zip_with with_ordinal
                        (df_sort_stable s_rank false
                           [ {| s_row := {| kmer := "AAAA"; values := [5; 100; 2]%Q |};
                                s_rank := 5%Q |};
                             {| s_row := {| kmer := "CCCC"; values := [1; 100; 5]%Q |};
                                s_rank := 5%Q |};
                             {| s_row := {| kmer := "GGGG"; values := [3; 100; 3]%Q |};
                                s_rank := 3%Q |} ])
                        [1; 1; 3]) -> (rank r <= 5)%Q) -> 1%Z = 1%Z).
Proof.
  exact (ordinal_rank_order df_sort_stable example_table "max" _
           {| r_row := {| kmer := "AAAA"; values := [5; 100; 2]%Q |};
              rank := 5%Q; ordinal_rank := 1 |}
           {| r_row := {| kmer := "CCCC"; values := [1; 100; 5]%Q |};
              rank := 5%Q; ordinal_rank := 1 |}
           eq_refl (or_introl eq_refl) (or_intror (or_introl eq_refl))).
Defined.

(** ** The rank of a row *)

Lemma Qsum_from_bounds (xs : list Q) (acc lo hi : Q) :
  Forall (fun v => (lo <= v)%Q /\ (v <= hi)%Q) xs ->
  (acc + inject_Z (Z.of_nat (length xs)) * lo <= fold_left Qplus xs acc)%Q
  /\ (fold_left Qplus xs acc <= acc + inject_Z (Z.of_nat (length xs)) * hi)%Q.
Proof.
  intros H. revert acc. induction H as [|x xs [Hlo Hhi] _ IH]; intros acc.
  - cbn [fold_left length]. change (inject_Z (Z.of_nat 0)) with 0%Q. split; Lqa.lra.
  - cbn [fold_left length]. destruct (IH (acc + x)%Q) as [IH1 IH2].
    rewrite Nat2Z.inj_succ. unfold Z.succ. rewrite inject_Z_plus.
    change (inject_Z 1) with 1%Q.
    set (n := inject_Z (Z.of_nat (length xs))) in *. split.
    + eapply Qle_trans; [|exact IH1]. Lqa.lra.
    + eapply Qle_trans; [exact IH2|]. Lqa.lra.
Qed.

Lemma row_mean_bounds (xs : list Q) (lo hi m : Q) :
  Forall (fun v => (lo <= v)%Q /\ (v <= hi)%Q) xs ->
  row_mean xs = Some m ->
  (lo <= m)%Q /\ (m <= hi)%Q.
Proof.
  intros Hall Hm. destruct xs as [|x xs']; [discriminate|].
  set (xs := x :: xs') in *. unfold row_mean in Hm. inversion Hm. clear Hm.
  destruct (Qsum_from_bounds xs 0 lo hi Hall) as [H1 H2].
  fold (Qsum xs) in H1, H2.
  assert (Hn : (0 < inject_Z (Z.of_nat (length xs)))%Q).
  { rewrite <- (Zlt_Qlt 0). unfold xs. simpl length. lia. }
  set (n := inject_Z (Z.of_nat (length xs))) in *. split.
  - apply Qle_shift_div_l; [exact Hn|].
    change (inject_Z (Z.of_nat (S (length xs')))) with n.
    rewrite (Qmult_comm lo n). Lqa.lra.
  - apply Qle_shift_div_r; [exact Hn|].
    change (inject_Z (Z.of_nat (S (length xs')))) with n.
    rewrite (Qmult_comm hi n). Lqa.lra.
Qed.



(** ** The enriched kmers of a length *)

Lemma rows_meeting_prefix (c : Q) (ranked : list RankedRow) :
  StronglySorted ranked_desc ranked ->
  exists n, rows_meeting c ranked = take n ranked.
Proof.
  induction 1 as [|r l Hs IH Hall]; [now exists O|].
  unfold rows_meeting in *. simpl. destruct (Qle_bool c (rank r)) eqn:E.
  - destruct IH as [n Hn]. exists (S n). simpl. now rewrite Hn.
  - exists O. simpl.
    assert (Hlt : (rank r < c)%Q).
    { apply Qnot_le_lt. intros Hle. apply Qle_bool_iff in Hle. congruence. }
    clear IH. induction Hall as [|r' l' Hr' _ IH']; simpl; [reflexivity|].
    inversion Hs; subst.
    assert (E' : Qle_bool c (rank r') = false).
    { destruct (Qle_bool c (rank r')) eqn:E'; [|reflexivity].
      apply Qle_bool_iff in E'. unfold ranked_desc in Hr'. exfalso. Lqa.lra. }
    rewrite E'. now apply IH'.
Qed.

(** The enriched kmers of a kmer length are the first rows of its ranked
    table: no row is left out that ranks above a row that is kept.  A
    kmer length that was not loaded is a KeyError. *)
Theorem enriched_kmers_are_top_rows :
  forall (sort : DataFrameSort) (odds_ratios : gmap Z ORTable)
         (kmer_len : Z) (method : string),
    sorts_descending sort ->
    (odds_ratios !! kmer_len = None ->
     get_enriched_kmers_df sort odds_ratios kmer_len method = Raise KeyError)
    /\ (forall kmer_data enriched,
           odds_ratios !! kmer_len = Some kmer_data ->
           get_enriched_kmers_df sort odds_ratios kmer_len method = Ok enriched ->
           exists ranked n,
             rank_enriched_kmers sort kmer_data method = Ok ranked
             /\ enriched = take n ranked).
Proof.
  intros sort odds_ratios kmer_len method Hsort. unfold get_enriched_kmers_df. split.
  - intros ->. reflexivity.
  - intros kmer_data enriched -> H.
    destruct (rank_enriched_kmers sort kmer_data method) as [ranked|] eqn:Er;
      unfold mbind, result_bind in H; [|discriminate].
    exists ranked.
    assert (Hsorted : StronglySorted ranked_desc ranked).
    { destruct (rank_enriched_kmers_inv _ _ _ _ Er) as (scored & _ & ->).
      apply ranked_sorted. apply Hsort. }
    unfold select_enriched in H.
    destruct (get_fc_cutoff binary64 ranked default_percentile_cutoff) as [c|];
      unfold mbind, result_bind in H; [|discriminate].
    inversion H as [Hen].
    destruct (rows_meeting_prefix c ranked Hsorted) as [n Hn].
    exists n. split; [reflexivity|exact Hn].
Qed.

Lemma enriched_kmers_are_top_rows_witness :
  get_enriched_kmers_df df_sort_stable (<[4%Z := example_table]> ∅) 5 "max"
  = Raise KeyError
  /\ exists ranked n,
       rank_enriched_kmers df_sort_stable example_table "max" = Ok ranked
       /\ match get_enriched_kmers_df df_sort_stable (<[4%Z := example_table]> ∅)
                  4 "max" with
          | Ok enriched => enriched
          | Raise _ => []
          end = take n ranked.
Proof.
  split.
  - apply (proj1 (enriched_kmers_are_top_rows df_sort_stable
                    (<[4%Z := example_table]> ∅) 5 "max" df_sort_stable_sorts)).
    reflexivity.
  - apply (proj2 (enriched_kmers_are_top_rows df_sort_stable
                    (<[4%Z := example_table]> ∅) 4 "max" df_sort_stable_sorts)
             example_table).
    + reflexivity.
    + vm_compute. reflexivity.
Defined.

(** ** Regions that get the floor *)

(** A region shorter than the minimum sequence length gets the floor for
    both values, whatever its counts, the scores and the kmer length,
    provided the count vector is aligned with the scores. *)
Theorem short_region_gets_floor :
  forall (fc_rank : list Q) (kmer_len : Z) (floor : Q) (min_len : Z)
         (row : DensityRow) (counts : list Z),
    parse_counts (obs_counts row) = Ok counts ->
    length counts = length fc_rank ->
    (seq_len row < min_len)%Z ->
    density_of_row fc_rank kmer_len floor min_len row = Ok (Fin floor, floor).
Proof.
  intros fc_rank kmer_len floor min_len row counts Hparse Hlen Hshort.
  destruct (density_of_row_total fc_rank kmer_len floor min_len row counts Hparse Hlen)
    as (wd & m & E).
  destruct (density_of_row_ok _ _ _ _ _ _ _ E) as (counts' & _ & Hcases).
  destruct Hcases as [(_ & -> & ->)|(Hlong & _)]; [exact E|lia].
Qed.

Lemma short_region_gets_floor_witness :
  density_of_row example_fc_rank 4 min_density_val_default min_seq_len_default short_row
  = Ok (Fin min_density_val_default, min_density_val_default).
Proof.
  apply (short_region_gets_floor example_fc_rank 4 min_density_val_default
           min_seq_len_default short_row [0; 4; 0]).
  - reflexivity.
  - reflexivity.
  - unfold min_seq_len_default. simpl. lia.
Defined.

Lemma suppress_all_low (fc_rank : list Q) (counts : list Z) :
  Forall (fun fc => (fc < FC_FILTER)%Q) fc_rank ->
  length counts = length fc_rank ->
  Zsum (suppress fc_rank counts) = 0%Z
  /\ occurring_scores (fun fc => Qle_bool FC_FILTER fc) fc_rank counts = [].
Proof.
  intros Hall. revert counts.
  induction Hall as [|f fcs Hf _ IH]; intros [|c cs] Hlen; try discriminate.
  - split; reflexivity.
  - simpl in Hlen. destruct (IH cs ltac:(lia)) as [IH1 IH2].
    unfold occurring_scores in *. simpl.
    assert (Hlow : Qlt_bool f FC_FILTER = true) by now apply Qlt_bool_true.
    rewrite Hlow. unfold Qlt_bool in Hlow. apply negb_true_iff in Hlow.
    rewrite Hlow. simpl. split; [exact IH1|exact IH2].
Qed.

(** When no enriched kmer reaches the fold-change filter (the case the
    code warns about), a region gets the floor for both values however
    often the kmers occur in it. *)
Theorem no_kmer_meets_filter_gets_floor :
  forall (fc_rank : list Q) (kmer_len : Z) (row : DensityRow) (counts : list Z),
    Forall (fun fc => (fc < FC_FILTER)%Q) fc_rank ->
    parse_counts (obs_counts row) = Ok counts ->
    length counts = length fc_rank ->
    (seq_len row - kmer_len + 1 <> 0)%Z ->
    density_of_row fc_rank kmer_len min_density_val_default min_seq_len_default row
    = Ok (Fin min_density_val_default, min_density_val_default).
Proof.
  intros fc_rank kmer_len row counts Hlow Hparse Hlen Hne.
  destruct (density_of_row_total fc_rank kmer_len min_density_val_default
              min_seq_len_default row counts Hparse Hlen) as (wd & m & E).
  destruct (density_of_row_ok _ _ _ _ _ _ _ E) as (counts' & Hparse' & Hcases).
  rewrite Hparse in Hparse'. inversion Hparse'; subst counts'.
  destruct Hcases as [(_ & -> & ->)|(_ & Hwd & Hmax)]; [exact E|].
  destruct (suppress_all_low fc_rank counts Hlow Hlen) as [Hsum Hocc].
  rewrite Hocc in Hmax. simpl in Hmax. subst m.
  assert (Hd : ~ ((inject_Z (seq_len row) - inject_Z kmer_len + 1) / 1000 == 0)%Q).
  { rewrite len_denom_effective. now apply effective_length_nonzero. }
  destruct (np_sum_finite _ (suppress fc_rank counts) Hd) as (q & Hq & Heq).
  rewrite Hq in Hwd. rewrite Hsum in Heq.
  assert (Hzero : (q == 0)%Q) by (rewrite Heq; unfold Qdiv; ring).
  unfold py_max_float in Hwd. simpl np_gt in Hwd.
  assert (Hgt : Qlt_bool q min_density_val_default = true).
  { apply Qlt_bool_true. rewrite Hzero. reflexivity. }
  rewrite Hgt in Hwd. subst wd. exact E.
Qed.

Lemma no_kmer_meets_filter_gets_floor_witness :
  density_of_row [3 # 2]%Q 4 min_density_val_default min_seq_len_default weak_only_row
  = Ok (Fin min_density_val_default, min_density_val_default).
Proof.
  apply (no_kmer_meets_filter_gets_floor [3 # 2]%Q 4 weak_only_row [3]).
  - repeat constructor.
  - reflexivity.
  - reflexivity.
  - simpl. lia.
Defined.

(** ** More occurrences never lower the values of a region *)

Lemma Zsum_suppress_mono (fc_rank : list Q) (c1 c2 : list Z) :
  Forall2 Z.le c1 c2 ->
  (Zsum (suppress fc_rank c1) <= Zsum (suppress fc_rank c2))%Z.
Proof.
  intros H. revert fc_rank. induction H as [|x y l1 l2 Hxy _ IH]; intros fc_rank.
  - simpl. lia.
  - destruct fc_rank as [|f fcs]; simpl.
    + specialize (IH []). rewrite !suppress_nil in IH. lia.
    + specialize (IH fcs). destruct (Qlt_bool f FC_FILTER); lia.
Qed.

Lemma occurring_scores_mono (keep : Q -> bool) (fc_rank : list Q) (c1 c2 : list Z) :
  Forall2 Z.le c1 c2 ->
  forall v, In v (occurring_scores keep fc_rank c1) ->
            In v (occurring_scores keep fc_rank c2).
Proof.
  intros H. unfold occurring_scores. revert fc_rank.
  induction H as [|x y l1 l2 Hxy _ IH]; intros fc_rank v Hv.
  - destruct fc_rank; exact Hv.
  - destruct fc_rank as [|f fcs]; [exact Hv|]. simpl in Hv |- *.
    destruct (keep f); simpl in Hv |- *; [|now apply IH].
    destruct (Z.leb_spec 1 x) as [Hx|Hx]; simpl in Hv.
    + assert (Hy : (1 <=? y)%Z = true) by (apply Z.leb_le; lia).
      rewrite Hy. simpl. destruct Hv as [<-|Hv]; [now left|right; now apply IH].
    + destruct (1 <=? y)%Z; simpl; [right|]; now apply IH.
Qed.

(** Between two regions of the same length, the one whose count vector
    is at least as large in every position gets a weighted density and
    a maximum fold change that are at least as large. *)
Theorem density_monotone_in_counts :
  forall (fc_rank : list Q) (kmer_len : Z) (row1 row2 : DensityRow)
         (counts1 counts2 : list Z),
    parse_counts (obs_counts row1) = Ok counts1 ->
    parse_counts (obs_counts row2) = Ok counts2 ->
    length counts1 = length fc_rank ->
    Forall2 Z.le counts1 counts2 ->
    seq_len row1 = seq_len row2 ->
    (0 < seq_len row1 - kmer_len + 1)%Z ->
    exists wd1 wd2 m1 m2,
      density_of_row fc_rank kmer_len min_density_val_default min_seq_len_default row1
        = Ok (Fin wd1, m1)
      /\ density_of_row fc_rank kmer_len min_density_val_default min_seq_len_default row2
         = Ok (Fin wd2, m2)
      /\ (wd1 <= wd2)%Q /\ (m1 <= m2)%Q.
Proof.
  intros fc_rank kmer_len row1 row2 counts1 counts2 Hp1 Hp2 Hlen1 Hle Hseq Heff.
  assert (Hlen2 : length counts2 = length fc_rank)
    by (rewrite <- Hlen1; symmetry; exact (Forall2_length _ _ _ Hle)).
  destruct (density_of_row_total fc_rank kmer_len min_density_val_default
              min_seq_len_default row1 counts1 Hp1 Hlen1) as (wd1 & m1 & E1).
  destruct (density_of_row_total fc_rank kmer_len min_density_val_default
              min_seq_len_default row2 counts2 Hp2 Hlen2) as (wd2 & m2 & E2).
  destruct (density_of_row_ok _ _ _ _ _ _ _ E1) as (c1 & Hp1' & Hc1).
  destruct (density_of_row_ok _ _ _ _ _ _ _ E2) as (c2 & Hp2' & Hc2).
  rewrite Hp1 in Hp1'. rewrite Hp2 in Hp2'. inversion Hp1'; inversion Hp2'; subst c1 c2.
  destruct Hc1 as [(Hs1 & -> & ->)|(Hl1 & Hwd1 & Hm1)];
    destruct Hc2 as [(Hs2 & -> & ->)|(Hl2 & Hwd2 & Hm2)]; try lia.
  - exists min_density_val_default, min_density_val_default,
           min_density_val_default, min_density_val_default.
    repeat split; try assumption; apply Qle_refl.
  - destruct (weighted_density_finite min_density_val_default (seq_len row1) kmer_len
                (suppress fc_rank counts1) ltac:(lia)) as (q1 & Hq1 & Heq1 & _).
    destruct (weighted_density_finite min_density_val_default (seq_len row2) kmer_len
                (suppress fc_rank counts2) ltac:(lia)) as (q2 & Hq2 & Heq2 & _).
    rewrite Hq1 in Hwd1. rewrite Hq2 in Hwd2. subst wd1 wd2.
    exists q1, q2, m1, m2. split; [exact E1|]. split; [exact E2|]. split.
    + rewrite Heq1, Heq2, <- Hseq. apply Q.max_le_compat_r.
      assert (Hd : (0 < effective_length_kb (seq_len row1) kmer_len)%Q).
      { unfold effective_length_kb. apply Qlt_shift_div_l; [reflexivity|].
        rewrite Qmult_0_l. rewrite <- (Zlt_Qlt 0). exact Heff. }
      unfold Qdiv. apply Qmult_le_compat_r.
      * rewrite <- Zle_Qle. now apply Zsum_suppress_mono.
      * apply Qlt_le_weak, Qinv_lt_0_compat. exact Hd.
    + pose proof (occurring_scores_mono (fun fc => Qle_bool FC_FILTER fc) fc_rank
                    counts1 counts2 Hle) as Hincl.
      unfold max_or_floor in Hm1, Hm2.
      destruct (occurring_scores _ fc_rank counts1) as [|x1 r1] eqn:O1.
      * subst m1.
        destruct (occurring_scores _ fc_rank counts2) as [|x2 r2] eqn:O2.
        -- subst m2. apply Qle_refl.
        -- destruct Hm2 as [Hin2 _]. rewrite <- O2 in Hin2.
           apply occurring_scores_kept in Hin2. apply Qle_bool_iff in Hin2.
           eapply Qle_trans; [|exact Hin2].
           unfold min_density_val_default, FC_FILTER, Qle. simpl. lia.
      * destruct Hm1 as [Hin1 _]. specialize (Hincl m1 Hin1).
        destruct (occurring_scores _ fc_rank counts2) as [|x2 r2] eqn:O2;
          [destruct Hincl|].
        destruct Hm2 as [_ Hall2]. rewrite List.Forall_forall in Hall2.
        now apply Hall2.
Qed.

Lemma density_monotone_in_counts_witness :
  exists wd1 wd2 m1 m2,
    density_of_row example_fc_rank 4 min_density_val_default min_seq_len_default
      {| region := "r1"; seq_len := 100; obs_counts := "0,0,2" |} = Ok (Fin wd1, m1)
    /\ density_of_row example_fc_rank 4 min_density_val_default min_seq_len_default
         example_row = Ok (Fin wd2, m2)
    /\ (wd1 <= wd2)%Q /\ (m1 <= m2)%Q.
Proof.
  apply (density_monotone_in_counts example_fc_rank 4
           {| region := "r1"; seq_len := 100; obs_counts := "0,0,2" |} example_row
           [0; 0; 2] [3; 0; 2]).
  - reflexivity.
  - reflexivity.
  - reflexivity.
  - repeat constructor; lia.
  - reflexivity.
  - simpl. lia.
Defined.

(** ** The FASTA file handed to the motif search *)

Lemma ranked_max_row sort table ranked r :
  sorts_descending sort ->
  rank_enriched_kmers sort table "max" = Ok ranked ->
  In r ranked ->
  In (r_row r) (rows table)
  /\ In (rank r) (select_cols table (get_conc_cols table "nM") (r_row r)).
Proof.
  intros Hsort H Hin.
  destruct (rank_enriched_kmers_scored _ _ _ _ H)
    as (stat & scored & Hmethod & Hstat & Hrows & G & ->).
  apply in_map_iff in Hin. destruct Hin as (s & <- & Hs).
  destruct (Hsort scored) as [Hperm _].
  apply (Permutation_in _ (Permutation_sym Hperm)) in Hs.
  rewrite List.Forall_forall in Hstat. specialize (Hstat s Hs).
  cbn [with_ordinal r_row rank]. split.
  - rewrite <- Hrows. now apply in_map.
  - destruct Hmethod as [[_ ->]|[Hm _]]; [|discriminate Hm].
    unfold row_max in Hstat.
    destruct (select_cols table _ (s_row s)) as [|x rest]; [discriminate|].
    inversion Hstat. apply fold_py_max.
Qed.

Lemma flat_map_map {A B C} (f : B -> list C) (g : A -> B) (l : list A) :
  flat_map (fun x => f (g x)) l = flat_map f (map g l).
Proof. induction l as [|x l IH]; simpl; [reflexivity|now rewrite IH]. Qed.

Lemma fasta_for_length_kmers sort odds_ratios cutoff kmer_len lines :
  sorts_descending sort ->
  In kmer_len meme_kmer_lens ->
  fasta_for_length sort odds_ratios cutoff kmer_len = Ok lines ->
  exists kmers,
    lines = flat_map fasta_record kmers
    /\ Forall (reaches_cutoff odds_ratios cutoff) kmers.
Proof.
  intros Hsort Hlen H. unfold fasta_for_length in H.
  destruct (odds_ratios !! kmer_len) as [table|] eqn:Et; [|discriminate].
  destruct (rank_enriched_kmers sort table "max") as [ranked|] eqn:Er;
    unfold mbind, result_bind in H; [|discriminate].
  inversion H. clear H.
  exists (map (fun r => kmer (r_row r)) (rows_meeting cutoff ranked)).
  split; [apply (flat_map_map fasta_record (fun r => kmer (r_row r)))|].
  apply List.Forall_map. apply List.Forall_forall. intros r Hr.
  unfold rows_meeting in Hr. apply filter_In in Hr. destruct Hr as [Hin Hc].
  apply Qle_bool_iff in Hc.
  destruct (ranked_max_row sort table ranked r Hsort Er Hin) as [Hrow Hval].
  exists kmer_len, table, (r_row r), (rank r). repeat split; assumption.
Qed.

(** Whatever the outcome, the FASTA file consists of records of two
    lines, ">kmer" and "kmer", and every kmer in it belongs to a loaded
    table of length 4, 5 or 6 and has a concentration value that
    reaches the cutoff. *)
Theorem fasta_records_reach_cutoff :
  forall (sort : DataFrameSort) (odds_ratios : gmap Z ORTable)
         (cutoff : Q) (len_to_output : option Z),
    sorts_descending sort ->
    exists kmers,
      snd (write_enriched_kmers_fasta sort odds_ratios cutoff len_to_output)
      = flat_map fasta_record kmers
      /\ Forall (reaches_cutoff odds_ratios cutoff) kmers.
Proof.
  intros sort odds_ratios cutoff len_to_output Hsort.
  unfold write_enriched_kmers_fasta.
  enough (Hgen : forall lens ks0,
             (forall k, In k lens -> In k meme_kmer_lens) ->
             Forall (reaches_cutoff odds_ratios cutoff) ks0 ->
             exists kmers,
               snd (fasta_loop sort odds_ratios cutoff len_to_output lens
                      (flat_map fasta_record ks0))
               = flat_map fasta_record kmers
               /\ Forall (reaches_cutoff odds_ratios cutoff) kmers).
  { apply (Hgen meme_kmer_lens []); [auto|constructor]. }
  induction lens as [|k lens IH]; intros ks0 Hlens Hks0.
  - exists ks0. split; [reflexivity|exact Hks0].
  - assert (Hrest : forall k', In k' lens -> In k' meme_kmer_lens)
      by (intros k' Hk'; apply Hlens; now right).
    cbn [fasta_loop].
    destruct (match len_to_output with
              | Some n => negb (n =? k)%Z
              | None => false
              end); [now apply IH|].
    destruct (fasta_for_length sort odds_ratios cutoff k) as [lines|e] eqn:E.
    + destruct (fasta_for_length_kmers sort odds_ratios cutoff k lines Hsort
                  (Hlens k (or_introl eq_refl)) E) as (ks & -> & Hks).
      rewrite <- flat_map_app. apply IH; [exact Hrest|].
      apply Forall_app. split; assumption.
    + exists ks0. split; [reflexivity|exact Hks0].
Qed.

Lemma fasta_records_reach_cutoff_witness :
  exists kmers,
    snd (write_enriched_kmers_fasta df_sort_stable example_odds_ratios_4 4 (Some 4%Z))
    = flat_map fasta_record kmers
    /\ Forall (reaches_cutoff example_odds_ratios_4 4) kmers.
Proof.
  apply (fasta_records_reach_cutoff df_sort_stable example_odds_ratios_4 4 (Some 4%Z)).
  exact df_sort_stable_sorts.
Defined.

(** Asked for one kmer length, the loop reads the table of that length
    only, and writes nothing at all, without an error, when the length
    is not 4, 5 or 6.  Asked for all lengths, it needs the tables of 4,
    5 and 6: it ends with a KeyError at the first one that is missing. *)
Theorem fasta_lengths :
  forall (sort : DataFrameSort) (odds_ratios : gmap Z ORTable)
         (cutoff : Q),
    (forall n : Z,
        write_enriched_kmers_fasta sort odds_ratios cutoff (Some n)
        = if existsb (Z.eqb n) meme_kmer_lens
          then match fasta_for_length sort odds_ratios cutoff n with
               | Ok lines => (Ok tt, lines)
               | Raise e => (Raise e, [])
               end
          else (Ok tt, []))
    /\ (fst (write_enriched_kmers_fasta sort odds_ratios cutoff None) = Ok tt ->
        Forall (fun k => is_Some (odds_ratios !! k)) meme_kmer_lens).
Proof.
  intros sort odds_ratios cutoff. split.
  - intros n. unfold write_enriched_kmers_fasta, meme_kmer_lens.
    cbn [fasta_loop existsb].
    destruct (Z.eqb_spec n 4) as [->|H4]; cbn [negb orb].
    { change (5 =? 4)%Z with false. change (6 =? 4)%Z with false.
      destruct (fasta_for_length sort odds_ratios cutoff 4); reflexivity. }
    destruct (Z.eqb_spec n 5) as [->|H5]; cbn [negb orb].
    { destruct (fasta_for_length sort odds_ratios cutoff 5); reflexivity. }
    destruct (Z.eqb_spec n 6) as [->|H6]; cbn [negb orb].
    { destruct (fasta_for_length sort odds_ratios cutoff 6); reflexivity. }
    reflexivity.
  - unfold write_enriched_kmers_fasta, meme_kmer_lens. cbn [fasta_loop].
    intros H.
    assert (Hload : forall k, is_ok (fasta_for_length sort odds_ratios cutoff k) = true ->
                              is_Some (odds_ratios !! k)).
    { intros k Hk. unfold fasta_for_length in Hk.
      destruct (odds_ratios !! k); [eauto|discriminate]. }
    destruct (fasta_for_length sort odds_ratios cutoff 4) as [l4|] eqn:E4;
      [|discriminate].
    destruct (fasta_for_length sort odds_ratios cutoff 5) as [l5|] eqn:E5;
      [|discriminate].
    destruct (fasta_for_length sort odds_ratios cutoff 6) as [l6|] eqn:E6;
      [|discriminate].
    repeat constructor; apply Hload.
    + now rewrite E4.
    + now rewrite E5.
    + now rewrite E6.
Qed.

Lemma fasta_lengths_witness :
  Forall (fun k => is_Some (example_odds_ratios !! k)) meme_kmer_lens.
Proof.
  apply (proj2 (fasta_lengths df_sort_stable example_odds_ratios 4)).
  vm_compute. reflexivity.
Defined.

(** ** Headers that cannot be read *)

Lemma for_each_app {X} (xs ys : list X) (body : X -> bedM unit) (buf : list BedEntry) :
  for_each (xs ++ ys)%list body buf
  = match for_each xs body buf with
    | (Ok _, buf') => for_each ys body buf'
    | (Raise e, buf') => (Raise e, buf')
    end.
Proof.
  revert buf. induction xs as [|x xs IH]; intros buf; simpl.
  - reflexivity.
  - unfold mbind, bedM_bind. destruct (body x buf) as [[[]|e] buf']; [apply IH|reflexivity].
Qed.

Lemma bed_sequence_malformed scanner fc kmers curr_seq buf :
  malformed_header (fst curr_seq) ->
  bed_sequence scanner fc kmers curr_seq buf = (Raise ValueError, buf).
Proof.
  intros H. unfold bed_sequence. unfold header_fields, malformed_header in H.
  unfold mbind at 1, bedM_bind at 1, lift at 1.
  destruct H as [H|(c & coords & s & Hf & H)].
  - unfold header_fields in H.
    destruct (py_split ":" (hd EmptyString (py_split ";" (drop_first (fst curr_seq)))))
      as [|a [|b [|c [|d l]]]]; simpl in *; try reflexivity. congruence.
  - unfold header_fields in Hf. rewrite Hf. simpl.
    unfold mbind at 1, bedM_bind at 1, lift at 1.
    destruct (py_split "-" coords) as [|a [|b [|d l]]]; simpl in *; try reflexivity.
    congruence.
Qed.

(** A sequence whose header cannot be read stops the BED output with a
    ValueError: the file holds the header line and the entries of the
    sequences before it, and nothing of the sequences after it. *)
Theorem malformed_header_stops_output :
  forall (scanner : string -> list string -> list (string * list Z))
         (fc : gmap string Q) (before_seqs after_seqs : list (string * string))
         (bad_seq : string * string) (kmers : list string)
         (bed_output_fname track_desc db : string)
         (fs : gmap string (list string)) (entries : list BedEntry),
    fs !! bed_output_fname = None ->
    for_each before_seqs (bed_sequence scanner fc kmers) [] = (Ok tt, entries) ->
    malformed_header (fst bad_seq) ->
    output_enriched_kmers_as_bed scanner fc
      (before_seqs ++ bad_seq :: after_seqs)%list kmers bed_output_fname track_desc db fs
    = (Raise ValueError,
       <[bed_output_fname := bed_header track_desc db :: map bed_line entries]> fs).
Proof.
  intros scanner fc before_seqs after_seqs bad_seq kmers fname td db fs entries
    Hfs Hbefore Hbad.
  unfold output_enriched_kmers_as_bed. rewrite Hfs.
  rewrite for_each_app, Hbefore. cbn [for_each].
  unfold mbind, bedM_bind. rewrite (bed_sequence_malformed _ _ _ _ _ Hbad).
  reflexivity.
Qed.

Lemma malformed_header_stops_output_witness :
  output_enriched_kmers_as_bed example_scanner example_fc
    ([example_seq] ++ headless_seq :: [example_seq])%list ["ACGT"; "TTTT"]
    "out.bed" "track" "mm9" ∅
  = (Raise ValueError,
     <["out.bed" := bed_header "track" "mm9"
                    :: map bed_line
                         (snd (for_each [example_seq]
                                 (bed_sequence example_scanner example_fc ["ACGT"; "TTTT"])
                                 []))]> ∅).
Proof.
  apply (malformed_header_stops_output example_scanner example_fc
           [example_seq] [example_seq] headless_seq).
  - reflexivity.
  - vm_compute. reflexivity.
  - left. vm_compute. discriminate.
Defined.

(** ** The fold change of every enriched kmer *)

Lemma py_dict_snoc (pairs : list (string * Q)) (kv : string * Q) :
  py_dict (pairs ++ [kv])%list = <[fst kv := snd kv]> (py_dict pairs).
Proof. unfold py_dict. now rewrite fold_left_app. Qed.

Lemma py_dict_lookup (pairs : list (string * Q)) (k : string) :
  match py_dict pairs !! k with
  | Some v => exists l1 l2, pairs = (l1 ++ (k, v) :: l2)%list /\ ~ In k (map fst l2)
  | None => ~ In k (map fst pairs)
  end.
Proof.
  induction pairs as [|[k' v'] pairs IH] using rev_ind.
  - unfold py_dict. simpl. rewrite lookup_empty. intros [].
  - rewrite py_dict_snoc. cbn [fst snd].
    destruct (decide (k' = k)) as [->|Hne].
    + rewrite lookup_insert_eq. exists pairs, []. split; [reflexivity|intros []].
    + rewrite lookup_insert_ne by exact Hne.
      destruct (py_dict pairs !! k) as [v|].
      * destruct IH as (l1 & l2 & -> & Hl2).
        exists l1, (l2 ++ [(k', v')])%list. split.
        { now rewrite <- app_assoc. }
        rewrite map_app, in_app_iff. simpl. intros [H|[H|[]]]; [now apply Hl2|].
        now apply Hne.
      * rewrite map_app, in_app_iff. simpl. intros [H|[H|[]]]; [now apply IH|].
        now apply Hne.
Qed.

(** The dictionary of fold changes has an entry for exactly the enriched
    kmers.  The entry of a kmer is the rank of an enriched row of that
    kmer, the last one when the kmer occurs in several rows. *)
Theorem enriched_kmer_fold_change :
  forall (enriched_kmers : list RankedRow) (kmer_seq : string),
    (In kmer_seq (kmer_column enriched_kmers) ->
     exists l1 r l2,
       enriched_kmers = (l1 ++ r :: l2)%list
       /\ kmer (r_row r) = kmer_seq
       /\ ~ In kmer_seq (kmer_column l2)
       /\ dict_get (enriched_kmer_to_fc_of enriched_kmers) kmer_seq = Ok (rank r))
    /\ (~ In kmer_seq (kmer_column enriched_kmers) ->
        dict_get (enriched_kmer_to_fc_of enriched_kmers) kmer_seq = Raise KeyError).
Proof.
  intros enriched_kmers kmer_seq.
  assert (Hcol : forall l, map fst (kmer_rank_pairs l) = kmer_column l).
  { intros l. unfold kmer_rank_pairs, kmer_column. rewrite map_map. reflexivity. }
  pose proof (py_dict_lookup (kmer_rank_pairs enriched_kmers) kmer_seq) as H.
  unfold dict_get, enriched_kmer_to_fc_of.
  destruct (py_dict (kmer_rank_pairs enriched_kmers) !! kmer_seq) as [v|].
  - destruct H as (p1 & p2 & Hp & Hlast). split.
    + intros _. unfold kmer_rank_pairs in Hp.
      apply map_eq_app in Hp. destruct Hp as (l1 & l2' & -> & Hl1 & Hl2').
      apply map_eq_cons in Hl2'.
      destruct Hl2' as (r & l2 & -> & Hr & Hl2).
      inversion Hr. subst.
      exists l1, r, l2. repeat split; try reflexivity.
      rewrite <- Hcol. exact Hlast.
    + intros Hnot. exfalso. apply Hnot. rewrite <- Hcol, Hp.
      rewrite map_app, in_app_iff. right. now left.
  - rewrite Hcol in H. split; [intros Hin; contradiction|reflexivity].
Qed.

Lemma enriched_kmer_fold_change_witness :
  exists l1 r l2,
    example_ranked = (l1 ++ r :: l2)%list
    /\ kmer (r_row r) = "CCCC"
    /\ ~ In "CCCC" (kmer_column l2)
    /\ dict_get (enriched_kmer_to_fc_of example_ranked) "CCCC" = Ok (rank r).
Proof.
  apply (proj1 (enriched_kmer_fold_change example_ranked "CCCC")).
  right. left. reflexivity.
Defined.

(** ** The BED output on the dictionary of the enriched kmers *)

Lemma for_each_outcome {X} (xs : list X) (body : X -> bedM unit) :
  (forall x buf, In x xs ->
     fst (body x buf) = Ok tt \/ fst (body x buf) = Raise ValueError) ->
  forall buf,
    fst (for_each xs body buf) = Ok tt \/ fst (for_each xs body buf) = Raise ValueError.
Proof.
  induction xs as [|x xs IH]; intros Hbody buf; simpl.
  - now left.
  - unfold mbind, bedM_bind.
    destruct (Hbody x buf (or_introl eq_refl)) as [H|H];
      destruct (body x buf) as [[[]|e] buf']; simpl in H; try discriminate.
    + apply IH. intros y b Hy. apply Hbody. now right.
    + right. simpl. exact H.
Qed.

Lemma bind_outcome {A} (m : bedM A) (f : A -> bedM unit) :
  (forall buf, (exists a, fst (m buf) = Ok a) \/ fst (m buf) = Raise ValueError) ->
  (forall a buf, fst (f a buf) = Ok tt \/ fst (f a buf) = Raise ValueError) ->
  forall buf, fst ((m ≫= f) buf) = Ok tt \/ fst ((m ≫= f) buf) = Raise ValueError.
Proof.
  intros Hm Hf buf. unfold mbind, bedM_bind.
  destruct (Hm buf) as [[a H]|H]; destruct (m buf) as [[a'|e] buf'];
    simpl in H; try discriminate.
  - apply Hf.
  - right. simpl. inversion H. reflexivity.
Qed.

Lemma unpack3_outcome (l : list string) (buf : list BedEntry) :
  (exists a, fst (lift (unpack3 l) buf) = Ok a)
  \/ fst (lift (unpack3 l) buf) = Raise ValueError.
Proof.
  destruct l as [|a [|b [|c [|d l]]]]; simpl; try (now right). left. eauto.
Qed.

Lemma unpack2_outcome (l : list string) (buf : list BedEntry) :
  (exists a, fst (lift (unpack2 l) buf) = Ok a)
  \/ fst (lift (unpack2 l) buf) = Raise ValueError.
Proof.
  destruct l as [|a [|b [|d l]]]; simpl; try (now right). left. eauto.
Qed.

Lemma py_int_of_string_outcome (s : string) :
  (exists n, py_int_of_string s = Ok n) \/ py_int_of_string s = Raise ValueError.
Proof.
  unfold py_int_of_string.
  match goal with |- context [match ?x with Some _ => _ | None => _ end] =>
    destruct x as [n|] end.
  - left. now exists n.
  - now right.
Qed.

Lemma bed_occurrence_outcome fc seq_chrom seq_end seq_strand kmer_seq kmer_start buf :
  is_Some (fc !! kmer_seq) ->
  fst (bed_occurrence fc seq_chrom seq_end seq_strand kmer_seq kmer_start buf) = Ok tt
  \/ fst (bed_occurrence fc seq_chrom seq_end seq_strand kmer_seq kmer_start buf)
     = Raise ValueError.
Proof.
  intros [v Hv]. unfold bed_occurrence, dict_get. rewrite Hv.
  unfold mbind at 1, bedM_bind at 1, lift at 1.
  rewrite kmer_score_of_eq, kmer_color_of_eq.
  unfold mbind, bedM_bind, lift.
  destruct (String.eqb seq_strand "-"); [|now left].
  destruct (py_int_of_string_outcome seq_end) as [[n ->]| ->]; [now left|now right].
Qed.

(** Called on the dictionary and the kmer column of one table of
    enriched kmers, with a scanner that reports the queried kmers only,
    the BED output never fails on a kmer without a fold change: it ends
    normally or with the ValueError of a header or an end coordinate
    that cannot be read. *)
Theorem bed_of_enriched_finds_every_fold_change :
  forall (scanner : string -> list string -> list (string * list Z))
         (enriched_kmers : list RankedRow) (seqs : list (string * string))
         (bed_output_fname curr_track_desc : string) (fs : gmap string (list string)),
    reports_queried scanner ->
    fst (output_bed_of_enriched scanner enriched_kmers seqs
           bed_output_fname curr_track_desc fs) = Ok tt
    \/ fst (output_bed_of_enriched scanner enriched_kmers seqs
              bed_output_fname curr_track_desc fs) = Raise ValueError.
Proof.
  intros scanner enriched_kmers seqs fname td fs Hscan.
  unfold output_bed_of_enriched, output_enriched_kmers_as_bed.
  destruct (fs !! fname); [now left|].
  pose proof (for_each_outcome seqs
                (bed_sequence scanner (enriched_kmer_to_fc_of enriched_kmers)
                   (kmer_column enriched_kmers))) as H.
  match goal with |- context [for_each ?xs ?b ?buf] =>
    specialize (fun Hb => H Hb buf); destruct (for_each xs b buf) as [o es] end.
  simpl in *. apply H. clear H.
  intros curr_seq buf _. unfold bed_sequence.
  apply bind_outcome; [intros b; apply unpack3_outcome|]. intros [[c co] st] b1.
  apply bind_outcome; [intros b; apply unpack2_outcome|]. intros [s e] b2.
  revert b2.
  apply for_each_outcome. intros [k starts] buf' Hk. unfold bed_kmer.
  destruct (Nat.eqb (length starts) 0); [now left|].
  apply for_each_outcome. intros start buf'' _.
  apply bed_occurrence_outcome.
  apply Hscan in Hk.
  pose proof (py_dict_lookup (kmer_rank_pairs enriched_kmers) k) as Hget.
  unfold enriched_kmer_to_fc_of.
  destruct (py_dict (kmer_rank_pairs enriched_kmers) !! k); [eauto|].
  exfalso. apply Hget. unfold kmer_rank_pairs. rewrite map_map. exact Hk.
Qed.

Lemma bed_of_enriched_finds_every_fold_change_witness :
  fst (output_bed_of_enriched scanner_at_zero example_ranked [example_seq]
         "out.bed" "track" ∅) = Ok tt
  \/ fst (output_bed_of_enriched scanner_at_zero example_ranked [example_seq]
            "out.bed" "track" ∅) = Raise ValueError.
Proof.
  apply (bed_of_enriched_finds_every_fold_change scanner_at_zero example_ranked
           [example_seq] "out.bed" "track" ∅).
  intros bases kmers k starts H. unfold scanner_at_zero in H.
  apply in_map_iff in H. destruct H as (k' & Hk & Hin).
  inversion Hk. subst. exact Hin.
Defined.
